(** * bbox.py: decoding and drawing of labelled bounding boxes

    A shallow embedding of [src/bbox.py] and a verification of the
    statements made about it.

    Conventions of the embedding.
    - A Python [str] is a list of characters ([str := list ascii]); a text
      with characters above 127 is taken as its UTF-8 bytes.  The classes
      [\s] and [\d] of [re] and the digits of [int] are given on ASCII
      characters only ([is_space], [is_digit]); on a [str] Python also
      takes the white space and the decimal digits of Unicode, so what is
      stated of the scan of the pattern is stated for texts of ASCII
      characters ([ascii_text]).
    - A Python value is a term of [value]; [int] is [Z], [float] is IEEE
      binary64 ([spec_float] with precision 53 and maximal exponent 1024),
      a [dict] is an association list in insertion order.
    - A call that can raise returns a [result]; code that mutates images or
      draws random numbers is a function of the [world].
    - Limits of the interpreter (recursion depth, the cap on the length of
      decimal strings that [int] accepts, memory) are not part of the
      embedding: integers and nesting are unbounded.
    - Pillow is represented by the commands it receives and by whether it
      takes them: an image is its source pixels together with the drawing
      commands burnt into it, in order, and a call that Pillow refuses
      raises and draws nothing.  Which calls it refuses, on which image, is
      a parameter ([refuses]), so what is proved holds whatever Pillow
      refuses; what it does with a command that it takes (clipping,
      anti-aliasing) is Pillow's. *)

From Stdlib Require Import ZArith Ascii String List Bool Lia SpecFloat.
From stdpp Require Import base option list gmap.
Import ListNotations.

Local Open Scope Z_scope.
Local Open Scope list_scope.

(** ** Exceptions and results *)

Inductive exn :=
| JSONDecodeError
| ValueError
| TypeError
| AttributeError
| OverflowError
| ZeroDivisionError.

Inductive result (A : Type) :=
| Ok (a : A)
| Raise (e : exn).
Arguments Ok {A} a.
Arguments Raise {A} e.

#[global] Instance result_ret : MRet result := fun A a => Ok a.
#[global] Instance result_bind : MBind result := fun A B f m =>
  match m with
  | Ok a => f a
  | Raise e => Raise e
  end.
#[global] Instance result_fmap : FMap result := fun A B f m =>
  match m with
  | Ok a => Ok (f a)
  | Raise e => Raise e
  end.

Abbreviation str := (list ascii).

Definition lit (s : string) : str := list_ascii_of_string s.

Definition code (c : ascii) : Z := Z.of_N (N_of_ascii c).

Definition chr (n : Z) : ascii := ascii_of_N (Z.to_N n).

Definition is_char (a c : ascii) : bool := Ascii.eqb a c.

(** The double quote. *)
Definition dquote : ascii := "034"%char.

(** A text written with an apostrophe wherever it has a double quote. *)
Definition py (s : string) : str :=
  (fun c => if is_char "'" c then dquote else c) <$> lit s.

Definition str_eqb (a b : str) : bool := bool_decide (a = b).

(** ** binary64 *)

Definition prec : Z := 53.
Definition emax : Z := 1024.

Abbreviation float := spec_float.

(** The least magnitude that rounds (to nearest, ties to even) beyond the
    largest finite double: [DBL_MAX] plus half a unit in its last place. *)
Definition dbl_overflow : Z := 2 ^ 1024 - 2 ^ 970.

Definition float_of_Z (n : Z) : float := binary_normalize prec emax n 0 false.

(** [float(n)] for an [int]: correctly rounded, [OverflowError] when the
    rounded value is not finite. *)
Definition int_to_float (n : Z) : result float :=
  if Z.abs n <? dbl_overflow then Ok (float_of_Z n) else Raise OverflowError.

Definition big (n : Z) : float :=
  match n with
  | Z0 => S754_zero false
  | Zpos p => S754_finite false p 0
  | Zneg p => S754_finite true p 0
  end.

(** [a / b] on two [int]s: the quotient, correctly rounded. *)
Definition int_true_divide (a b : Z) : result float :=
  if b =? 0 then Raise ZeroDivisionError
  else if a =? 0 then Ok (S754_zero (b <? 0))
  else if dbl_overflow * Z.abs b <=? Z.abs a then Raise OverflowError
  else Ok (SFdiv prec emax (big a) (big b)).

Definition float_is_zero (x : float) : bool :=
  match x with
  | S754_zero _ => true
  | _ => false
  end.

Definition float_div (x y : float) : result float :=
  if float_is_zero y then Raise ZeroDivisionError else Ok (SFdiv prec emax x y).

(** Comparison of a float with an integer is exact in Python. *)
Definition float_lt_int (x : float) (n : Z) : bool :=
  match x with
  | S754_nan => false
  | S754_infinity s => s
  | S754_zero _ => 0 <? n
  | S754_finite s m e =>
      let v := cond_Zopp s (Zpos m) in
      if 0 <=? e then v * 2 ^ e <? n else v <? n * 2 ^ (- e)
  end.

Definition int_lt_float (n : Z) (x : float) : bool :=
  match x with
  | S754_nan => false
  | S754_infinity s => negb s
  | S754_zero _ => n <? 0
  | S754_finite s m e =>
      let v := cond_Zopp s (Zpos m) in
      if 0 <=? e then n <? v * 2 ^ e else n * 2 ^ (- e) <? v
  end.

(** [float(s)] on a decimal literal with digits [m] and decimal exponent
    [e10]: the value [m * 10 ^ e10], correctly rounded; too large a value
    is an infinity. *)
Definition float_of_decimal (neg : bool) (m : Z) (e10 : Z) : float :=
  match m with
  | Zpos p =>
      if 0 <=? e10 then binary_normalize prec emax (cond_Zopp neg (m * 10 ^ e10)) 0 false
      else SFdiv prec emax (S754_finite neg p 0) (big (10 ^ (- e10)))
  | _ => S754_zero neg
  end.

(** ** Python values *)

#[warnings="-register-all"]
Inductive value :=
| VNone
| VBool (b : bool)
| VInt (n : Z)
| VFloat (x : float)
| VStr (s : str)
| VList (l : list value)
| VDict (d : list (str * value)).

Abbreviation dict := (list (str * value)).

(** Numbers as the arithmetic operators see them: [bool] is a subclass of
    [int]. *)
Inductive num :=
| NInt (n : Z)
| NFloat (x : float).

Definition as_num (v : value) : option num :=
  match v with
  | VBool b => Some (NInt (if b then 1 else 0))
  | VInt n => Some (NInt n)
  | VFloat x => Some (NFloat x)
  | _ => None
  end.

Definition of_num (n : num) : value :=
  match n with
  | NInt n => VInt n
  | NFloat x => VFloat x
  end.

Definition binop (f : num -> num -> result num) (a b : value) : result value :=
  match as_num a, as_num b with
  | Some x, Some y => of_num <$> f x y
  | _, _ => Raise TypeError
  end.

Definition num_truediv (a b : num) : result num :=
  match a, b with
  | NInt x, NInt y => NFloat <$> int_true_divide x y
  | NFloat x, NInt y => fy ← int_to_float y; NFloat <$> float_div x fy
  | NInt x, NFloat y => fx ← int_to_float x; NFloat <$> float_div fx y
  | NFloat x, NFloat y => NFloat <$> float_div x y
  end.

Definition num_arith (fi : Z -> Z -> Z) (ff : float -> float -> float) (a b : num) : result num :=
  match a, b with
  | NInt x, NInt y => Ok (NInt (fi x y))
  | NFloat x, NInt y => fy ← int_to_float y; Ok (NFloat (ff x fy))
  | NInt x, NFloat y => fx ← int_to_float x; Ok (NFloat (ff fx y))
  | NFloat x, NFloat y => Ok (NFloat (ff x y))
  end.

Definition py_truediv : value -> value -> result value := binop num_truediv.
Definition py_mul : value -> value -> result value := binop (num_arith Z.mul (SFmul prec emax)).
Definition py_add : value -> value -> result value := binop (num_arith Z.add (SFadd prec emax)).
Definition py_sub : value -> value -> result value := binop (num_arith Z.sub (SFsub prec emax)).

Definition num_lt (a b : num) : bool :=
  match a, b with
  | NInt x, NInt y => x <? y
  | NFloat x, NInt y => float_lt_int x y
  | NInt x, NFloat y => int_lt_float x y
  | NFloat x, NFloat y => SFltb x y
  end.

Definition py_lt (a b : value) : result bool :=
  match as_num a, as_num b with
  | Some x, Some y => Ok (num_lt x y)
  | _, _ => Raise TypeError
  end.

(** Truth value of an object, as [if bboxes:] takes it. *)
Definition truthy (v : value) : bool :=
  match v with
  | VNone => false
  | VBool b => b
  | VInt n => negb (n =? 0)
  | VFloat x => negb (float_is_zero x)
  | VStr s => negb (bool_decide (s = []))
  | VList l => negb (bool_decide (length l = 0%nat))
  | VDict d => negb (bool_decide (length d = 0%nat))
  end.

(** ** Characters *)

(** The decimal digits 0 to 9: the digits of JSON, and among the ASCII
    characters the class [\d] of [re] and the digits that [int] reads. *)
Definition is_digit (c : ascii) : bool := (48 <=? code c) && (code c <=? 57).

Definition digit_value (c : ascii) : Z := code c - 48.

Fixpoint digits_value (acc : Z) (s : str) : Z :=
  match s with
  | [] => acc
  | c :: s' => digits_value (10 * acc + digit_value c) s'
  end.

(** White space as [str.isspace], [str.strip] and the class [\s] of [re]
    see it among the ASCII characters: tab to carriage return, the four
    separators 28 to 31, and the space. *)
Definition is_space (c : ascii) : bool :=
  ((9 <=? code c) && (code c <=? 13)) || ((28 <=? code c) && (code c <=? 32)).

(** The longest prefix of characters of a class, and what follows it. *)
Fixpoint span (p : ascii -> bool) (s : str) : str * str :=
  match s with
  | c :: s' => if p c then let '(a, b) := span p s' in (c :: a, b) else ([], s)
  | [] => ([], [])
  end.

(** ** Dictionaries

    A [dict] keeps its keys in the order of their first insertion; an
    assignment to a key that is present replaces the value where it is. *)

Fixpoint dict_set (k : str) (v : value) (d : dict) : dict :=
  match d with
  | [] => [(k, v)]
  | (k', v') :: d' =>
      if str_eqb k k' then (k, v) :: d' else (k', v') :: dict_set k v d'
  end.


(** [dict(pairs)], and a dict comprehension over [pairs]. *)
Definition dict_of_pairs (pairs : list (str * value)) : dict :=
  fold_left (fun d kv => dict_set (fst kv) (snd kv) d) pairs [].

Definition keys (d : dict) : list str := map fst d.

(** ** The [json] module: [json.loads] *)

Module Json.

Definition is_ws (c : ascii) : bool :=
  is_char " " c || is_char "009" c || is_char "010" c || is_char "013" c.

Fixpoint skip_ws (s : str) : str :=
  match s with
  | c :: s' => if is_ws c then skip_ws s' else s
  | [] => []
  end.

Definition hex_value (c : ascii) : option Z :=
  let n := code c in
  if (48 <=? n) && (n <=? 57) then Some (n - 48)
  else if (65 <=? n) && (n <=? 70) then Some (n - 55)
  else if (97 <=? n) && (n <=? 102) then Some (n - 87)
  else None.

Definition hex4 (a b c d : ascii) : option Z :=
  x ← hex_value a; y ← hex_value b; z ← hex_value c; w ← hex_value d;
  Some (((x * 16 + y) * 16 + z) * 16 + w).

(** The bytes of a code point. *)
Definition utf8 (u : Z) : str :=
  if u <? 128 then [chr u]
  else if u <? 2048 then [chr (192 + u / 64); chr (128 + u mod 64)]
  else if u <? 65536 then
    [chr (224 + u / 4096); chr (128 + (u / 64) mod 64); chr (128 + u mod 64)]
  else
    [chr (240 + u / 262144); chr (128 + (u / 4096) mod 64);
     chr (128 + (u / 64) mod 64); chr (128 + u mod 64)].

(** The table [BACKSLASH] of the decoder. *)
Definition backslash (c : ascii) : option ascii :=
  if is_char dquote c then Some dquote
  else if is_char "\" c then Some "\"%char
  else if is_char "/" c then Some "/"%char
  else if is_char "b" c then Some "008"%char
  else if is_char "f" c then Some "012"%char
  else if is_char "n" c then Some "010"%char
  else if is_char "r" c then Some "013"%char
  else if is_char "t" c then Some "009"%char
  else None.

Definition is_high_surrogate (u : Z) : bool := (55296 <=? u) && (u <=? 56319).
Definition is_low_surrogate (u : Z) : bool := (56320 <=? u) && (u <=? 57343).

(** [scanstring], strict: [s] starts after the opening quote; the result is
    the decoded string and the text after the closing quote. *)
Fixpoint scanstring (s : str) (acc : str) {struct s} : result (str * str) :=
  match s with
  | [] => Raise JSONDecodeError
  | c :: s1 =>
      if is_char dquote c then Ok (rev acc, s1)
      else if is_char "\" c then
        match s1 with
        | [] => Raise JSONDecodeError
        | e :: s2 =>
            if is_char "u" e then
              match s2 with
              | h1 :: h2 :: h3 :: h4 :: s3 =>
                  match hex4 h1 h2 h3 h4 with
                  | None => Raise JSONDecodeError
                  | Some u =>
                      match s3 with
                      | b :: u' :: g1 :: g2 :: g3 :: g4 :: s4 =>
                          if is_high_surrogate u && is_char "\" b && is_char "u" u' then
                            match hex4 g1 g2 g3 g4 with
                            | None => Raise JSONDecodeError
                            | Some u2 =>
                                if is_low_surrogate u2 then
                                  scanstring s4
                                    (rev (utf8 (65536 + ((u - 55296) * 1024 + (u2 - 56320)))) ++ acc)
                                else scanstring s3 (rev (utf8 u) ++ acc)
                            end
                          else scanstring s3 (rev (utf8 u) ++ acc)
                      | _ => scanstring s3 (rev (utf8 u) ++ acc)
                      end
                  end
              | _ => Raise JSONDecodeError
              end
            else
              match backslash e with
              | Some ch => scanstring s2 (ch :: acc)
              | None => Raise JSONDecodeError
              end
        end
      else if code c <? 32 then Raise JSONDecodeError
      else scanstring s1 (c :: acc)
  end.

(** The exponent part of a number, when present: e or E, an optional sign,
    one digit or more. *)
Definition scan_exponent (s : str) : option (Z * str) :=
  match s with
  | e :: r =>
      if is_char "e" e || is_char "E" e then
        match r with
        | c :: r' =>
            if is_digit c then
              let '(ds, rest) := span is_digit r in Some (digits_value 0 ds, rest)
            else if is_char "+" c || is_char "-" c then
              match r' with
              | d :: _ =>
                  if is_digit d then
                    let '(ds, rest) := span is_digit r' in
                    Some ((if is_char "-" c then -1 else 1) * digits_value 0 ds, rest)
                  else None
              | [] => None
              end
            else None
        | [] => None
        end
      else None
  | [] => None
  end.

(** The fraction part of a number, when present: a dot and one digit or
    more. *)
Definition scan_fraction (s : str) : option (str * str) :=
  match s with
  | d :: r =>
      if is_char "." d then
        match r with
        | f :: _ => if is_digit f then Some (span is_digit r) else None
        | [] => None
        end
      else None
  | [] => None
  end.

(** [NUMBER_RE.match]: an optional minus sign, then either a single 0 or
    a digit from 1 to 9 and any digits, then an optional fraction and an
    optional exponent, each taken when it is there.  The value is an [int]
    when there is neither fraction nor exponent, a [float] otherwise.
    [scan_unsigned] is what follows the sign. *)
Definition scan_unsigned (neg : bool) (s1 : str) : option (value * str) :=
  match s1 with
  | c :: r =>
      if is_digit c then
        let '(ipart, s2) := if is_char "0" c then ([c], r) else span is_digit s1 in
        match scan_fraction s2 with
        | Some (frac, s3) =>
            let m := digits_value 0 (ipart ++ frac) in
            match scan_exponent s3 with
            | Some (ex, s4) =>
                Some (VFloat (float_of_decimal neg m (ex - Z.of_nat (length frac))), s4)
            | None =>
                Some (VFloat (float_of_decimal neg m (- Z.of_nat (length frac))), s3)
            end
        | None =>
            match scan_exponent s2 with
            | Some (ex, s4) =>
                Some (VFloat (float_of_decimal neg (digits_value 0 ipart) ex), s4)
            | None => Some (VInt (cond_Zopp neg (digits_value 0 ipart)), s2)
            end
        end
      else None
  | [] => None
  end.

Definition scan_number (s : str) : option (value * str) :=
  match s with
  | c :: r => if is_char "-" c then scan_unsigned true r else scan_unsigned false s
  | [] => None
  end.

Fixpoint strip_prefix (p s : str) : option str :=
  match p, s with
  | [], _ => Some s
  | a :: p', c :: s' => if is_char a c then strip_prefix p' s' else None
  | _ :: _, [] => None
  end.

(** The constants that are tried when no number matches. *)
Definition scan_constant (s : str) : result (value * str) :=
  match strip_prefix (lit "NaN") s with
  | Some r => Ok (VFloat S754_nan, r)
  | None =>
      match strip_prefix (lit "Infinity") s with
      | Some r => Ok (VFloat (S754_infinity false), r)
      | None =>
          match strip_prefix (lit "-Infinity") s with
          | Some r => Ok (VFloat (S754_infinity true), r)
          | None => Raise JSONDecodeError
          end
      end
  end.

Definition scan_atom (s : str) : result (value * str) :=
  match strip_prefix (lit "null") s with
  | Some r => Ok (VNone, r)
  | None =>
      match strip_prefix (lit "true") s with
      | Some r => Ok (VBool true, r)
      | None =>
          match strip_prefix (lit "false") s with
          | Some r => Ok (VBool false, r)
          | None =>
              match scan_number s with
              | Some vr => Ok vr
              | None => scan_constant s
              end
          end
      end
  end.

(** [scan_once], [JSONArray] and [JSONObject].  [scan_array] starts at an
    element, [scan_object] after the opening quote of a key.  The recursion
    is on a fuel; [None] says that it ran out. *)
Fixpoint scan_once (fuel : nat) (s : str) {struct fuel} : option (result (value * str)) :=
  match fuel with
  | O => None
  | S f =>
      match s with
      | [] => Some (Raise JSONDecodeError)
      | c :: s1 =>
          if is_char dquote c then
            Some ('(k, r) ← scanstring s1 []; Ok (VStr k, r))
          else if is_char "{" c then
            match skip_ws s1 with
            | q :: r =>
                if is_char "}" q then Some (Ok (VDict [], r))
                else if is_char dquote q then scan_object f [] r
                else Some (Raise JSONDecodeError)
            | [] => Some (Raise JSONDecodeError)
            end
          else if is_char "[" c then
            match skip_ws s1 with
            | q :: r =>
                if is_char "]" q then Some (Ok (VList [], r))
                else scan_array f [] (q :: r)
            | [] => Some (Raise JSONDecodeError)
            end
          else Some (scan_atom s)
      end
  end
with scan_array (fuel : nat) (acc : list value) (s : str) {struct fuel}
  : option (result (value * str)) :=
  match fuel with
  | O => None
  | S f =>
      match scan_once f s with
      | None => None
      | Some (Raise e) => Some (Raise e)
      | Some (Ok (v, r)) =>
          match skip_ws r with
          | c :: r' =>
              if is_char "]" c then Some (Ok (VList (rev (v :: acc)), r'))
              else if is_char "," c then scan_array f (v :: acc) (skip_ws r')
              else Some (Raise JSONDecodeError)
          | [] => Some (Raise JSONDecodeError)
          end
      end
  end
with scan_object (fuel : nat) (acc : list (str * value)) (s : str) {struct fuel}
  : option (result (value * str)) :=
  match fuel with
  | O => None
  | S f =>
      match scanstring s [] with
      | Raise e => Some (Raise e)
      | Ok (k, r) =>
          match skip_ws r with
          | c :: r1 =>
              if is_char ":" c then
                match scan_once f (skip_ws r1) with
                | None => None
                | Some (Raise e) => Some (Raise e)
                | Some (Ok (v, r2)) =>
                    match skip_ws r2 with
                    | c2 :: r3 =>
                        if is_char "}" c2 then
                          Some (Ok (VDict (dict_of_pairs (rev ((k, v) :: acc))), r3))
                        else if is_char "," c2 then
                          match skip_ws r3 with
                          | q :: r4 =>
                              if is_char dquote q then scan_object f ((k, v) :: acc) r4
                              else Some (Raise JSONDecodeError)
                          | [] => Some (Raise JSONDecodeError)
                          end
                        else Some (Raise JSONDecodeError)
                    | [] => Some (Raise JSONDecodeError)
                    end
                end
              else Some (Raise JSONDecodeError)
          | [] => Some (Raise JSONDecodeError)
          end
      end
  end.

(** The fuel that [loads] gives the scanner for a text; it never runs out
    ([scan_once_fuel] below). *)
Definition fuel_for (s : str) : nat := 2 * length s + 1.

(** [JSONDecoder.decode]: one value between optional white space, nothing
    after it.  A text that starts with a byte order mark is rejected like
    any other text that does not start with a value. *)
Definition decode_with (fuel : nat) (s : str) : option (result value) :=
  match scan_once fuel (skip_ws s) with
  | None => None
  | Some (Raise e) => Some (Raise e)
  | Some (Ok (v, r)) =>
      match skip_ws r with
      | [] => Some (Ok v)
      | _ :: _ => Some (Raise JSONDecodeError)
      end
  end.

Definition loads (s : str) : result value :=
  match decode_with (fuel_for s) s with
  | Some r => r
  | None => Raise JSONDecodeError
  end.

End Json.

(** ** The [re] module: greedy matching with backtracking, [re.findall] *)

Module Re.

(** The fragment of the pattern language that the program uses: literal
    characters, character classes, greedy repetition of a class, sequences
    and capturing groups (which do not nest). *)
Inductive regex :=
| Eps
| Chr (c : ascii)
| Cls (p : ascii -> bool)
| Star (p : ascii -> bool)
| Plus (p : ascii -> bool)
| Cat (r1 r2 : regex)
| Group (r : regex).

Definition seq (rs : list regex) : regex := fold_right Cat Eps rs.

Section Matcher.
Context {R : Type}.

(** A greedy repetition takes the longest run first and gives characters
    back one at a time while what follows fails. *)
Fixpoint star (p : ascii -> bool) (k : str -> option R) (s : str) : option R :=
  match s with
  | c :: s' =>
      if p c then
        match star p k s' with
        | Some r => Some r
        | None => k s
        end
      else k s
  | [] => k []
  end.

(** [run r s caps k]: match [r] at the start of [s], then go on with [k] on
    what is left and on the groups closed so far. *)
Fixpoint run (r : regex) (s : str) (caps : list str) (k : str -> list str -> option R)
  : option R :=
  match r with
  | Eps => k s caps
  | Chr a =>
      match s with
      | c :: s' => if is_char a c then k s' caps else None
      | [] => None
      end
  | Cls p =>
      match s with
      | c :: s' => if p c then k s' caps else None
      | [] => None
      end
  | Star p => star p (fun s' => k s' caps) s
  | Plus p =>
      match s with
      | c :: s' => if p c then star p (fun s'' => k s'' caps) s' else None
      | [] => None
      end
  | Cat r1 r2 => run r1 s caps (fun s' caps' => run r2 s' caps' k)
  | Group r1 =>
      run r1 s caps (fun s' caps' => k s' (caps' ++ [take (length s - length s') s]))
  end.

End Matcher.

(** A match at the start of [s]: the groups and the text after the match. *)
Definition match_here (r : regex) (s : str) : option (list str * str) :=
  run r s [] (fun s' caps => Some (caps, s')).

(** The scan of [findall]: [skip] characters still belong to the match
    found last; at any other position a match is tried, and the scan goes
    on after it (one character on after an empty match). *)
Fixpoint scan (r : regex) (skip : nat) (s : str) : list (list str) :=
  match skip with
  | S n =>
      match s with
      | _ :: s' => scan r n s'
      | [] => []
      end
  | O =>
      match match_here r s with
      | Some (caps, rest) =>
          caps ::
            match s with
            | _ :: s' => scan r (length s - length rest - 1) s'
            | [] => []
            end
      | None =>
          match s with
          | _ :: s' => scan r 0 s'
          | [] => []
          end
      end
  end.

(** [re.findall] for a pattern with several groups: the tuples of groups of
    the matches, left to right, none overlapping another. *)
Definition findall (r : regex) (s : str) : list (list str) := scan r 0 s.

End Re.

(** ** The decoder *)

Definition not_quote (c : ascii) : bool := negb (is_char dquote c).

(** The pattern of [extract_bounding_boxes]: a quote, the label (one
    character or more, none a quote), a quote, a colon, white space, an
    opening bracket, four runs of digits separated by a comma and white
    space, a closing bracket.  White space and digits are the ASCII ones:
    the pattern is that of the program on texts of ASCII characters. *)
Definition pattern : Re.regex :=
  Re.seq
    [Re.Chr dquote; Re.Group (Re.Plus not_quote); Re.Chr dquote; Re.Chr ":";
     Re.Star is_space; Re.Chr "[";
     Re.Group (Re.Plus is_digit); Re.Chr ","; Re.Star is_space;
     Re.Group (Re.Plus is_digit); Re.Chr ","; Re.Star is_space;
     Re.Group (Re.Plus is_digit); Re.Chr ","; Re.Star is_space;
     Re.Group (Re.Plus is_digit); Re.Chr "]"].

Definition strip (s : str) : str :=
  rev (snd (span is_space (rev (snd (span is_space s))))).

(** Digits with single underscores between them, as [int] accepts them. *)
Fixpoint digits_ok (after_digit : bool) (s : str) : bool :=
  match s with
  | [] => after_digit
  | c :: s' =>
      if is_digit c then digits_ok true s'
      else if is_char "_" c then after_digit && digits_ok false s'
      else false
  end.

(** [int(s)] on a string, base ten. *)
Definition int_of_str (s : str) : result Z :=
  let s0 := strip s in
  let '(neg, s1) :=
    match s0 with
    | c :: r => if is_char "-" c then (true, r) else if is_char "+" c then (false, r) else (false, s0)
    | [] => (false, s0)
    end in
  if digits_ok false s1 then Ok (cond_Zopp neg (digits_value 0 (filter (fun c => Is_true (is_digit c)) s1)))
  else Raise ValueError.

(** The dict comprehension: each match is unpacked into its label and its
    coordinates, which are converted with [int]. *)
Fixpoint comprehension (matches : list (list str)) (d : dict) : result dict :=
  match matches with
  | [] => Ok d
  | m :: rest =>
      match m with
      | [] => Raise ValueError
      | label :: coords =>
          cs ← mapM int_of_str coords;
          comprehension rest (dict_set label (VList (VInt <$> cs)) d)
      end
  end.

Definition extract_bounding_boxes (text : str) : result value :=
  match Json.loads text with
  | Ok bboxes => Ok bboxes
  | Raise JSONDecodeError =>
      let matches := Re.findall pattern text in
      VDict <$> comprehension matches []
  | Raise e => Raise e
  end.

(** ** Images, fonts and the world *)

Abbreviation loc := nat.

Inductive font :=
| TrueType (file : str) (size : Z)
| DefaultFont.

(** The calls on an [ImageDraw] object. *)
Inductive draw_op :=
| Rectangle (xy : list value) (fill : option str) (outline : option str) (width : Z)
| Text (xy : value * value) (text : str) (f : font) (fill : str).

(** An image object: its size (width, height), the pixels it was made
    with, and the drawing commands burnt into them since, oldest first. *)
Record image_obj := Image {
  im_size : Z * Z;
  im_pixels : list Z;
  im_drawn : list draw_op
}.

(** The objects of the heap and the number of calls made to the random
    number generator. *)
Record world := World {
  images : gmap loc image_obj;
  rng_calls : nat
}.

(** What the program gets from its platform: the stream of the random
    number generator, the file system, the metrics of a font (the
    bounding box [(left, top, right, bottom)] of a text), which are machine
    integers, and what Pillow answers to a drawing call: [refuses im op] is
    the exception that [ImageDraw] raises on the call [op] on the image
    [im], if it raises one (since Pillow 9.5 a rectangle with [x1 < x0] or
    [y1 < y0] is refused with [ValueError]; a text at a position that it
    cannot convert is refused too). *)
Class Platform := {
  random_source : nat -> Z;
  path_exists : str -> bool;
  truetype_loads : str -> bool;
  getbbox : font -> str -> Z * Z * Z * Z;
  refuses : image_obj -> draw_op -> option exn;
  getbbox_bound : forall f s,
    let '(l, t, r, b) := getbbox f s in
    Z.abs (r - l + 10) < 2 ^ 31 /\ Z.abs (b - t + 10) < 2 ^ 31
}.

(** Computations in a world; an exception leaves the world as it was when
    it was raised. *)
Definition M (A : Type) : Type := world -> result A * world.

#[global] Instance M_ret : MRet M := fun A a w => (Ok a, w).
#[global] Instance M_bind : MBind M := fun A B f m w =>
  match m w with
  | (Ok a, w') => f a w'
  | (Raise e, w') => (Raise e, w')
  end.

Definition lift {A} (r : result A) : M A := fun w => (r, w).

Definition image_size (image : loc) : M (Z * Z) := fun w =>
  (Ok (from_option im_size (0, 0) (images w !! image)), w).

Definition burn (op : draw_op) (im : image_obj) : image_obj :=
  Image (im_size im) (im_pixels im) (im_drawn im ++ [op]).

(** A drawing call.  Pillow refuses it, and then it raises and draws
    nothing, or it changes the image that the [ImageDraw] object was made
    for, in place. *)
Definition draw_call {platform : Platform} (draw : loc) (op : draw_op) : M unit := fun w =>
  match images w !! draw ≫= fun im => refuses im op with
  | Some e => (Raise e, w)
  | None => (Ok tt, World (alter (burn op) draw (images w)) (rng_calls w))
  end.

(** [image.copy()]: a new object with the same content. *)
Definition image_copy (image : loc) : M loc := fun w =>
  let l := fresh (dom (images w)) in
  (Ok l,
   World
     match images w !! image with
     | Some im => <[l := im]> (images w)
     | None => images w
     end
     (rng_calls w)).

Definition hex_digit (n : Z) : ascii := if n <? 10 then chr (48 + n) else chr (87 + n).

Fixpoint hex_digits (n : nat) (v : Z) (acc : str) : str :=
  match n with
  | O => acc
  | S n' => hex_digits n' (v / 16) (hex_digit (v mod 16) :: acc)
  end.

(** The format [#{:06x}]: a hash sign and the number in hexadecimal, padded
    with zeros to six digits. *)
Definition format_color (v : Z) : str :=
  "#"%char :: hex_digits (Z.to_nat (Z.max 6 (Z.log2 v / 4 + 1))) v [].

Section Program.
Context {platform : Platform}.

(** [random.randint(lo, hi)]. *)
Definition randint (lo hi : Z) : M Z := fun w =>
  (Ok (lo + random_source (rng_calls w) mod (hi - lo + 1)),
   World (images w) (S (rng_calls w))).

Definition generate_random_color : M str :=
  v ← randint 0 16777215;
  mret (format_color v).

Definition font_files : list str := [lit "NotoSansCJK-Regular.ttc"].

Fixpoint first_font (files : list str) (size : Z) : font :=
  match files with
  | font_file :: rest =>
      if path_exists font_file && truetype_loads font_file
      then TrueType font_file size
      else first_font rest size
  | [] => DefaultFont
  end.

Definition get_font (size : Z) : font := first_font font_files size.

Definition draw_text_with_outline (draw : loc) (text : str) (position : value * value)
    (f : font) (text_color outline_color : str) : M unit :=
  let '(x, y) := position in
  x1 ← lift (py_sub x (VInt 1)); y1 ← lift (py_sub y (VInt 1));
  draw_call draw (Text (x1, y1) text f outline_color);;
  x2 ← lift (py_add x (VInt 1)); y2 ← lift (py_sub y (VInt 1));
  draw_call draw (Text (x2, y2) text f outline_color);;
  x3 ← lift (py_sub x (VInt 1)); y3 ← lift (py_add y (VInt 1));
  draw_call draw (Text (x3, y3) text f outline_color);;
  x4 ← lift (py_add x (VInt 1)); y4 ← lift (py_add y (VInt 1));
  draw_call draw (Text (x4, y4) text f outline_color);;
  draw_call draw (Text position text f text_color).

(** The elements that a [for] or a [zip] takes from an object. *)
Definition iterate (v : value) : result (list value) :=
  match v with
  | VList l => Ok l
  | VStr s => Ok ((fun c => VStr [c]) <$> s)
  | VDict d => Ok ((fun kv => VStr (fst kv)) <$> d)
  | _ => Raise TypeError
  end.

(** The expression [coord / 1000 * dim]. *)
Definition pixel (coord : value) (dim : Z) : result value :=
  q ← py_truediv coord (VInt 1000);
  py_mul q (VInt dim).

(** [[coord / 1000 * dim for coord, dim in zip(bbox, [height, width, height, width])]] *)
Definition scale_box (bbox : value) (width height : Z) : result (list value) :=
  elems ← iterate bbox;
  mapM (fun cd : value * Z => pixel (fst cd) (snd cd))
       (zip elems [height; width; height; width]).

(** [bboxes.items()] *)
Definition items (v : value) : result (list (str * value)) :=
  match v with
  | VDict d => Ok d
  | _ => Raise AttributeError
  end.

(** The step that widens [xmax] and [ymax] when the box is smaller than
    the plate of its label. *)
Definition expand (lo hi : value) (size : Z) : result value :=
  d ← py_sub hi lo;
  small ← py_lt d (VInt size);
  if (small : bool) then py_add lo (VInt size) else Ok hi.

(** The plate of the label and its text: what follows the expansion step
    in the body of the loop. *)
Definition draw_label (draw : loc) (f : font) (label color : str) (xmin ymin : value)
    (label_width label_height : Z) : M unit :=
  px ← lift (py_add xmin (VInt label_width));
  py ← lift (py_add ymin (VInt label_height));
  draw_call draw (Rectangle [xmin; ymin; px; py] (Some color) None 1);;
  tx ← lift (py_add xmin (VInt 5));
  ty ← lift (py_add ymin (VInt 5));
  draw_text_with_outline draw label (tx, ty) f (lit "white") (lit "black").

Definition label_size (f : font) (label : str) : Z * Z :=
  let '(l, t, r, b) := getbbox f label in (r - l + 10, b - t + 10).

(** The body of the loop of [draw_bounding_boxes]. *)
Definition draw_box (draw : loc) (width height : Z) (f : font) (label : str) (bbox : value)
  : M unit :=
  color ← generate_random_color;
  scaled ← lift (scale_box bbox width height);
  match scaled with
  | [ymin; xmin; ymax; xmax] =>
      draw_call draw (Rectangle [xmin; ymin; xmax; ymax] None (Some color) 3);;
      let '(label_width, label_height) := label_size f label in
      xmax' ← lift (expand xmin xmax label_width);
      ymax' ← lift (expand ymin ymax label_height);
      draw_label draw f label color xmin ymin label_width label_height
  | _ => lift (Raise ValueError)
  end.

Fixpoint for_items (body : str -> value -> M unit) (l : list (str * value)) : M unit :=
  match l with
  | [] => mret tt
  | (label, bbox) :: rest => body label bbox;; for_items body rest
  end.

Definition draw_bounding_boxes (image : loc) (bboxes : value) : M loc :=
  let draw := image in
  '(width, height) ← image_size image;
  let f := get_font 20 in
  its ← lift (items bboxes);
  for_items (draw_box draw width height f) its;;
  mret image.

(** [draw_bounding_boxes] without the step that widens [xmax] and [ymax]. *)
Definition draw_box_no_expand (draw : loc) (width height : Z) (f : font) (label : str)
    (bbox : value) : M unit :=
  color ← generate_random_color;
  scaled ← lift (scale_box bbox width height);
  match scaled with
  | [ymin; xmin; ymax; xmax] =>
      draw_call draw (Rectangle [xmin; ymin; xmax; ymax] None (Some color) 3);;
      let '(label_width, label_height) := label_size f label in
      draw_label draw f label color xmin ymin label_width label_height
  | _ => lift (Raise ValueError)
  end.

Definition draw_bounding_boxes_no_expand (image : loc) (bboxes : value) : M loc :=
  let draw := image in
  '(width, height) ← image_size image;
  let f := get_font 20 in
  its ← lift (items bboxes);
  for_items (draw_box_no_expand draw width height f) its;;
  mret image.

(** Lines 149 to 151 of [main]: the reply is decoded and, when the result
    is true, drawn on a copy of the resized image. *)
Definition main_annotate (resized_image : loc) (text : str) : M (option loc) :=
  bboxes ← lift (extract_bounding_boxes text);
  if truthy bboxes then
    copy ← image_copy resized_image;
    image_with_boxes ← draw_bounding_boxes copy bboxes;
    mret (Some image_with_boxes)
  else mret None.

End Program.

(** ** Resizing *)

(** [int(x)] on a float: the integer part, towards zero. *)
Definition float_to_int (x : float) : result Z :=
  match x with
  | S754_nan => Raise ValueError
  | S754_infinity _ => Raise OverflowError
  | S754_zero _ => Ok 0
  | S754_finite s m e =>
      Ok (cond_Zopp s (if 0 <=? e then Zpos m * 2 ^ e else Zpos m / 2 ^ (- e)))
  end.

(** [resize_image], on the size of the image: the size [(width, height)]
    that it passes to [image.resize].  The call of [image.resize] itself,
    which Pillow refuses for a side of 0, is not embedded. *)
Definition resize_image (size : Z * Z) (max_size : Z) : result (Z * Z) :=
  let '(width, height) := size in
  if height <? width then
    if max_size <? width then
      q ← int_true_divide (height * max_size) width;
      height' ← float_to_int q;
      Ok (max_size, height')
    else Ok (width, height)
  else
    if max_size <? height then
      q ← int_true_divide (width * max_size) height;
      width' ← float_to_int q;
      Ok (width', max_size)
    else Ok (width, height).

(** * Vocabulary of the statements *)

(** ** Texts of the shape of the pattern *)

(** A text of ASCII characters.  On such a text the classes [\s] and [\d]
    of [re] are [is_space] and [is_digit]; on others [re] also takes the
    white space and the decimal digits of Unicode, which a list of bytes
    does not show. *)
Definition ascii_text (s : str) : bool := forallb (fun c => code c <? 128) s.

(** The parts of a text of the shape that the pattern describes: the label,
    the white space after the colon, and four runs of digits with the white
    space after each of the three commas. *)
Record entry := Entry {
  e_label : str;
  e_ws0 : str;
  e_d1 : str;
  e_ws1 : str;
  e_d2 : str;
  e_ws2 : str;
  e_d3 : str;
  e_ws3 : str;
  e_d4 : str
}.

(** The text itself: the quoted label, the colon, the bracketed runs. *)
Definition entry_text (e : entry) : str :=
  dquote :: e_label e ++ dquote :: ":"%char :: e_ws0 e ++
  "["%char :: e_d1 e ++ ","%char :: e_ws1 e ++ e_d2 e ++ ","%char :: e_ws2 e ++
  e_d3 e ++ ","%char :: e_ws3 e ++ e_d4 e ++ ["]"%char].

(** A text of at least one character. *)
Definition nonempty (s : str) : bool := negb (bool_decide (s = [])).

(** The parts are what the pattern asks for: a label of one or more
    characters other than the double quote, four runs of one or more
    digits, white space between them. *)
Definition entry_ok (e : entry) : bool :=
  nonempty (e_label e) && forallb not_quote (e_label e) &&
  forallb is_space (e_ws0 e) && forallb is_space (e_ws1 e) &&
  forallb is_space (e_ws2 e) && forallb is_space (e_ws3 e) &&
  nonempty (e_d1 e) && forallb is_digit (e_d1 e) &&
  nonempty (e_d2 e) && forallb is_digit (e_d2 e) &&
  nonempty (e_d3 e) && forallb is_digit (e_d3 e) &&
  nonempty (e_d4 e) && forallb is_digit (e_d4 e).

(** The five groups that a match of the text reports. *)
Definition entry_groups (e : entry) : list str :=
  [e_label e; e_d1 e; e_d2 e; e_d3 e; e_d4 e].

(** The head of a text is not of a class (or the text is empty). *)
Definition stops (p : ascii -> bool) (s : str) : bool :=
  match s with
  | c :: _ => negb (p c)
  | [] => true
  end.

(** The label of a match, the box of its four integers, and the item that
    the two make. *)
Definition label_of (m : list str) : str := hd [] m.

Definition box_of (m : list str) : value :=
  VList ((fun d => VInt (digits_value 0 d)) <$> tail m).

Definition pair_of (m : list str) : str * value := (label_of m, box_of m).


(** The elements of a list in the order of their first appearance. *)
Fixpoint first_occurrences (l : list str) : list str :=
  match l with
  | [] => []
  | x :: l' => x :: filter (fun y => y <> x) (first_occurrences l')
  end.

(** What follows the label and its closing quote. *)
Definition entry_tail (e : entry) : str :=
  ":"%char :: e_ws0 e ++
  "["%char :: e_d1 e ++ ","%char :: e_ws1 e ++ e_d2 e ++ ","%char :: e_ws2 e ++
  e_d3 e ++ ","%char :: e_ws3 e ++ e_d4 e ++ ["]"%char].

(** ** Answers of the JSON scanner *)

(** What a scanner may answer on a text: a value and a shorter text, or
    [JSONDecodeError]. *)
Definition answer (s : str) (r : result (value * str)) : Prop :=
  match r with
  | Ok (_, rest) => (length rest < length s)%nat
  | Raise e => e = JSONDecodeError
  end.

(** The same for a scanner that may consume nothing. *)
Definition answer_le {A} (s : str) (r : result (A * str)) : Prop :=
  match r with
  | Ok (_, rest) => (length rest <= length s)%nat
  | Raise e => e = JSONDecodeError
  end.

(** The fuel was enough, and the answer is one of the two. *)
Definition answers (s : str) (o : option (result (value * str))) : Prop :=
  exists r, o = Some r /\ answer s r.

(** ** JSON texts of labelled boxes *)

(** A character that stands for itself in a JSON string. *)
Definition plain (c : ascii) : bool :=
  not_quote c && negb (is_char "\" c) && negb (code c <? 32).

(** A run of digits that JSON reads as an integer: no leading zero. *)
Definition canonical (d : str) : bool :=
  nonempty d && forallb is_digit d &&
  match d with
  | c :: _ :: _ => negb (is_char "0" c)
  | _ => true
  end.

(** An entry of the shape of the pattern that is also a member of a JSON
    object. *)
Definition json_entry_ok (e : entry) : bool :=
  nonempty (e_label e) && forallb plain (e_label e) &&
  forallb Json.is_ws (e_ws0 e) && forallb Json.is_ws (e_ws1 e) &&
  forallb Json.is_ws (e_ws2 e) && forallb Json.is_ws (e_ws3 e) &&
  canonical (e_d1 e) && canonical (e_d2 e) && canonical (e_d3 e) && canonical (e_d4 e).

(** The members of an object and its closing brace: a comma and the white
    space [sep] between two members, the white space [trail] before the
    brace. *)
Fixpoint entries_text (sep trail : str) (es : list entry) : str :=
  match es with
  | [] => trail ++ ["}"%char]
  | e :: es' =>
      entry_text e ++
      match es' with
      | [] => trail ++ ["}"%char]
      | _ :: _ => ","%char :: sep ++ entries_text sep trail es'
      end
  end.

(** The text of an object whose members are the entries [es]. *)
Definition object_text (lead sep trail : str) (es : list entry) : str :=
  "{"%char :: lead ++ entries_text sep trail es.

(** The mapping that the entries denote. *)
Definition entries_dict (es : list entry) : dict :=
  dict_of_pairs ((fun e => pair_of (entry_groups e)) <$> es).

(** What may follow a number inside an array. *)
Definition closes (c : ascii) : bool := is_char "," c || is_char "]" c.

(** ** JSON texts of mappings from labels to lists of numbers *)




























(** ** Worlds, floats and drawing commands *)

(** A float plus, or minus, an [int]. *)
Definition fadd (x : float) (n : Z) : float := SFadd prec emax x (float_of_Z n).

Definition fsub (x : float) (n : Z) : float := SFsub prec emax x (float_of_Z n).

(** An image with the commands [ops] burnt into it, in order. *)
Definition burn_all (ops : list draw_op) (im : image_obj) : image_obj :=
  Image (im_size im) (im_pixels im) (im_drawn im ++ ops).

(** The world in which the image at [draw] has received the commands
    [ops]. *)
Definition paint (draw : loc) (ops : list draw_op) (w : world) : world :=
  World (alter (burn_all ops) draw (images w)) (rng_calls w).

(** The world after [n] more calls to the random number generator. *)
Definition advance (n : nat) (w : world) : world :=
  World (images w) (rng_calls w + n).

(** The integer that a float is, when it is one. *)
Definition float_integer (x : float) : option Z :=
  match x with
  | S754_zero _ => Some 0
  | S754_finite s m e =>
      if 0 <=? e then Some (cond_Zopp s (Zpos m * 2 ^ e))
      else if Zpos m mod 2 ^ (- e) =? 0 then Some (cond_Zopp s (Zpos m / 2 ^ (- e)))
      else None
  | _ => None
  end.

(** A value that is a [float]. *)
Definition is_vfloat (v : value) : bool :=
  match v with
  | VFloat _ => true
  | _ => false
  end.

(** The plate of a label and its text. *)
Definition label_ops (f : font) (label color : str) (xmin ymin : float) (lw lh : Z)
  : list draw_op :=
  let x := fadd xmin 5 in
  let y := fadd ymin 5 in
  [Rectangle [VFloat xmin; VFloat ymin; VFloat (fadd xmin lw); VFloat (fadd ymin lh)]
     (Some color) None 1;
   Text (VFloat (fsub x 1), VFloat (fsub y 1)) label f (lit "black");
   Text (VFloat (fadd x 1), VFloat (fsub y 1)) label f (lit "black");
   Text (VFloat (fsub x 1), VFloat (fadd y 1)) label f (lit "black");
   Text (VFloat (fadd x 1), VFloat (fadd y 1)) label f (lit "black");
   Text (VFloat x, VFloat y) label f (lit "white")].

(** The calls that are made for one box. *)
Definition box_ops (f : font) (label color : str) (ymin xmin ymax xmax : float) (lw lh : Z)
  : list draw_op :=
  Rectangle [VFloat xmin; VFloat ymin; VFloat xmax; VFloat ymax] None (Some color) 3
  :: label_ops f label color xmin ymin lw lh.

(** ** Boxes that can be scaled *)

(** A coordinate that the scaling accepts: a float, or an integer whose
    quotient by 1000 is within the range of the floats. *)
Definition coordinate_ok (c : value) : bool :=
  match c with
  | VFloat _ => true
  | VInt n => Z.abs n <? 1000 * dbl_overflow
  | _ => false
  end.

(** A box of four such coordinates. *)
Definition box_ok (bbox : value) : bool :=
  match bbox with
  | VList [c0; c1; c2; c3] =>
      coordinate_ok c0 && coordinate_ok c1 && coordinate_ok c2 && coordinate_ok c3
  | _ => false
  end.

(** A number: an [int] or a [float]. *)
Definition numeric (c : value) : bool :=
  match c with
  | VInt _ | VFloat _ => true
  | _ => false
  end.

(** LabelledBoxes: a mapping from labels to boxes of four numbers. *)
Definition labelled_boxes (v : value) : bool :=
  match v with
  | VDict d =>
      forallb (fun kv => match snd kv with
                         | VList [c0; c1; c2; c3] =>
                             numeric c0 && numeric c1 && numeric c2 && numeric c3
                         | _ => false
                         end) d
  | _ => false
  end.

(** The size of the image at a location. *)
Definition size_of (image : loc) (w : world) : Z * Z :=
  from_option im_size (0, 0) (images w !! image).

(** ** Frames *)

(** [m] changes no image other than the one at [l]. *)
Definition touches_only {A} (l : loc) (m : M A) : Prop :=
  forall w r w', m w = (r, w') ->
  forall l', l' <> l -> images w' !! l' = images w !! l'.

(** ** A platform, a world and texts to run the program on *)

(** Metrics of a font whose characters are 6 wide and 11 high. *)
Definition sample_metrics (f : font) (s : str) : Z * Z * Z * Z :=
  (0, 0, Z.min (6 * Z.of_nat (length s)) 600, 11).

(** A number that is less than another, when both are numbers. *)
Definition is_less (a b : value) : bool :=
  match py_lt a b with
  | Ok true => true
  | _ => false
  end.

(** The exception of a coordinate that cannot be taken as that of a
    position: a number has to be finite and below [2 ^ 63] in magnitude. *)
Definition position_refusal (v : value) : option exn :=
  match as_num v with
  | Some (NInt n) =>
      if (- 2 ^ 63 <=? n) && (n <? 2 ^ 63) then None else Some OverflowError
  | Some (NFloat S754_nan) => Some ValueError
  | Some (NFloat x) =>
      if float_lt_int x (2 ^ 63) && int_lt_float (- 2 ^ 63 - 1) x then None
      else Some OverflowError
  | None => Some TypeError
  end.

(** Calls refused in the manner of Pillow 9.5 and later: a rectangle whose
    second corner is to the left of or above the first one, with
    [ValueError], and a text at a position that cannot be taken. *)
Definition sample_refuses (im : image_obj) (op : draw_op) : option exn :=
  match op with
  | Rectangle [x0; y0; x1; y1] _ _ _ =>
      if is_less x1 x0 || is_less y1 y0 then Some ValueError else None
  | Rectangle _ _ _ _ => Some ValueError
  | Text (x, y) _ _ _ =>
      match position_refusal x with
      | Some e => Some e
      | None => position_refusal y
      end
  end.

(** No font file on disk; the generator counts up from 255; calls are
    refused as by [sample_refuses]. *)
Definition sample_platform : Platform :=
  {| random_source := fun n => 255 + Z.of_nat n;
     path_exists := fun _ => false;
     truetype_loads := fun _ => false;
     getbbox := sample_metrics;
     refuses := sample_refuses;
     getbbox_bound :=
       ltac:(intros f s; unfold sample_metrics; split; lia) |}.

(** One image of 400 by 800 at location 0, nothing drawn on it. *)
Definition sample_world : world :=
  World {[ 0%nat := Image (400, 800) [1; 2; 3] [] ]} 0.



(** A reply with prose around two entries, and the text of an object with
    its two members taken apart. *)
Definition sample_reply : str :=
  py "Here are the results: 'dog': [0, 0, 500, 500] and 'cat': [500, 500, 1000, 1000]".

Definition sample_object : str :=
  py "{ 'cat': [100, 200, 300, 400], 'dog': [0, 0, 500, 500] }".

Definition cat_entry : entry :=
  Entry (lit "cat") (lit " ") (lit "100") (lit " ") (lit "200") (lit " ") (lit "300")
    (lit " ") (lit "400").

Definition dog_entry : entry :=
  Entry (lit "dog") (lit " ") (lit "0") (lit " ") (lit "0") (lit " ") (lit "500")
    (lit " ") (lit "500").



(** An inverted box that also lies outside the range. *)
Definition inverted_boxes : dict :=
  [(lit "a", VList [VInt 900; VInt 1200; VInt 100; VInt (-5)])].

(** A box that lies outside the range and is not inverted. *)
Definition outside_boxes : dict :=
  [(lit "a", VList [VInt (-5); VInt 100; VInt 1200; VInt 900])].

(** The text of an object with a coordinate of 401 digits: 1 and 400
    zeros. *)
Definition huge_reply : str :=
  py "{'a': [1" ++ repeat "0"%char 400 ++ py ", 0, 0, 0]}".


Section PlatformVocabulary.
Context {platform : Platform}.

(** The exception, if any, with which Pillow refuses a call on the image
    at a location as it is in a world. *)
Definition refused_at (draw : loc) (w : world) (op : draw_op) : option exn :=
  images w !! draw ≫= fun im => refuses im op.

(** Pillow takes every call of a list when they are made in order on an
    image. *)
Fixpoint accepted (im : image_obj) (ops : list draw_op) : bool :=
  match ops with
  | [] => true
  | op :: rest =>
      match refuses im op with
      | None => accepted (burn op im) rest
      | Some _ => false
      end
  end.

(** The same for the image at a location. *)
Definition accepted_at (draw : loc) (w : world) (ops : list draw_op) : bool :=
  match images w !! draw with
  | Some im => accepted im ops
  | None => true
  end.

(** The calls of a list made in order on the image at [draw]: a call is
    drawn unless Pillow refuses it on the image as it then is; the first
    call that it refuses raises its exception and ends the run, with the
    calls before it drawn. *)
Fixpoint perform (draw : loc) (ops : list draw_op) : M unit := fun w =>
  match ops with
  | [] => (Ok tt, w)
  | op :: rest =>
      match refused_at draw w op with
      | Some e => (Raise e, w)
      | None => perform draw rest (paint draw [op] w)
      end
  end.

(** What [draw_bounding_boxes] returns after its loop. *)
Definition returning (image : loc) (r : result unit * world) : result loc * world :=
  match r with
  | (Ok _, w) => (Ok image, w)
  | (Raise e, w) => (Raise e, w)
  end.

(** The colour of the box that is begun after [n] calls to the generator. *)
Definition color_at (n : nat) : str := format_color (0 + random_source n mod (16777215 - 0 + 1)).

(** The calls that are made for the items [d] when none is refused, the
    first item after [n] calls to the generator: for each box its outline
    at the scaled coordinates, as they result, then its plate and its
    text. *)
Fixpoint boxes_ops (width height : Z) (f : font) (n : nat) (d : list (str * value))
  : list draw_op :=
  match d with
  | [] => []
  | (label, bbox) :: rest =>
      match scale_box bbox width height with
      | Ok [VFloat ymin; VFloat xmin; VFloat ymax; VFloat xmax] =>
          box_ops f label (color_at n) ymin xmin ymax xmax
            (fst (label_size f label)) (snd (label_size f label))
      | _ => []
      end ++ boxes_ops width height f (S n) rest
  end.

End PlatformVocabulary.

(** ** Colours, boxes that can be scaled, additions to an image, replies *)

(** A digit of a number written in hexadecimal with small letters. *)
Definition is_lower_hex (c : ascii) : bool :=
  is_digit c || ((97 <=? code c) && (code c <=? 102)).

(** A coordinate that the scaling accepts: a float, or an [int] or a [bool]
    whose quotient by 1000 is within the range of the floats. *)
Definition scalable (c : value) : bool :=
  match as_num c with
  | Some (NInt n) => Z.abs n <? 1000 * dbl_overflow
  | Some (NFloat _) => true
  | None => false
  end.

(** A box that the loop can scale and unpack: a list whose first four
    elements can be scaled. *)
Definition drawable (bbox : value) : bool :=
  match bbox with
  | VList (c0 :: c1 :: c2 :: c3 :: _) =>
      scalable c0 && scalable c1 && scalable c2 && scalable c3
  | _ => false
  end.

(** The exception that the loop raises on a box. *)
Definition box_exception (bbox : value) (width height : Z) : exn :=
  match scale_box bbox width height with
  | Raise e => e
  | Ok _ => ValueError
  end.

(** An item with its box cut to its first four elements. *)
Definition first_four (kv : str * value) : str * value :=
  match snd kv with
  | VList l => (fst kv, VList (take 4 l))
  | _ => kv
  end.

(** The commands that the loop issues: an outline of width 3, a filled
    plate, a text in black or white in the font [f]. *)
Definition styled (f : font) (op : draw_op) : Prop :=
  match op with
  | Rectangle xy fill outline width =>
      length xy = 4%nat /\
      ((fill = None /\ is_Some outline /\ width = 3) \/
       (is_Some fill /\ outline = None /\ width = 1))
  | Text _ _ f' fill => f' = f /\ (fill = lit "black" \/ fill = lit "white")
  end.

(** [m] does nothing to the world but draw commands of a kind on the image
    at [draw] and take numbers from the generator. *)
Definition appends_to {A} (draw : loc) (P : draw_op -> Prop) (m : M A) : Prop :=
  forall w, exists ops n, snd (m w) = paint draw ops (advance n w) /\ Forall P ops.

(** The five texts of [draw_text_with_outline]. *)
Definition outlined_text (text : str) (f : font) (text_color outline_color : str)
    (x y xm xp ym yp : value) : list draw_op :=
  [Text (xm, ym) text f outline_color;
   Text (xp, ym) text f outline_color;
   Text (xm, yp) text f outline_color;
   Text (xp, yp) text f outline_color;
   Text (x, y) text f text_color].

(** A run of at most 311 digits: an integer below [10 ^ 311]. *)
Definition short_run (d : str) : bool := bool_decide (length d <= 311)%nat.

(** An item as the scan of the pattern yields it: a label of at least one
    character, none a double quote, and a box of four integers, none
    negative. *)
Definition fallback_item (kv : str * value) : Prop :=
  nonempty (fst kv) = true /\ forallb not_quote (fst kv) = true /\
  exists n1 n2 n3 n4,
    snd kv = VList [VInt n1; VInt n2; VInt n3; VInt n4] /\
    0 <= n1 /\ 0 <= n2 /\ 0 <= n3 /\ 0 <= n4.

(** The pattern scan and the comprehension alone: what
    [extract_bounding_boxes] does when [json.loads] raises. *)
Definition fallback (text : str) : result value :=
  VDict <$> comprehension (Re.findall pattern text) [].

(** Entries in prose: each entry after a stretch of text, and a last
    stretch after them. *)
Fixpoint prose_text (parts : list (str * entry)) (post : str) : str :=
  match parts with
  | [] => post
  | (pre, e) :: rest => pre ++ entry_text e ++ prose_text rest post
  end.

(** * Properties *)

(** ** The matcher *)

Section MatcherLemmas.
Context {R : Type}.
Implicit Types (k : str -> list str -> option R) (r : R).

Lemma is_char_eq a c : is_char a c = true <-> a = c.
Proof. unfold is_char. apply Ascii.eqb_eq. Qed.

Lemma star_run p (k1 : str -> option R) ws rest r :
  forallb p ws = true -> stops p rest = true -> k1 rest = Some r ->
  Re.star p k1 (ws ++ rest) = Some r.
Proof.
  intros Hws Hstop Hk. induction ws as [|c ws IH]; simpl in *.
  - destruct rest as [|c rest]; simpl in *; [exact Hk|].
    destruct (p c); [discriminate|exact Hk].
  - apply andb_prop in Hws as [Hc Hws]. rewrite Hc, (IH Hws). reflexivity.
Qed.

Lemma star_inv p (k1 : str -> option R) s r :
  Re.star p k1 s = Some r ->
  exists ws rest, s = ws ++ rest /\ forallb p ws = true /\ k1 rest = Some r.
Proof.
  induction s as [|c s IH]; simpl; intros H.
  - exists [], []. auto.
  - destruct (p c) eqn:Hc.
    + destruct (Re.star p k1 s) as [r'|] eqn:Hs.
      * injection H as ->. destruct (IH eq_refl) as (ws & rest & -> & Hws & Hk).
        exists (c :: ws), rest. simpl. rewrite Hc, Hws. auto.
      * exists [], (c :: s). auto.
    + exists [], (c :: s). auto.
Qed.

Lemma seq_cons a rs : Re.seq (a :: rs) = Re.Cat a (Re.seq rs).
Proof. reflexivity. Qed.

Lemma run_cat (r1 r2 : Re.regex) s caps k :
  Re.run (Re.Cat r1 r2) s caps k = Re.run r1 s caps (fun s' caps' => Re.run r2 s' caps' k).
Proof. reflexivity. Qed.

Lemma run_chr a s caps k : Re.run (Re.Chr a) (a :: s) caps k = k s caps.
Proof. simpl. unfold is_char. rewrite Ascii.eqb_refl. reflexivity. Qed.

Lemma run_chr_inv a s caps k r :
  Re.run (Re.Chr a) s caps k = Some r -> exists s', s = a :: s' /\ k s' caps = Some r.
Proof.
  destruct s as [|c s]; simpl; [discriminate|].
  destruct (is_char a c) eqn:E; [|discriminate].
  apply is_char_eq in E as ->. eauto.
Qed.

Lemma run_star p ws rest caps k r :
  forallb p ws = true -> stops p rest = true -> k rest caps = Some r ->
  Re.run (Re.Star p) (ws ++ rest) caps k = Some r.
Proof. intros. simpl. now apply star_run. Qed.

Lemma run_star_inv p s caps k r :
  Re.run (Re.Star p) s caps k = Some r ->
  exists ws rest, s = ws ++ rest /\ forallb p ws = true /\ k rest caps = Some r.
Proof. simpl. apply star_inv. Qed.

Lemma take_run (g rest : str) : take (length (g ++ rest) - length rest) (g ++ rest) = g.
Proof.
  rewrite length_app. replace (length g + length rest - length rest)%nat with (length g) by lia.
  apply take_app_length.
Qed.

Lemma run_group_plus p g rest caps k r :
  nonempty g = true -> forallb p g = true -> stops p rest = true ->
  k rest (caps ++ [g]) = Some r ->
  Re.run (Re.Group (Re.Plus p)) (g ++ rest) caps k = Some r.
Proof.
  intros Hne Hg Hstop Hk. destruct g as [|c g]; [discriminate|].
  simpl in Hg. apply andb_prop in Hg as [Hc Hg].
  cbn [Re.run app]. rewrite Hc. apply star_run; [exact Hg|exact Hstop|].
  change (c :: g ++ rest) with ((c :: g) ++ rest). rewrite take_run. exact Hk.
Qed.

Lemma run_group_plus_inv p s caps k r :
  Re.run (Re.Group (Re.Plus p)) s caps k = Some r ->
  exists g rest, s = g ++ rest /\ nonempty g = true /\ forallb p g = true /\
                 k rest (caps ++ [g]) = Some r.
Proof.
  cbn [Re.run]. destruct s as [|c s]; [discriminate|].
  destruct (p c) eqn:Hc; [|discriminate]. intros H.
  apply star_inv in H as (ws & rest & -> & Hws & Hk).
  exists (c :: ws), rest. change (c :: ws ++ rest) with ((c :: ws) ++ rest) in Hk.
  rewrite take_run in Hk. simpl. rewrite Hc, Hws. auto.
Qed.

End MatcherLemmas.

Lemma digit_not_space c : is_digit c = true -> is_space c = false.
Proof.
  unfold is_digit, is_space. intros H. apply andb_prop in H as [H1 H2].
  apply Z.leb_le in H1, H2.
  apply orb_false_iff. split; apply andb_false_iff.
  - right. apply Z.leb_gt. lia.
  - right. apply Z.leb_gt. lia.
Qed.

Lemma stops_space_digits d x :
  nonempty d = true -> forallb is_digit d = true -> stops is_space (d ++ x) = true.
Proof.
  destruct d as [|c d]; [discriminate|]. simpl. intros _ H.
  apply andb_prop in H as [H _]. now rewrite (digit_not_space _ H).
Qed.

Ltac split_ok H :=
  repeat match type of H with
         | (_ && _) = true => let H' := fresh "Hok" in apply andb_prop in H as [H H']
         end.

(** Every text of the shape is matched, whole, with its five groups. *)
Lemma match_here_entry e rest :
  entry_ok e = true ->
  Re.match_here pattern (entry_text e ++ rest) = Some (entry_groups e, rest).
Proof.
  destruct e as [label ws0 d1 ws1 d2 ws2 d3 ws3 d4].
  unfold entry_ok, entry_text, entry_groups; cbn [e_label e_ws0 e_d1 e_ws1 e_d2 e_ws2 e_d3 e_ws3 e_d4].
  intros H. split_ok H.
  unfold Re.match_here, pattern.
  repeat (rewrite <- ?app_assoc, <- ?app_comm_cons). cbn [app].
  rewrite seq_cons, run_cat, run_chr.
  rewrite seq_cons, run_cat. apply run_group_plus; [assumption..|reflexivity|].
  rewrite seq_cons, run_cat, run_chr.
  rewrite seq_cons, run_cat, run_chr.
  rewrite seq_cons, run_cat. apply run_star; [assumption|reflexivity|].
  rewrite seq_cons, run_cat, run_chr.
  rewrite seq_cons, run_cat. apply run_group_plus; [assumption..|reflexivity|].
  rewrite seq_cons, run_cat, run_chr.
  rewrite seq_cons, run_cat. apply run_star; [assumption|now apply stops_space_digits|].
  rewrite seq_cons, run_cat. apply run_group_plus; [assumption..|reflexivity|].
  rewrite seq_cons, run_cat, run_chr.
  rewrite seq_cons, run_cat. apply run_star; [assumption|now apply stops_space_digits|].
  rewrite seq_cons, run_cat. apply run_group_plus; [assumption..|reflexivity|].
  rewrite seq_cons, run_cat, run_chr.
  rewrite seq_cons, run_cat. apply run_star; [assumption|now apply stops_space_digits|].
  rewrite seq_cons, run_cat. apply run_group_plus; [assumption..|reflexivity|].
  rewrite seq_cons, run_cat, run_chr.
  reflexivity.
Qed.

(** Nothing else is matched. *)
Lemma match_here_inv s caps rest :
  Re.match_here pattern s = Some (caps, rest) ->
  exists e, entry_ok e = true /\ s = entry_text e ++ rest /\ caps = entry_groups e.
Proof.
  unfold Re.match_here, pattern. intros H.
  rewrite seq_cons, run_cat in H. apply run_chr_inv in H as (s1 & -> & H).
  rewrite seq_cons, run_cat in H.
  apply run_group_plus_inv in H as (label & s2 & -> & Hl1 & Hl2 & H).
  rewrite seq_cons, run_cat in H. apply run_chr_inv in H as (s3 & -> & H).
  rewrite seq_cons, run_cat in H. apply run_chr_inv in H as (s4 & -> & H).
  rewrite seq_cons, run_cat in H. apply run_star_inv in H as (ws0 & s5 & -> & Hw0 & H).
  rewrite seq_cons, run_cat in H. apply run_chr_inv in H as (s6 & -> & H).
  rewrite seq_cons, run_cat in H.
  apply run_group_plus_inv in H as (d1 & s7 & -> & Hd1 & Hd1' & H).
  rewrite seq_cons, run_cat in H. apply run_chr_inv in H as (s8 & -> & H).
  rewrite seq_cons, run_cat in H. apply run_star_inv in H as (ws1 & s9 & -> & Hw1 & H).
  rewrite seq_cons, run_cat in H.
  apply run_group_plus_inv in H as (d2 & s10 & -> & Hd2 & Hd2' & H).
  rewrite seq_cons, run_cat in H. apply run_chr_inv in H as (s11 & -> & H).
  rewrite seq_cons, run_cat in H. apply run_star_inv in H as (ws2 & s12 & -> & Hw2 & H).
  rewrite seq_cons, run_cat in H.
  apply run_group_plus_inv in H as (d3 & s13 & -> & Hd3 & Hd3' & H).
  rewrite seq_cons, run_cat in H. apply run_chr_inv in H as (s14 & -> & H).
  rewrite seq_cons, run_cat in H. apply run_star_inv in H as (ws3 & s15 & -> & Hw3 & H).
  rewrite seq_cons, run_cat in H.
  apply run_group_plus_inv in H as (d4 & s16 & -> & Hd4 & Hd4' & H).
  rewrite seq_cons, run_cat in H. apply run_chr_inv in H as (s17 & -> & H).
  cbn in H. injection H as <- <-.
  exists (Entry label ws0 d1 ws1 d2 ws2 d3 ws3 d4).
  unfold entry_ok, entry_text, entry_groups; cbn [e_label e_ws0 e_d1 e_ws1 e_d2 e_ws2 e_d3 e_ws3 e_d4].
  rewrite Hl1, Hl2, Hw0, Hw1, Hw2, Hw3, Hd1, Hd1', Hd2, Hd2', Hd3, Hd3', Hd4, Hd4'.
  split; [reflexivity|]. split; [|reflexivity].
  repeat (rewrite <- ?app_assoc, <- ?app_comm_cons). cbn [app]. reflexivity.
Qed.

(** ** [findall] *)

Lemma scan_skip r (x rest : str) : Re.scan r (length x) (x ++ rest) = Re.scan r 0 rest.
Proof. induction x as [|c x IH]; [reflexivity|]. simpl. exact IH. Qed.

Lemma entry_text_cons e : exists tl, entry_text e = dquote :: tl.
Proof. unfold entry_text. eauto. Qed.

(** The scan, one match at a time. *)
Lemma findall_step s :
  Re.findall pattern s =
  match Re.match_here pattern s with
  | Some (caps, rest) => caps :: Re.findall pattern rest
  | None =>
      match s with
      | _ :: s' => Re.findall pattern s'
      | [] => []
      end
  end.
Proof.
  unfold Re.findall. destruct s as [|c s].
  - cbn [Re.scan]. destruct (Re.match_here pattern []) as [[caps rest]|] eqn:E; [|reflexivity].
    apply match_here_inv in E as (e & _ & E & _).
    destruct (entry_text_cons e) as [tl Htl]. rewrite Htl in E. discriminate.
  - cbn [Re.scan]. destruct (Re.match_here pattern (c :: s)) as [[caps rest]|] eqn:E; [|reflexivity].
    f_equal. apply match_here_inv in E as (e & _ & E & _).
    destruct (entry_text_cons e) as [tl Htl]. rewrite Htl in E.
    injection E as -> ->.
    replace (length (dquote :: tl ++ rest) - length rest - 1)%nat with (length tl)
      by (cbn [length]; rewrite length_app; lia).
    apply scan_skip.
Qed.

Lemma match_here_shorter s caps rest :
  Re.match_here pattern s = Some (caps, rest) -> (length rest < length s)%nat.
Proof.
  intros E. apply match_here_inv in E as (e & _ & -> & _).
  destruct (entry_text_cons e) as [tl ->]. cbn [length app]. rewrite length_app. lia.
Qed.

Lemma match_here_not_quote c s : not_quote c = true -> Re.match_here pattern (c :: s) = None.
Proof.
  unfold not_quote. intros H. apply negb_true_iff in H.
  unfold Re.match_here, pattern. rewrite seq_cons, run_cat. cbn [Re.run]. now rewrite H.
Qed.

(** Text without a quote holds no match and hides none. *)
Lemma findall_skip pre s :
  forallb not_quote pre = true -> Re.findall pattern (pre ++ s) = Re.findall pattern s.
Proof.
  induction pre as [|c pre IH]; [reflexivity|]. cbn [forallb app]. intros H.
  apply andb_prop in H as [Hc Hpre].
  rewrite findall_step, (match_here_not_quote _ _ Hc). auto.
Qed.

Lemma findall_entry pre e post :
  forallb not_quote pre = true -> entry_ok e = true ->
  Re.findall pattern (pre ++ entry_text e ++ post) =
  entry_groups e :: Re.findall pattern post.
Proof.
  intros Hpre He. rewrite (findall_skip _ _ Hpre), findall_step.
  now rewrite (match_here_entry _ _ He).
Qed.

(** Every match that the scan reports has the shape. *)
Lemma findall_entries s :
  Forall (fun m => exists e, entry_ok e = true /\ m = entry_groups e) (Re.findall pattern s).
Proof.
  remember (length s) as n eqn:Hn. revert s Hn.
  induction n as [n IH] using lt_wf_ind. intros s ->.
  rewrite findall_step. destruct (Re.match_here pattern s) as [[caps rest]|] eqn:E.
  - constructor.
    + apply match_here_inv in E as (e & He & _ & ->). eauto.
    + apply (IH (length rest)); [|reflexivity]. eapply match_here_shorter, E.
  - destruct s as [|c s]; [constructor|]. apply (IH (length s)); [cbn; lia|reflexivity].
Qed.

(** ** The comprehension *)

Lemma span_stop p (s : str) : stops p s = true -> span p s = ([], s).
Proof. destruct s as [|c s]; [reflexivity|]. simpl. now destruct (p c). Qed.

Lemma last_digit (d : str) :
  nonempty d = true -> forallb is_digit d = true -> stops is_space (rev d) = true.
Proof.
  intros Hne Hd. destruct (rev d) as [|c r] eqn:E.
  - reflexivity.
  - simpl. assert (Hin : In c d) by (apply in_rev; rewrite E; now left).
    rewrite forallb_forall in Hd. now rewrite (digit_not_space _ (Hd _ Hin)).
Qed.

Lemma strip_digits d :
  nonempty d = true -> forallb is_digit d = true -> strip d = d.
Proof.
  intros Hne Hd. unfold strip.
  rewrite (span_stop is_space d).
  - cbn [snd]. rewrite (span_stop _ _ (last_digit _ Hne Hd)). cbn [snd]. apply rev_involutive.
  - rewrite <- (app_nil_r d). now apply stops_space_digits.
Qed.

Lemma digits_ok_digits b d :
  forallb is_digit d = true -> digits_ok b d = (b || nonempty d).
Proof.
  revert b. induction d as [|c d IH]; intros b H.
  - simpl. now rewrite orb_false_r.
  - simpl in *. apply andb_prop in H as [Hc Hd]. rewrite Hc, (IH _ Hd). simpl.
    now rewrite orb_true_r.
Qed.

Lemma filter_digits (d : str) :
  forallb is_digit d = true -> filter (fun c => Is_true (is_digit c)) d = d.
Proof.
  induction d as [|c d IH]; [reflexivity|]. intros H. cbn [forallb] in H.
  apply andb_prop in H as [Hc Hd]. rewrite filter_cons_True, (IH Hd); [reflexivity|].
  now rewrite Hc.
Qed.

(** [int] on a run of digits is its decimal value. *)
Lemma int_of_str_digits d :
  nonempty d = true -> forallb is_digit d = true -> int_of_str d = Ok (digits_value 0 d).
Proof.
  intros Hne Hd. unfold int_of_str. rewrite (strip_digits _ Hne Hd).
  destruct d as [|c d]; [discriminate|].
  assert (Hc : is_digit c = true) by (simpl in Hd; now apply andb_prop in Hd as [? _]).
  assert (Hm : is_char "-" c = false).
  { destruct (is_char "-" c) eqn:E; [|reflexivity]. apply is_char_eq in E as <-. discriminate. }
  assert (Hp : is_char "+" c = false).
  { destruct (is_char "+" c) eqn:E; [|reflexivity]. apply is_char_eq in E as <-. discriminate. }
  rewrite Hm, Hp, (digits_ok_digits _ _ Hd), (filter_digits _ Hd). reflexivity.
Qed.

Lemma comprehension_entries ms d0 :
  Forall (fun m => exists e, entry_ok e = true /\ m = entry_groups e) ms ->
  comprehension ms d0 =
  Ok (fold_left (fun d kv => dict_set (fst kv) (snd kv) d) (pair_of <$> ms) d0).
Proof.
  intros H. revert d0. induction H as [|m ms (e & He & ->) _ IH]; intros d0; [reflexivity|].
  cbn [comprehension entry_groups fmap list_fmap].
  unfold entry_ok in He. split_ok He.
  cbn [mapM].
  rewrite !int_of_str_digits by assumption.
  cbn. apply IH.
Qed.

Lemma extract_fallback text :
  Json.loads text = Raise JSONDecodeError ->
  extract_bounding_boxes text =
  Ok (VDict (dict_of_pairs (pair_of <$> Re.findall pattern text))).
Proof.
  intros H. unfold extract_bounding_boxes. rewrite H. cbn zeta.
  rewrite (comprehension_entries _ _ (findall_entries text)). reflexivity.
Qed.

(** ** Dictionaries *)


Lemma keys_dict_set k v d :
  keys (dict_set k v d) = if bool_decide (k ∈ keys d) then keys d else keys d ++ [k].
Proof.
  induction d as [|[k' v'] d IH]; [reflexivity|].
  cbn [dict_set]. unfold str_eqb. destruct (decide (k = k')) as [<-|E].
  - rewrite (bool_decide_true (k = k)) by reflexivity.
    unfold keys. cbn [map fst]. rewrite bool_decide_true; [reflexivity|]. left.
  - rewrite (bool_decide_false (k = k')) by exact E.
    unfold keys in *. cbn [map fst]. rewrite IH.
    destruct (decide (k ∈ map fst d)) as [Hin|Hin].
    + rewrite (bool_decide_true (k ∈ map fst d)) by exact Hin.
      rewrite (bool_decide_true (k ∈ k' :: map fst d)); [reflexivity|now right].
    + rewrite (bool_decide_false (k ∈ map fst d)) by exact Hin.
      rewrite (bool_decide_false (k ∈ k' :: map fst d)); [reflexivity|].
      intros Hc. apply elem_of_cons in Hc as [Hc|Hc]; [congruence|]. now apply Hin.
Qed.





Lemma keys_fold l d :
  keys (fold_left (fun d kv => dict_set (fst kv) (snd kv) d) l d) =
  keys d ++ filter (fun y => y ∉ keys d) (first_occurrences (fst <$> l)).
Proof.
  revert d. induction l as [|[k v] l IH]; intros d.
  - cbn. now rewrite app_nil_r.
  - cbn [fold_left fst snd fmap list_fmap first_occurrences]. rewrite IH, keys_dict_set.
    case_bool_decide as Hin.
    + rewrite filter_cons_False by tauto. f_equal.
      rewrite list_filter_filter. apply list_filter_iff. intros y. split; [|tauto].
      intros Hy. split; [exact Hy|]. intros ->. tauto.
    + rewrite filter_cons_True by exact Hin. rewrite <- app_assoc. cbn [app]. do 2 f_equal.
      rewrite list_filter_filter. apply list_filter_iff. intros y.
      rewrite elem_of_app, list_elem_of_singleton. tauto.
Qed.

(** The keys of a dict made from pairs: in the order of first appearance. *)
Lemma keys_dict_of_pairs l : keys (dict_of_pairs l) = first_occurrences (fst <$> l).
Proof.
  unfold dict_of_pairs. rewrite keys_fold. cbn [keys map app].
  induction (first_occurrences (fst <$> l)) as [|x xs IH]; [reflexivity|].
  rewrite filter_cons_True by apply not_elem_of_nil. now f_equal.
Qed.



Lemma dict_set_elem kv k v (d : dict) : kv ∈ dict_set k v d -> kv = (k, v) \/ kv ∈ d.
Proof.
  induction d as [|[k' v'] d IH]; cbn [dict_set].
  - intros H. apply list_elem_of_singleton in H. auto.
  - destruct (str_eqb k k').
    + intros H. apply elem_of_cons in H as [->|H]; [auto|]. right. now right.
    + intros H. apply elem_of_cons in H as [->|H]; [right; left|].
      destruct (IH H) as [->|H']; [auto|]. right. now right.
Qed.

Lemma dict_of_pairs_elem kv (l : list (str * value)) : kv ∈ dict_of_pairs l -> kv ∈ l.
Proof.
  unfold dict_of_pairs.
  assert (G : forall d0, kv ∈ fold_left (fun d kv => dict_set (fst kv) (snd kv) d) l d0 ->
              kv ∈ l \/ kv ∈ d0).
  { induction l as [|[k v] l IH]; intros d0 H; [auto|].
    cbn [fold_left fst snd] in H. destruct (IH _ H) as [H'|H'].
    - left. now right.
    - apply dict_set_elem in H' as [->|H']; [left; left|auto]. }
  intros H. destruct (G [] H) as [H'|H']; [exact H'|]. now apply elem_of_nil in H'.
Qed.

(** ** Matches inside a text *)


Lemma space_not_quote c : is_space c = true -> not_quote c = true.
Proof.
  unfold not_quote. intros H. destruct (is_char dquote c) eqn:E; [|reflexivity].
  apply is_char_eq in E as <-. discriminate.
Qed.


Lemma forallb_impl (p q : ascii -> bool) (l : str) :
  (forall c, p c = true -> q c = true) -> forallb p l = true -> forallb q l = true.
Proof.
  intros Hpq. rewrite !forallb_forall. auto.
Qed.

Lemma entry_text_tail e : entry_text e = dquote :: e_label e ++ dquote :: entry_tail e.
Proof. reflexivity. Qed.




Lemma entry_length e : (length (e_label e) + 3 <= length (entry_text e))%nat.
Proof.
  rewrite entry_text_tail. unfold entry_tail. cbn [length]. rewrite length_app. cbn [length]. lia.
Qed.



(** ** The scanner of [json.loads] *)

Module JsonFacts.
Import Json.

Lemma skip_ws_length s : (length (skip_ws s) <= length s)%nat.
Proof.
  induction s as [|c s IH]; [reflexivity|]. simpl. destruct (is_ws c); simpl; lia.
Qed.

Lemma span_length p (s a b : str) : span p s = (a, b) -> length s = (length a + length b)%nat.
Proof.
  revert a b. induction s as [|c s IH]; intros a b; simpl.
  - intros [= <- <-]. reflexivity.
  - destruct (p c).
    + destruct (span p s) as [a' b'] eqn:E. intros [= <- <-]. simpl. now rewrite (IH _ _ eq_refl).
    + intros [= <- <-]. reflexivity.
Qed.

Lemma strip_prefix_length p s r :
  strip_prefix p s = Some r -> length s = (length p + length r)%nat.
Proof.
  revert s. induction p as [|a p IH]; intros s; simpl.
  - intros [= ->]. reflexivity.
  - destruct s as [|c s]; [discriminate|]. destruct (is_char a c); [|discriminate].
    intros H. simpl. now rewrite (IH _ H).
Qed.

Lemma scanstring_answer s acc : answer_le s (scanstring s acc) /\
  (forall k r, scanstring s acc = Ok (k, r) -> (length r < length s)%nat).
Proof.
  assert (H : forall n s acc, length s = n ->
    match scanstring s acc with
    | Ok (_, rest) => (length rest < length s)%nat
    | Raise e => e = JSONDecodeError
    end).
  { clear. induction n as [n IH] using lt_wf_ind. intros s acc <-.
    assert (IH' : forall s' acc', (length s' < length s)%nat ->
      match scanstring s' acc' with
      | Ok (_, rest) => (length rest < length s)%nat
      | Raise e => e = JSONDecodeError
      end).
    { intros s' acc' Hlt. specialize (IH _ Hlt s' acc' eq_refl).
      destruct (scanstring s' acc') as [[k r]|e]; [lia|exact IH]. }
    clear IH.
    destruct s as [|c s1]; [reflexivity|]. cbn [scanstring].
    destruct (is_char dquote c); [cbn; lia|].
    destruct (is_char "\" c).
    - destruct s1 as [|e s2]; [reflexivity|].
      destruct (is_char "u" e).
      + destruct s2 as [|h1 [|h2 [|h3 [|h4 s3]]]]; try reflexivity.
        destruct (hex4 h1 h2 h3 h4) as [u|]; [|reflexivity].
        destruct s3 as [|b [|u' [|g1 [|g2 [|g3 [|g4 s4]]]]]];
          try (apply IH'; cbn [length]; lia).
        destruct (is_high_surrogate u && is_char "\" b && is_char "u" u');
          [|apply IH'; cbn [length]; lia].
        destruct (hex4 g1 g2 g3 g4) as [u2|]; [|reflexivity].
        destruct (is_low_surrogate u2); apply IH'; cbn [length]; lia.
      + destruct (backslash e); [|reflexivity]. apply IH'. cbn [length]. lia.
    - destruct (code c <? 32); [reflexivity|]. apply IH'. cbn [length]. lia. }
  split.
  - specialize (H _ s acc eq_refl). unfold answer_le.
    destruct (scanstring s acc) as [[k r]|e]; [lia|exact H].
  - intros k r E. specialize (H _ s acc eq_refl). now rewrite E in H.
Qed.

Lemma scan_exponent_length s z r :
  scan_exponent s = Some (z, r) -> (length r < length s)%nat.
Proof.
  unfold scan_exponent. destruct s as [|e s]; [discriminate|].
  destruct (is_char "e" e || is_char "E" e); [|discriminate].
  destruct s as [|c s']; [discriminate|].
  destruct (is_digit c).
  - destruct (span is_digit (c :: s')) as [ds rest] eqn:E. intros [= <- <-].
    apply span_length in E. cbn [length] in *. lia.
  - destruct (is_char "+" c || is_char "-" c); [|discriminate].
    destruct s' as [|d s'']; [discriminate|]. destruct (is_digit d); [|discriminate].
    destruct (span is_digit (d :: s'')) as [ds rest] eqn:E. intros [= <- <-].
    apply span_length in E. cbn [length] in *. lia.
Qed.

Lemma scan_fraction_length s fr r :
  scan_fraction s = Some (fr, r) -> (length r < length s)%nat.
Proof.
  unfold scan_fraction. destruct s as [|d s]; [discriminate|].
  destruct (is_char "." d); [|discriminate].
  destruct s as [|f s']; [discriminate|]. destruct (is_digit f); [|discriminate].
  destruct (span is_digit (f :: s')) as [a b] eqn:E. intros [= <- <-].
  apply span_length in E. cbn [length] in *. lia.
Qed.

Lemma scan_unsigned_length neg s v r :
  scan_unsigned neg s = Some (v, r) -> (length r < length s)%nat.
Proof.
  unfold scan_unsigned. destruct s as [|c r0]; [discriminate|].
  destruct (is_digit c) eqn:Hc; [|discriminate].
  assert (Hs2 : exists ipart s2,
    (if is_char "0" c then ([c], r0) else span is_digit (c :: r0)) = (ipart, s2) /\
    (length s2 < length (c :: r0))%nat).
  { destruct (is_char "0" c).
    - exists [c], r0. split; [reflexivity|cbn; lia].
    - destruct (span is_digit (c :: r0)) as [a b] eqn:E. exists a, b. split; [reflexivity|].
      pose proof (span_length _ _ _ _ E) as Hl. simpl in E. rewrite Hc in E.
      destruct (span is_digit r0). injection E as <- <-. cbn [length] in *. lia. }
  destruct Hs2 as (ipart & s2 & -> & Hl2).
  destruct (scan_fraction s2) as [[frac s3]|] eqn:Ef.
  - apply scan_fraction_length in Ef.
    destruct (scan_exponent s3) as [[ex s4]|] eqn:Ee.
    + apply scan_exponent_length in Ee. intros [= <- <-]. lia.
    + intros [= <- <-]. lia.
  - destruct (scan_exponent s2) as [[ex s4]|] eqn:Ee.
    + apply scan_exponent_length in Ee. intros [= <- <-]. lia.
    + intros [= <- <-]. lia.
Qed.

Lemma scan_number_length s v r :
  scan_number s = Some (v, r) -> (length r < length s)%nat.
Proof.
  unfold scan_number. destruct s as [|c r0]; [discriminate|].
  destruct (is_char "-" c); intros H; apply scan_unsigned_length in H; cbn [length] in *; lia.
Qed.

Lemma strip_prefix_answer p s r v :
  p <> [] -> strip_prefix p s = Some r -> answer s (Ok (v, r)).
Proof.
  intros Hp H. apply strip_prefix_length in H. cbn. destruct p; [congruence|].
  cbn [length] in H. lia.
Qed.

Lemma scan_atom_answer s : answer s (scan_atom s).
Proof.
  unfold scan_atom, scan_constant.
  repeat match goal with
         | |- answer _ (match strip_prefix ?p s with _ => _ end) =>
             destruct (strip_prefix p s) eqn:?;
             [eapply strip_prefix_answer; [|eassumption]; discriminate|]
         end.
  destruct (scan_number s) as [[v r]|] eqn:E.
  - cbn. eapply scan_number_length, E.
  - repeat match goal with
         | |- answer _ (match strip_prefix ?p s with _ => _ end) =>
             destruct (strip_prefix p s) eqn:?;
             [eapply strip_prefix_answer; [|eassumption]; discriminate|]
         end.
    reflexivity.
Qed.

(** With the fuel that [loads] gives, the scanner always answers. *)
Lemma scan_fuel f :
  (forall s, (2 * length s + 1 <= f)%nat -> answers s (scan_once f s)) /\
  (forall acc s, (2 * length s + 2 <= f)%nat -> answers s (scan_array f acc s)) /\
  (forall acc s, (2 * length s + 2 <= f)%nat -> answers s (scan_object f acc s)).
Proof.
  induction f as [|f (IHo & IHa & IHb)].
  { repeat split; intros; lia. }
  repeat split.
  - intros s Hf. destruct s as [|c s1]; cbn [scan_once].
    { eexists. split; reflexivity. }
    destruct (is_char dquote c).
    { eexists. split; [reflexivity|].
      destruct (scanstring_answer s1 []) as [_ H].
      destruct (scanstring s1 []) as [[k r]|e] eqn:E; cbn.
      - specialize (H _ _ eq_refl). lia.
      - pose proof (proj1 (scanstring_answer s1 [])) as H'. now rewrite E in H'. }
    destruct (is_char "{" c).
    { pose proof (skip_ws_length s1) as Hw.
      destruct (skip_ws s1) as [|q r]; [eexists; split; reflexivity|].
      destruct (is_char "}" q); [eexists; split; [reflexivity|cbn in *; lia]|].
      destruct (is_char dquote q); [|eexists; split; reflexivity].
      destruct (IHb [] r) as (a & -> & Ha); [cbn [length] in *; lia|].
      eexists. split; [reflexivity|].
      destruct a as [[v rest]|e]; cbn in *; [lia|exact Ha]. }
    destruct (is_char "[" c).
    { pose proof (skip_ws_length s1) as Hw.
      destruct (skip_ws s1) as [|q r]; [eexists; split; reflexivity|].
      destruct (is_char "]" q); [eexists; split; [reflexivity|cbn in *; lia]|].
      destruct (IHa [] (q :: r)) as (a & -> & Ha); [cbn [length] in *; lia|].
      eexists. split; [reflexivity|].
      destruct a as [[v rest]|e]; cbn in *; [lia|exact Ha]. }
    eexists. split; [reflexivity|apply scan_atom_answer].
  - intros acc s Hf. cbn [scan_array].
    destruct (IHo s) as (a & -> & Ha); [lia|].
    destruct a as [[v r]|e]; [|eexists; split; [reflexivity|exact Ha]].
    cbn in Ha. pose proof (skip_ws_length r) as Hw.
    destruct (skip_ws r) as [|c r']; [eexists; split; reflexivity|].
    destruct (is_char "]" c); [eexists; split; [reflexivity|cbn in *; lia]|].
    destruct (is_char "," c); [|eexists; split; reflexivity].
    pose proof (skip_ws_length r') as Hw'.
    destruct (IHa (v :: acc) (skip_ws r')) as (a & -> & Ha'); [cbn [length] in *; lia|].
    eexists. split; [reflexivity|].
    destruct a as [[v' rest]|e]; cbn in *; [lia|exact Ha'].
  - intros acc s Hf. cbn [scan_object].
    destruct (scanstring_answer s []) as [Hs1 Hs2].
    destruct (scanstring s []) as [[k r]|e] eqn:E;
      [|eexists; split; [reflexivity|exact Hs1]].
    specialize (Hs2 _ _ eq_refl). pose proof (skip_ws_length r) as Hw.
    destruct (skip_ws r) as [|c r1]; [eexists; split; reflexivity|].
    destruct (is_char ":" c); [|eexists; split; reflexivity].
    pose proof (skip_ws_length r1) as Hw1.
    destruct (IHo (skip_ws r1)) as (a & -> & Ha); [cbn [length] in *; lia|].
    destruct a as [[v r2]|e]; [|eexists; split; [reflexivity|exact Ha]].
    cbn in Ha. pose proof (skip_ws_length r2) as Hw2.
    destruct (skip_ws r2) as [|c2 r3]; [eexists; split; reflexivity|].
    destruct (is_char "}" c2); [eexists; split; [reflexivity|cbn in *; lia]|].
    destruct (is_char "," c2); [|eexists; split; reflexivity].
    pose proof (skip_ws_length r3) as Hw3.
    destruct (skip_ws r3) as [|q r4]; [eexists; split; reflexivity|].
    destruct (is_char dquote q); [|eexists; split; reflexivity].
    destruct (IHb ((k, v) :: acc) r4) as (a & -> & Ha'); [cbn [length] in *; lia|].
    eexists. split; [reflexivity|].
    destruct a as [[v' rest]|e]; cbn in *; [lia|exact Ha'].
Qed.

(** [loads] never runs out of fuel, and raises nothing but
    [JSONDecodeError]. *)
Lemma decode_with_fuel s :
  exists r, decode_with (fuel_for s) s = Some r /\
            match r with Ok _ => True | Raise e => e = JSONDecodeError end.
Proof.
  unfold decode_with, fuel_for. pose proof (skip_ws_length s) as Hw.
  destruct (proj1 (scan_fuel (2 * length s + 1)) (skip_ws s)) as (a & -> & Ha); [lia|].
  destruct a as [[v r]|e].
  - destruct (skip_ws r); eexists; (split; [reflexivity|]); cbn; auto.
  - eexists. split; [reflexivity|exact Ha].
Qed.

Lemma loads_raises s e : loads s = Raise e -> e = JSONDecodeError.
Proof.
  unfold loads. destruct (decode_with_fuel s) as (r & -> & Hr). intros ->. exact Hr.
Qed.

End JsonFacts.

(** ** The text of an object of labelled boxes *)

Module JsonTexts.
Import Json.

Lemma skip_ws_stop s : stops is_ws s = true -> skip_ws s = s.
Proof. destruct s as [|c s]; [reflexivity|]. simpl. now destruct (is_ws c). Qed.

Lemma skip_ws_app ws s :
  forallb is_ws ws = true -> stops is_ws s = true -> skip_ws (ws ++ s) = s.
Proof.
  intros Hws Hs. induction ws as [|c ws IH]; [now apply skip_ws_stop|].
  simpl in *. apply andb_prop in Hws as [-> Hws]. auto.
Qed.

Lemma span_app p (a b : str) :
  forallb p a = true -> stops p b = true -> span p (a ++ b) = (a, b).
Proof.
  intros Ha Hb. induction a as [|c a IH]; [now apply span_stop|].
  simpl in *. apply andb_prop in Ha as [-> Ha]. now rewrite (IH Ha).
Qed.

Lemma is_char_neq a c : a <> c -> is_char a c = false.
Proof.
  intros Hne. destruct (is_char a c) eqn:E; [|reflexivity]. now apply is_char_eq in E.
Qed.

Lemma digit_is_not a c : is_digit c = true -> is_digit a = false -> is_char a c = false.
Proof. intros Hc Ha. apply is_char_neq. intros ->. congruence. Qed.

Lemma digit_not_ws c : is_digit c = true -> is_ws c = false.
Proof.
  intros Hc. unfold is_ws.
  now rewrite !(digit_is_not _ c Hc) by reflexivity.
Qed.

Lemma plain_scanstring label rest acc :
  forallb plain label = true ->
  scanstring (label ++ dquote :: rest) acc = Ok (rev acc ++ label, rest).
Proof.
  revert acc. induction label as [|c label IH]; intros acc Hl.
  - cbn. now rewrite app_nil_r.
  - cbn [forallb] in Hl. apply andb_prop in Hl as [Hc Hl]. unfold plain in Hc.
    apply andb_prop in Hc as [Hc H32]. apply andb_prop in Hc as [Hq Hb].
    unfold not_quote in Hq. apply negb_true_iff in Hq, Hb, H32.
    cbn [app scanstring]. rewrite Hq, Hb, H32, (IH _ Hl). cbn [rev].
    now rewrite <- app_assoc.
Qed.

Lemma canonical_scan_atom d c rest :
  canonical d = true -> closes c = true ->
  scan_atom (d ++ c :: rest) = Ok (VInt (digits_value 0 d), c :: rest).
Proof.
  intros Hd Hc. unfold canonical in Hd.
  apply andb_prop in Hd as [Hd Hz]. apply andb_prop in Hd as [Hne Hd].
  destruct d as [|c0 d]; [discriminate|].
  assert (H0 : is_digit c0 = true) by (cbn in Hd; now apply andb_prop in Hd as [? _]).
  assert (Hcd : is_digit c = false /\ is_char "." c = false /\
                is_char "e" c = false /\ is_char "E" c = false).
  { unfold closes in Hc. apply orb_prop in Hc as [Hc|Hc]; apply is_char_eq in Hc as <-;
      repeat split; reflexivity. }
  destruct Hcd as (Hc1 & Hc2 & Hc3 & Hc4).
  unfold scan_atom. cbn [app lit list_ascii_of_string strip_prefix].
  rewrite !(digit_is_not _ c0 H0) by reflexivity.
  unfold scan_number. rewrite (digit_is_not _ c0 H0) by reflexivity.
  unfold scan_unsigned. rewrite H0.
  assert (Hip : (if is_char "0" c0 then ([c0], d ++ c :: rest)
                 else span is_digit (c0 :: d ++ c :: rest)) = (c0 :: d, c :: rest)).
  { destruct (is_char "0" c0) eqn:E0.
    - destruct d as [|c1 d]; [reflexivity|]. discriminate.
    - change (c0 :: d ++ c :: rest) with ((c0 :: d) ++ c :: rest).
      apply span_app; [exact Hd|]. cbn. now rewrite Hc1. }
  rewrite Hip. unfold scan_fraction, scan_exponent. rewrite Hc2, Hc3, Hc4. reflexivity.
Qed.

Lemma scan_once_number f d c rest :
  (1 <= f)%nat -> canonical d = true -> closes c = true ->
  scan_once f (d ++ c :: rest) = Some (Ok (VInt (digits_value 0 d), c :: rest)).
Proof.
  intros Hf Hd Hc. destruct f as [|f]; [lia|].
  rewrite <- (canonical_scan_atom d c rest Hd Hc).
  unfold canonical in Hd. apply andb_prop in Hd as [Hd _]. apply andb_prop in Hd as [_ Hd].
  destruct d as [|c0 d]; [destruct c; discriminate || idtac|].
  - unfold closes in Hc. cbn [app scan_once].
    apply orb_prop in Hc as [Hc|Hc]; apply is_char_eq in Hc as <-; reflexivity.
  - cbn in Hd. apply andb_prop in Hd as [H0 _].
    cbn [app scan_once]. now rewrite !(digit_is_not _ c0 H0) by reflexivity.
Qed.

Lemma scan_array_next f acc d ws more :
  (2 <= f)%nat -> canonical d = true -> forallb is_ws ws = true -> stops is_ws more = true ->
  scan_array f acc (d ++ ","%char :: ws ++ more) =
  scan_array (pred f) (VInt (digits_value 0 d) :: acc) more.
Proof.
  intros Hf Hd Hws Hm. destruct f as [|f]; [lia|]. cbn [scan_array pred].
  rewrite scan_once_number by (try lia; auto).
  cbn [skip_ws is_ws]. cbn. now rewrite skip_ws_app.
Qed.

Lemma scan_array_last f acc d more :
  (2 <= f)%nat -> canonical d = true ->
  scan_array f acc (d ++ "]"%char :: more) =
  Some (Ok (VList (rev (VInt (digits_value 0 d) :: acc)), more)).
Proof.
  intros Hf Hd. destruct f as [|f]; [lia|]. cbn [scan_array].
  rewrite scan_once_number by (try lia; auto). reflexivity.
Qed.

Lemma canonical_stops d s : canonical d = true -> stops is_ws (d ++ s) = true.
Proof.
  unfold canonical. intros Hd. apply andb_prop in Hd as [Hd _].
  apply andb_prop in Hd as [Hne Hd]. destruct d as [|c d]; [discriminate|].
  cbn in *. apply andb_prop in Hd as [Hc _]. now rewrite (digit_not_ws _ Hc).
Qed.

Lemma canonical_not_bracket d s : canonical d = true -> stops (is_char "]") (d ++ s) = true.
Proof.
  unfold canonical. intros Hd. apply andb_prop in Hd as [Hd _].
  apply andb_prop in Hd as [Hne Hd]. destruct d as [|c d]; [discriminate|].
  cbn [app stops]. cbn [forallb] in Hd. apply andb_prop in Hd as [Hc _].
  now rewrite (digit_is_not _ c Hc).
Qed.

Lemma scan_once_bracket f s :
  (1 <= f)%nat -> stops is_ws s = true -> stops (is_char "]") s = true -> s <> [] ->
  scan_once f ("["%char :: s) = scan_array (pred f) [] s.
Proof.
  intros Hf Hw Hb Hs. destruct f as [|f]; [lia|]. cbn [scan_once pred].
  replace (is_char dquote "[") with false by reflexivity.
  replace (is_char "{" "[") with false by reflexivity.
  replace (is_char "[" "[") with true by reflexivity.
  rewrite (skip_ws_stop _ Hw). destruct s as [|q r]; [congruence|].
  cbn [stops] in Hb. apply negb_true_iff in Hb. now rewrite Hb.
Qed.

(** The array of an entry. *)
Lemma scan_once_box f e more :
  (6 <= f)%nat -> json_entry_ok e = true ->
  scan_once f ("["%char :: e_d1 e ++ ","%char :: e_ws1 e ++ e_d2 e ++ ","%char :: e_ws2 e ++
               e_d3 e ++ ","%char :: e_ws3 e ++ e_d4 e ++ "]"%char :: more) =
  Some (Ok (box_of (entry_groups e), more)).
Proof.
  intros Hf He. unfold json_entry_ok in He. split_ok He.
  rewrite scan_once_bracket;
    [|lia|now apply canonical_stops|now apply canonical_not_bracket|].
  2:{ assert (C1 : canonical (e_d1 e) = true) by assumption.
      destruct (e_d1 e); [discriminate|discriminate]. }
  rewrite scan_array_next by (try lia; auto using canonical_stops).
  rewrite scan_array_next by (try lia; auto using canonical_stops).
  rewrite scan_array_next by (try lia; auto using canonical_stops).
  rewrite scan_array_last by (try lia; auto). reflexivity.
Qed.

Lemma entry_text_json e : entry_text e = dquote :: e_label e ++ dquote :: ":"%char :: e_ws0 e ++
  "["%char :: e_d1 e ++ ","%char :: e_ws1 e ++ e_d2 e ++ ","%char :: e_ws2 e ++
  e_d3 e ++ ","%char :: e_ws3 e ++ e_d4 e ++ ["]"%char].
Proof. reflexivity. Qed.

(** One member of an object, from its key on: the pair is read and the
    scan is left at what follows the closing bracket. *)
Lemma scan_object_member f acc e more :
  (7 <= f)%nat -> json_entry_ok e = true ->
  scan_object f acc (e_label e ++ dquote :: ":"%char :: e_ws0 e ++
    "["%char :: e_d1 e ++ ","%char :: e_ws1 e ++ e_d2 e ++ ","%char :: e_ws2 e ++
    e_d3 e ++ ","%char :: e_ws3 e ++ e_d4 e ++ "]"%char :: more) =
  match skip_ws more with
  | c2 :: r3 =>
      if is_char "}" c2 then
        Some (Ok (VDict (dict_of_pairs (rev (pair_of (entry_groups e) :: acc))), r3))
      else if is_char "," c2 then
        match skip_ws r3 with
        | q :: r4 =>
            if is_char dquote q then scan_object (pred f) (pair_of (entry_groups e) :: acc) r4
            else Some (Raise JSONDecodeError)
        | [] => Some (Raise JSONDecodeError)
        end
      else Some (Raise JSONDecodeError)
  | [] => Some (Raise JSONDecodeError)
  end.
Proof.
  intros Hf He. destruct f as [|f]; [lia|]. cbn [scan_object pred].
  assert (Hl : forallb plain (e_label e) = true).
  { unfold json_entry_ok in He. split_ok He. assumption. }
  assert (Hw : forallb is_ws (e_ws0 e) = true).
  { unfold json_entry_ok in He. split_ok He. assumption. }
  rewrite (plain_scanstring _ _ [] Hl). cbn [rev app].
  rewrite (skip_ws_stop (":"%char :: _)) by reflexivity.
  replace (is_char ":" ":") with true by reflexivity.
  rewrite skip_ws_app by (auto; reflexivity).
  rewrite scan_once_box by (try lia; auto). reflexivity.
Qed.

Lemma entries_text_length sep trail es :
  (3 * length es + 1 <= length (entries_text sep trail es))%nat.
Proof.
  induction es as [|e es IH]; [cbn [entries_text length]; rewrite length_app; cbn; lia|].
  cbn [entries_text]. rewrite length_app. pose proof (entry_length e) as He.
  destruct es as [|e' es].
  - rewrite length_app. cbn [length]. lia.
  - cbn [length] in *. rewrite length_app. lia.
Qed.

(** The members of an object, from the key of the first one on. *)
Lemma scan_object_entries sep trail es : forall f acc e rest,
  (length es + 7 <= f)%nat ->
  forallb Json.is_ws sep = true -> forallb Json.is_ws trail = true ->
  forallb json_entry_ok (e :: es) = true ->
  exists tl,
    entries_text sep trail (e :: es) ++ rest = dquote :: tl /\
    scan_object f acc tl =
    Some (Ok (VDict (dict_of_pairs
                       (rev acc ++ ((fun e => pair_of (entry_groups e)) <$> (e :: es)))), rest)).
Proof.
  induction es as [|e' es IH]; intros f acc e rest Hf Hsep Htrail Hes;
    cbn [forallb] in Hes; apply andb_prop in Hes as [He Hes].
  - eexists. split.
    { cbn [entries_text]. rewrite entry_text_json.
      repeat (rewrite <- ?app_assoc, <- ?app_comm_cons). cbn [app]. reflexivity. }
    rewrite scan_object_member by (cbn [length] in Hf; try lia; auto).
    rewrite skip_ws_app by (auto; reflexivity).
    replace (is_char "}" "}") with true by reflexivity.
    cbn [fmap list_fmap rev]. reflexivity.
  - destruct (IH (pred f) (pair_of (entry_groups e) :: acc) e' rest) as (tl & Etl & Hrun);
      [cbn [length] in *; lia|assumption..|].
    eexists. split.
    { change (entries_text sep trail (e :: e' :: es))
        with (entry_text e ++ ","%char :: sep ++ entries_text sep trail (e' :: es)).
      rewrite <- app_assoc. cbn [app]. rewrite <- app_assoc, Etl, entry_text_json.
      repeat (rewrite <- ?app_assoc, <- ?app_comm_cons). cbn [app]. reflexivity. }
    rewrite scan_object_member by (cbn [length] in Hf; try lia; auto).
    rewrite (skip_ws_stop (","%char :: _)) by reflexivity.
    replace (is_char "}" ",") with false by reflexivity.
    replace (is_char "," ",") with true by reflexivity.
    rewrite skip_ws_app by (auto; reflexivity).
    replace (is_char dquote dquote) with true by reflexivity.
    rewrite Hrun. cbn [rev fmap list_fmap]. rewrite <- app_assoc. reflexivity.
Qed.

(** [json.loads] reads the text of an object of labelled boxes as the
    mapping that its members denote. *)
Lemma loads_object_text lead sep trail es :
  forallb Json.is_ws lead = true -> forallb Json.is_ws sep = true ->
  forallb Json.is_ws trail = true -> forallb json_entry_ok es = true ->
  loads (object_text lead sep trail es) = Ok (VDict (entries_dict es)).
Proof.
  intros Hlead Hsep Htrail Hes. unfold loads, decode_with, fuel_for, object_text.
  rewrite (skip_ws_stop ("{"%char :: _)) by reflexivity.
  set (n := (2 * length ("{"%char :: lead ++ entries_text sep trail es) + 1)%nat).
  assert (Hn : (length es + 7 <= n \/ es = [] /\ 1 <= n)%nat).
  { subst n. cbn [length]. rewrite length_app.
    pose proof (entries_text_length sep trail es).
    destruct es as [|e es]; [right; split; [reflexivity|lia]|left].
    cbn [length] in *. lia. }
  destruct n as [|f]; [lia|]. cbn [scan_once].
  replace (is_char dquote "{") with false by reflexivity.
  replace (is_char "{" "{") with true by reflexivity.
  destruct es as [|e es].
  - cbn [entries_text]. rewrite app_assoc, skip_ws_app;
      [|now rewrite forallb_app, Hlead, Htrail|reflexivity].
    replace (is_char "}" "}") with true by reflexivity. reflexivity.
  - destruct Hn as [Hn|[Hn _]]; [|discriminate].
    destruct (scan_object_entries sep trail es f [] e [] ltac:(cbn [length] in *; lia)
                Hsep Htrail Hes) as (tl & Etl & Hrun).
    rewrite app_nil_r in Etl. rewrite Etl.
    rewrite skip_ws_app by (auto; reflexivity).
    replace (is_char "}" dquote) with false by reflexivity.
    replace (is_char dquote dquote) with true by reflexivity.
    rewrite Hrun. reflexivity.
Qed.

End JsonTexts.

(** ** The text of a mapping from labels to lists of numbers *)

Module JsonMappings.
Import Json.

























End JsonMappings.




(** ** Both ways of decoding agree on the text of an object *)

Lemma ws_is_space c : Json.is_ws c = true -> is_space c = true.
Proof.
  unfold Json.is_ws. intros H.
  repeat (apply orb_prop in H as [H|H]); apply is_char_eq in H as <-; reflexivity.
Qed.

Lemma plain_not_quote c : plain c = true -> not_quote c = true.
Proof.
  unfold plain. intros H. apply andb_prop in H as [H _]. now apply andb_prop in H as [H _].
Qed.

Lemma canonical_digits d : canonical d = true -> nonempty d = true /\ forallb is_digit d = true.
Proof.
  unfold canonical. intros H. apply andb_prop in H as [H _]. now apply andb_prop in H.
Qed.

Lemma json_entry_is_entry e : json_entry_ok e = true -> entry_ok e = true.
Proof.
  unfold json_entry_ok, entry_ok. intros H. split_ok H.
  repeat match goal with
         | Hc : canonical _ = true |- _ => apply canonical_digits in Hc as [? ?]
         | Hw : forallb Json.is_ws _ = true |- _ => apply (forallb_impl _ _ _ ws_is_space) in Hw
         | Hp : forallb plain _ = true |- _ => apply (forallb_impl _ _ _ plain_not_quote) in Hp
         end.
  repeat (apply andb_true_intro; split); assumption.
Qed.

Lemma ws_not_quote c : Json.is_ws c = true -> not_quote c = true.
Proof. intros H. now apply space_not_quote, ws_is_space. Qed.

Lemma findall_entries_text sep trail es : forall pre,
  forallb not_quote pre = true ->
  forallb Json.is_ws sep = true -> forallb Json.is_ws trail = true ->
  forallb json_entry_ok es = true ->
  Re.findall pattern (pre ++ entries_text sep trail es) = entry_groups <$> es.
Proof.
  induction es as [|e es IH]; intros pre Hpre Hsep Htrail Hes.
  - cbn [entries_text fmap list_fmap]. rewrite app_assoc, <- (app_nil_r (_ ++ _)).
    rewrite findall_skip; [reflexivity|].
    rewrite !forallb_app, Hpre, (forallb_impl _ _ _ ws_not_quote Htrail). reflexivity.
  - cbn [forallb] in Hes. apply andb_prop in Hes as [He Hes].
    cbn [entries_text fmap list_fmap].
    rewrite (findall_entry _ _ _ Hpre (json_entry_is_entry _ He)). f_equal.
    destruct es as [|e' es].
    + rewrite <- (app_nil_r (_ ++ _)). rewrite findall_skip; [reflexivity|].
      rewrite forallb_app, (forallb_impl _ _ _ ws_not_quote Htrail). reflexivity.
    + change (","%char :: sep ++ entries_text sep trail (e' :: es))
        with ((","%char :: sep) ++ entries_text sep trail (e' :: es)).
      apply IH; auto. cbn [forallb].
      now rewrite (forallb_impl _ _ _ ws_not_quote Hsep).
Qed.

(** On the text of an object of labelled boxes [json.loads] returns the
    very mapping that the fallback would make from the matches of the
    pattern. *)
Lemma loads_agrees_with_fallback lead sep trail es :
  forallb Json.is_ws lead = true -> forallb Json.is_ws sep = true ->
  forallb Json.is_ws trail = true -> forallb json_entry_ok es = true ->
  Json.loads (object_text lead sep trail es) =
  Ok (VDict (dict_of_pairs (pair_of <$> Re.findall pattern (object_text lead sep trail es)))).
Proof.
  intros Hlead Hsep Htrail Hes.
  rewrite (JsonTexts.loads_object_text _ _ _ _ Hlead Hsep Htrail Hes).
  unfold object_text.
  change ("{"%char :: lead ++ entries_text sep trail es)
    with (("{"%char :: lead) ++ entries_text sep trail es).
  rewrite findall_entries_text; auto.
  - unfold entries_dict. now rewrite <- list_fmap_compose.
  - cbn [forallb]. now rewrite (forallb_impl _ _ _ ws_not_quote Hlead).
Qed.

(** ** Drawing: worlds and arithmetic *)

Section DrawingLemmas.
Context {platform : Platform}.

Lemma bind_ok {A B} (m : M A) (k : A -> M B) w a w' :
  m w = (Ok a, w') -> (m ≫= k) w = k a w'.
Proof. intros E. unfold mbind, M_bind. now rewrite E. Qed.

Lemma bind_raise {A B} (m : M A) (k : A -> M B) w e w' :
  m w = (Raise e, w') -> (m ≫= k) w = (Raise e, w').
Proof. intros E. unfold mbind, M_bind. now rewrite E. Qed.

Lemma bind_lift_ok {A B} (a : A) (k : A -> M B) w : (lift (Ok a) ≫= k) w = k a w.
Proof. reflexivity. Qed.

Lemma bind_lift_raise {A B} e (k : A -> M B) w :
  (lift (Raise e) ≫= k) w = (Raise e, w).
Proof. reflexivity. Qed.

Lemma burn_all_app ops1 ops2 im : burn_all ops2 (burn_all ops1 im) = burn_all (ops1 ++ ops2) im.
Proof. unfold burn_all. cbn. now rewrite app_assoc. Qed.

Lemma paint_paint draw ops1 ops2 w :
  paint draw ops2 (paint draw ops1 w) = paint draw (ops1 ++ ops2) w.
Proof.
  unfold paint. cbn. f_equal. rewrite alter_alter_eq.
  apply alter_ext. intros im _. apply burn_all_app.
Qed.

Lemma paint_nil draw w : paint draw [] w = w.
Proof.
  unfold paint. destruct w as [ims n]. cbn. f_equal.
  apply alter_id. intros [sz px dr] _. unfold burn_all. cbn. now rewrite app_nil_r.
Qed.

Lemma paint_advance draw ops n w : paint draw ops (advance n w) = advance n (paint draw ops w).
Proof. reflexivity. Qed.

Lemma advance_advance n m w : advance m (advance n w) = advance (n + m) w.
Proof. unfold advance. cbn. f_equal. lia. Qed.

Lemma advance_zero w : advance 0 w = w.
Proof. destruct w as [ims n]. unfold advance. cbn. now rewrite Nat.add_0_r. Qed.

Lemma draw_call_bind {B} draw op (k : unit -> M B) w :
  (draw_call draw op ≫= k) w =
  match refused_at draw w op with
  | None => k tt (paint draw [op] w)
  | Some e => (Raise e, w)
  end.
Proof.
  unfold mbind at 1, M_bind, draw_call, refused_at.
  now destruct (images w !! draw ≫= _).
Qed.

Lemma draw_call_run draw op w :
  draw_call draw op w =
  match refused_at draw w op with
  | None => (Ok tt, paint draw [op] w)
  | Some e => (Raise e, w)
  end.
Proof. unfold draw_call, refused_at. now destruct (images w !! draw ≫= _). Qed.

(** *** Calls made in order *)

Lemma lookup_paint draw ops w im :
  images w !! draw = Some im -> images (paint draw ops w) !! draw = Some (burn_all ops im).
Proof. intros E. unfold paint. cbn [images]. now rewrite lookup_alter_eq, E. Qed.

Lemma lookup_paint_none draw ops w :
  images w !! draw = None -> images (paint draw ops w) !! draw = None.
Proof. intros E. unfold paint. cbn [images]. now rewrite lookup_alter_eq, E. Qed.

Lemma accepted_at_lookup draw w im ops :
  images w !! draw = Some im -> accepted_at draw w ops = accepted im ops.
Proof. intros E. unfold accepted_at. now rewrite E. Qed.

Lemma accepted_at_cons draw w op ops :
  accepted_at draw w (op :: ops) =
  match refused_at draw w op with
  | None => accepted_at draw (paint draw [op] w) ops
  | Some _ => false
  end.
Proof.
  unfold accepted_at, refused_at. destruct (images w !! draw) as [im|] eqn:E.
  - cbn [accepted mbind option_bind]. destruct (refuses im op); [reflexivity|].
    now rewrite (lookup_paint _ _ _ _ E).
  - cbn [mbind option_bind]. now rewrite (lookup_paint_none _ _ _ E).
Qed.

Lemma accepted_at_app draw ops1 ops2 : forall w,
  accepted_at draw w (ops1 ++ ops2) =
  accepted_at draw w ops1 && accepted_at draw (paint draw ops1 w) ops2.
Proof.
  induction ops1 as [|op ops1 IH]; intros w.
  - cbn [app]. rewrite paint_nil. unfold accepted_at at 2.
    now destruct (images w !! draw).
  - cbn [app]. rewrite !accepted_at_cons. destruct (refused_at draw w op); [reflexivity|].
    now rewrite IH, paint_paint.
Qed.

Lemma perform_accepted draw ops : forall w,
  accepted_at draw w ops = true -> perform draw ops w = (Ok tt, paint draw ops w).
Proof.
  induction ops as [|op ops IH]; intros w H.
  - cbn [perform]. now rewrite paint_nil.
  - rewrite accepted_at_cons in H. cbn [perform].
    destruct (refused_at draw w op); [discriminate|].
    now rewrite (IH _ H), paint_paint.
Qed.

Lemma perform_ok draw ops : forall w r w',
  perform draw ops w = (Ok r, w') -> accepted_at draw w ops = true.
Proof.
  induction ops as [|op ops IH]; intros w r w' E.
  - unfold accepted_at. now destruct (images w !! draw).
  - rewrite accepted_at_cons. cbn [perform] in E.
    destruct (refused_at draw w op); [discriminate|]. eapply IH, E.
Qed.

Lemma perform_nil draw w : perform draw [] w = (Ok tt, w).
Proof. reflexivity. Qed.

Lemma perform_cons draw op ops w :
  perform draw (op :: ops) w =
  match refused_at draw w op with
  | None => perform draw ops (paint draw [op] w)
  | Some e => (Raise e, w)
  end.
Proof. cbn [perform]. now destruct (refused_at draw w op). Qed.

Lemma perform_app draw ops1 ops2 : forall w,
  perform draw (ops1 ++ ops2) w = (perform draw ops1;; perform draw ops2) w.
Proof.
  induction ops1 as [|op ops1 IH]; intros w.
  - reflexivity.
  - cbn [app]. rewrite perform_cons. unfold mbind, M_bind. rewrite perform_cons.
    destruct (refused_at draw w op); [reflexivity|]. rewrite IH. reflexivity.
Qed.

Lemma perform_advance draw ops n : forall w,
  perform draw ops (advance n w) =
  (fst (perform draw ops w), advance n (snd (perform draw ops w))).
Proof.
  induction ops as [|op ops IH]; intros w; [reflexivity|].
  cbn [perform]. change (refused_at draw (advance n w) op) with (refused_at draw w op).
  destruct (refused_at draw w op); [reflexivity|].
  now rewrite paint_advance, IH.
Qed.

Lemma generate_random_color_run w :
  generate_random_color w = (Ok (color_at (rng_calls w)), advance 1 w).
Proof.
  unfold generate_random_color, randint, color_at, advance. cbn.
  now rewrite Nat.add_1_r.
Qed.

(** *** Arithmetic on scaled coordinates *)

Lemma int_to_float_small n : Z.abs n < dbl_overflow -> int_to_float n = Ok (float_of_Z n).
Proof. intros Hn. unfold int_to_float. now rewrite (proj2 (Z.ltb_lt _ _) Hn). Qed.

Lemma dbl_overflow_big : 2 ^ 31 < dbl_overflow.
Proof. reflexivity. Qed.

Lemma py_add_float x n :
  Z.abs n < dbl_overflow -> py_add (VFloat x) (VInt n) = Ok (VFloat (fadd x n)).
Proof. intros Hn. unfold py_add, binop, num_arith. cbn. now rewrite (int_to_float_small _ Hn). Qed.

Lemma py_sub_float x n :
  Z.abs n < dbl_overflow -> py_sub (VFloat x) (VInt n) = Ok (VFloat (fsub x n)).
Proof. intros Hn. unfold py_sub, binop, num_arith. cbn. now rewrite (int_to_float_small _ Hn). Qed.

Lemma py_truediv_float a b q : py_truediv a b = Ok q -> is_vfloat q = true.
Proof.
  unfold py_truediv, binop.
  destruct (as_num a) as [x|]; [|discriminate].
  destruct (as_num b) as [y|]; [|discriminate].
  destruct (num_truediv x y) as [n|e] eqn:E; [|discriminate].
  cbn. intros [= <-].
  destruct x as [x|x], y as [y|y]; unfold num_truediv in E.
  - destruct (int_true_divide x y); [|discriminate]. now injection E as <-.
  - destruct (int_to_float x); [|discriminate]. cbn in E.
    destruct (float_div a0 y); [|discriminate]. now injection E as <-.
  - destruct (int_to_float y); [|discriminate]. cbn in E.
    destruct (float_div x a0); [|discriminate]. now injection E as <-.
  - destruct (float_div x y); [|discriminate]. now injection E as <-.
Qed.

Lemma py_mul_float q dim v :
  is_vfloat q = true -> py_mul q (VInt dim) = Ok v -> is_vfloat v = true.
Proof.
  destruct q; try discriminate. intros _. unfold py_mul, binop, num_arith. cbn [as_num].
  destruct (int_to_float dim); [|discriminate]. cbn. now intros [= <-].
Qed.

Lemma pixel_float coord dim v : pixel coord dim = Ok v -> is_vfloat v = true.
Proof.
  unfold pixel. destruct (py_truediv coord (VInt 1000)) as [q|e] eqn:E; [|discriminate].
  cbn. apply py_mul_float. eapply py_truediv_float, E.
Qed.

Lemma mapM_pixel_floats (l : list (value * Z)) vs :
  mapM (fun cd : value * Z => pixel (fst cd) (snd cd)) l = Ok vs ->
  forallb is_vfloat vs = true.
Proof.
  revert vs. induction l as [|[c d] l IH]; intros vs; cbn [mapM].
  - intros [= <-]. reflexivity.
  - cbn [fst snd]. destruct (pixel c d) as [v|e] eqn:Ev; [|discriminate].
    cbn [mbind result_bind]. destruct (mapM _ l) as [vs'|e] eqn:El; [|discriminate].
    cbn. intros [= <-]. cbn. now rewrite (pixel_float _ _ _ Ev), (IH _ eq_refl).
Qed.

Lemma scale_box_floats bbox width height vs :
  scale_box bbox width height = Ok vs -> forallb is_vfloat vs = true.
Proof.
  unfold scale_box. destruct (iterate bbox) as [elems|e]; [|discriminate].
  cbn [mbind result_bind]. apply mapM_pixel_floats.
Qed.

Lemma label_size_bound f label :
  Z.abs (fst (label_size f label)) < dbl_overflow /\
  Z.abs (snd (label_size f label)) < dbl_overflow.
Proof.
  unfold label_size. pose proof (getbbox_bound f label) as Hb.
  destruct (getbbox f label) as [[[l t] r] b]. cbn [fst snd].
  pose proof dbl_overflow_big. lia.
Qed.

Lemma expand_ok lo hi size :
  Z.abs size < dbl_overflow -> exists v, expand (VFloat lo) (VFloat hi) size = Ok v.
Proof.
  intros Hs. unfold expand, py_sub, py_lt.
  cbn [mbind result_bind binop as_num num_arith fmap result_fmap of_num num_lt].
  destruct (float_lt_int _ size); [|eauto]. rewrite (py_add_float _ _ Hs). eauto.
Qed.

End DrawingLemmas.

Section Drawing.
Context {platform : Platform}.

Lemma draw_text_with_outline_run draw text x y f tc oc w :
  draw_text_with_outline draw text (VFloat x, VFloat y) f tc oc w =
  perform draw
    [Text (VFloat (fsub x 1), VFloat (fsub y 1)) text f oc;
     Text (VFloat (fadd x 1), VFloat (fsub y 1)) text f oc;
     Text (VFloat (fsub x 1), VFloat (fadd y 1)) text f oc;
     Text (VFloat (fadd x 1), VFloat (fadd y 1)) text f oc;
     Text (VFloat x, VFloat y) text f tc] w.
Proof.
  set (o1 := Text (VFloat (fsub x 1), VFloat (fsub y 1)) text f oc).
  set (o2 := Text (VFloat (fadd x 1), VFloat (fsub y 1)) text f oc).
  set (o3 := Text (VFloat (fsub x 1), VFloat (fadd y 1)) text f oc).
  set (o4 := Text (VFloat (fadd x 1), VFloat (fadd y 1)) text f oc).
  set (o5 := Text (VFloat x, VFloat y) text f tc).
  change (draw_text_with_outline draw text (VFloat x, VFloat y) f tc oc w)
    with ((draw_call draw o1;; draw_call draw o2;; draw_call draw o3;;
           draw_call draw o4;; draw_call draw o5) w).
  do 4 (rewrite draw_call_bind, perform_cons;
        match goal with |- context [refused_at ?d ?v ?o] => destruct (refused_at d v o) end;
        [reflexivity|]).
  rewrite perform_cons, draw_call_run.
  now destruct (refused_at _ _ o5).
Qed.

Lemma draw_label_run draw f label color xmin ymin lw lh w :
  Z.abs lw < dbl_overflow -> Z.abs lh < dbl_overflow ->
  draw_label draw f label color (VFloat xmin) (VFloat ymin) lw lh w =
  perform draw (label_ops f label color xmin ymin lw lh) w.
Proof.
  intros Hw Hh. unfold draw_label.
  rewrite (py_add_float _ _ Hw), (py_add_float _ _ Hh).
  rewrite !bind_lift_ok. unfold label_ops. cbv zeta.
  rewrite draw_call_bind, perform_cons.
  match goal with |- context [refused_at ?d ?v ?o] => destruct (refused_at d v o) end; [reflexivity|].
  rewrite !py_add_float by reflexivity. rewrite !bind_lift_ok.
  apply draw_text_with_outline_run.
Qed.

(** *** One box *)

Lemma generate_random_color_bind {B} (k : str -> M B) w :
  (generate_random_color ≫= k) w = k (color_at (rng_calls w)) (advance 1 w).
Proof. apply bind_ok, generate_random_color_run. Qed.

Lemma draw_box_run draw width height f label bbox w ymin xmin ymax xmax :
  scale_box bbox width height = Ok [VFloat ymin; VFloat xmin; VFloat ymax; VFloat xmax] ->
  draw_box draw width height f label bbox w =
  perform draw
    (box_ops f label (color_at (rng_calls w)) ymin xmin ymax xmax
       (fst (label_size f label)) (snd (label_size f label)))
    (advance 1 w).
Proof.
  intros E. unfold draw_box.
  rewrite generate_random_color_bind, E, bind_lift_ok. unfold box_ops.
  rewrite draw_call_bind, perform_cons.
  match goal with |- context [refused_at ?d ?v ?o] => destruct (refused_at d v o) end; [reflexivity|].
  destruct (label_size_bound f label) as [Hw Hh].
  destruct (label_size f label) as [lw lh]. cbn [fst snd] in *.
  destruct (expand_ok xmin xmax lw Hw) as [vx ->].
  destruct (expand_ok ymin ymax lh Hh) as [vy ->].
  rewrite !bind_lift_ok. now apply draw_label_run.
Qed.

Lemma draw_box_no_expand_run draw width height f label bbox w ymin xmin ymax xmax :
  scale_box bbox width height = Ok [VFloat ymin; VFloat xmin; VFloat ymax; VFloat xmax] ->
  draw_box_no_expand draw width height f label bbox w =
  perform draw
    (box_ops f label (color_at (rng_calls w)) ymin xmin ymax xmax
       (fst (label_size f label)) (snd (label_size f label)))
    (advance 1 w).
Proof.
  intros E. unfold draw_box_no_expand.
  rewrite generate_random_color_bind, E, bind_lift_ok. unfold box_ops.
  rewrite draw_call_bind, perform_cons.
  match goal with |- context [refused_at ?d ?v ?o] => destruct (refused_at d v o) end; [reflexivity|].
  destruct (label_size_bound f label) as [Hw Hh].
  destruct (label_size f label) as [lw lh]. cbn [fst snd] in *.
  now apply draw_label_run.
Qed.

(** The step that widens [xmax] and [ymax] changes nothing in what one box
    draws, nor in how it fails. *)
Lemma draw_box_no_expand_eq draw width height f label bbox w :
  draw_box draw width height f label bbox w =
  draw_box_no_expand draw width height f label bbox w.
Proof.
  destruct (scale_box bbox width height) as [vs|e] eqn:E.
  - pose proof (scale_box_floats _ _ _ _ E) as Hf.
    destruct vs as [|[] [|[] [|[] [|[] [|]]]]]; try discriminate;
      try (unfold draw_box, draw_box_no_expand;
           rewrite !generate_random_color_bind, E; reflexivity).
    now rewrite (draw_box_run _ _ _ _ _ _ _ _ _ _ _ E),
      (draw_box_no_expand_run _ _ _ _ _ _ _ _ _ _ _ E).
  - unfold draw_box, draw_box_no_expand.
    rewrite !generate_random_color_bind, E. reflexivity.
Qed.

Lemma for_items_ext (body1 body2 : str -> value -> M unit) l w :
  (forall k v w', body1 k v w' = body2 k v w') ->
  for_items body1 l w = for_items body2 l w.
Proof.
  intros Hb. revert w. induction l as [|[k v] l IH]; intros w; [reflexivity|].
  cbn [for_items]. unfold mbind, M_bind. rewrite Hb.
  destruct (body2 k v w) as [[[]|e] w']; [apply IH|reflexivity].
Qed.

End Drawing.

Section Boxes.
Context {platform : Platform}.

Lemma pixel_ok c dim :
  coordinate_ok c = true -> Z.abs dim < dbl_overflow ->
  exists x, pixel c dim = Ok (VFloat x).
Proof.
  intros Hc Hd. unfold pixel, py_truediv, py_mul, binop.
  destruct c as [| |n|x| | |]; try discriminate; cbn [as_num coordinate_ok] in *.
  - assert (E : exists q, num_truediv (NInt n) (NInt 1000) = Ok (NFloat q)).
    { unfold num_truediv, int_true_divide. cbn [Z.eqb].
      destruct (n =? 0); [eexists; reflexivity|].
      apply Z.ltb_lt in Hc.
      rewrite (proj2 (Z.leb_gt _ _)) by (change (Z.abs 1000) with 1000; lia).
      eexists. reflexivity. }
    destruct E as [q ->].
    cbn [fmap result_fmap mbind result_bind of_num as_num num_arith].
    rewrite (int_to_float_small _ Hd). cbn. eauto.
  - assert (E : exists q, num_truediv (NFloat x) (NInt 1000) = Ok (NFloat q)).
    { unfold num_truediv. rewrite int_to_float_small by reflexivity.
      cbn [mbind result_bind]. unfold float_div.
      replace (float_is_zero (float_of_Z 1000)) with false by (vm_compute; reflexivity).
      eexists. reflexivity. }
    destruct E as [q ->].
    cbn [fmap result_fmap mbind result_bind of_num as_num num_arith].
    rewrite (int_to_float_small _ Hd). cbn. eauto.
Qed.

Lemma scale_box_ok bbox width height :
  box_ok bbox = true -> Z.abs width < dbl_overflow -> Z.abs height < dbl_overflow ->
  exists ymin xmin ymax xmax,
    scale_box bbox width height = Ok [VFloat ymin; VFloat xmin; VFloat ymax; VFloat xmax].
Proof.
  intros Hb Hw Hh. unfold box_ok in Hb.
  destruct bbox as [| | | | |l|]; try discriminate.
  destruct l as [|c0 [|c1 [|c2 [|c3 [|]]]]]; try discriminate.
  apply andb_prop in Hb as [Hb H3]. apply andb_prop in Hb as [Hb H2].
  apply andb_prop in Hb as [H0 H1].
  unfold scale_box. cbn [iterate mbind result_bind zip zip_with mapM fst snd].
  destruct (pixel_ok _ _ H0 Hh) as [y0 ->]. destruct (pixel_ok _ _ H1 Hw) as [x0 ->].
  destruct (pixel_ok _ _ H2 Hh) as [y1 ->]. destruct (pixel_ok _ _ H3 Hw) as [x1 ->].
  cbn. eauto 6.
Qed.

(** The loop over boxes that all scale: the calls of the boxes in order, up
    to the first refused one; [k] boxes are begun, all of them when no call
    is refused. *)
Lemma for_items_perform draw width height f d : forall w,
  Forall (fun kv => exists ymin xmin ymax xmax,
            scale_box (snd kv) width height =
            Ok [VFloat ymin; VFloat xmin; VFloat ymax; VFloat xmax]) d ->
  exists k, (k <= length d)%nat /\
    (accepted_at draw w (boxes_ops width height f (rng_calls w) d) = true -> k = length d) /\
    for_items (draw_box draw width height f) d w =
    perform draw (boxes_ops width height f (rng_calls w) d) (advance k w).
Proof.
  intros w Hd. revert w.
  induction Hd as [|[label bbox] d (y0 & x0 & y1 & x1 & E) _ IH]; intros w.
  - exists 0%nat. split; [reflexivity|]. split; [reflexivity|].
    cbn [for_items boxes_ops]. now rewrite perform_nil, advance_zero.
  - cbn [for_items boxes_ops snd length] in *. rewrite E.
    set (ops := box_ops f label (color_at (rng_calls w)) y0 x0 y1 x1
                  (fst (label_size f label)) (snd (label_size f label))).
    destruct (accepted_at draw w ops) eqn:Ha.
    + destruct (IH (paint draw ops (advance 1 w))) as (k & Hk & Hall & Ek).
      cbn [paint advance rng_calls] in Hall, Ek.
      rewrite Nat.add_1_r in Hall, Ek.
      exists (S k). split; [lia|]. split.
      * rewrite accepted_at_app, Ha. cbn [andb]. intros H. now rewrite (Hall H).
      * erewrite bind_ok
          by (rewrite (draw_box_run _ _ _ _ _ _ _ _ _ _ _ E); apply perform_accepted, Ha).
        fold ops. rewrite Ek, perform_app.
        erewrite bind_ok by (apply perform_accepted, Ha).
        f_equal. unfold paint, advance. cbn [images rng_calls]. f_equal. lia.
    + exists 1%nat. split; [lia|]. split.
      * rewrite accepted_at_app, Ha. discriminate.
      * rewrite perform_app. unfold mbind, M_bind.
        rewrite (draw_box_run _ _ _ _ _ _ _ _ _ _ _ E). fold ops.
        destruct (perform draw ops (advance 1 w)) as [[[]|e] w1] eqn:Ep; [|reflexivity].
        apply perform_ok in Ep. change (accepted_at draw w ops = true) in Ep. congruence.
Qed.

Lemma for_items_run draw width height f d w :
  Forall (fun kv => exists ymin xmin ymax xmax,
            scale_box (snd kv) width height =
            Ok [VFloat ymin; VFloat xmin; VFloat ymax; VFloat xmax]) d ->
  accepted_at draw w (boxes_ops width height f (rng_calls w) d) = true ->
  for_items (draw_box draw width height f) d w =
  (Ok tt, paint draw (boxes_ops width height f (rng_calls w) d) (advance (length d) w)).
Proof.
  intros Hd Ha.
  destruct (for_items_perform draw width height f d w Hd) as (k & _ & Hk & ->).
  rewrite (Hk Ha). now apply perform_accepted.
Qed.

(** The whole run of [draw_bounding_boxes] when every box scales. *)
Lemma draw_bounding_boxes_perform image d w :
  Forall (fun kv => exists ymin xmin ymax xmax,
            scale_box (snd kv) (fst (size_of image w)) (snd (size_of image w)) =
            Ok [VFloat ymin; VFloat xmin; VFloat ymax; VFloat xmax]) d ->
  exists k, (k <= length d)%nat /\
    (accepted_at image w
       (boxes_ops (fst (size_of image w)) (snd (size_of image w)) (get_font 20)
          (rng_calls w) d) = true -> k = length d) /\
    draw_bounding_boxes image (VDict d) w =
    returning image
      (perform image
         (boxes_ops (fst (size_of image w)) (snd (size_of image w)) (get_font 20)
            (rng_calls w) d)
         (advance k w)).
Proof.
  intros Hd. unfold draw_bounding_boxes.
  assert (Es : image_size image w = (Ok (size_of image w), w)) by reflexivity.
  erewrite bind_ok by exact Es.
  destruct (size_of image w) as [width height]. cbn [fst snd items] in *.
  rewrite bind_lift_ok.
  destruct (for_items_perform image width height (get_font 20) d w Hd) as (k & Hk & Hall & E).
  exists k. split; [exact Hk|]. split; [exact Hall|].
  unfold mbind, M_bind. rewrite E.
  now destruct (perform image _ (advance k w)) as [[[]|e] w1].
Qed.

Lemma draw_bounding_boxes_run image d w :
  Forall (fun kv => exists ymin xmin ymax xmax,
            scale_box (snd kv) (fst (size_of image w)) (snd (size_of image w)) =
            Ok [VFloat ymin; VFloat xmin; VFloat ymax; VFloat xmax]) d ->
  accepted_at image w
    (boxes_ops (fst (size_of image w)) (snd (size_of image w)) (get_font 20)
       (rng_calls w) d) = true ->
  draw_bounding_boxes image (VDict d) w =
  (Ok image,
   paint image
     (boxes_ops (fst (size_of image w)) (snd (size_of image w)) (get_font 20) (rng_calls w) d)
     (advance (length d) w)).
Proof.
  intros Hd Ha.
  destruct (draw_bounding_boxes_perform image d w Hd) as (k & _ & Hk & ->).
  rewrite (Hk Ha), perform_accepted by exact Ha. reflexivity.
Qed.

End Boxes.

(** ** Which objects a computation changes *)

Section Frames.
Context {platform : Platform}.

Lemma touches_bind {A B} l (m : M A) (k : A -> M B) :
  touches_only l m -> (forall a, touches_only l (k a)) -> touches_only l (m ≫= k).
Proof.
  intros Hm Hk w r w' E l' Hl'. unfold mbind, M_bind in E.
  destruct (m w) as [[a|e] w1] eqn:Em.
  - rewrite (Hk a _ _ _ E l' Hl'). apply (Hm _ _ _ Em l' Hl').
  - injection E as <- <-. apply (Hm _ _ _ Em l' Hl').
Qed.

Lemma touches_lift {A} l (r : result A) : touches_only l (lift r).
Proof. intros w r' w' [= <- <-] l' _. reflexivity. Qed.

Lemma touches_ret {A} l (a : A) : touches_only l (mret a : M A).
Proof. intros w r' w' [= <- <-] l' _. reflexivity. Qed.

Lemma touches_draw_call l op : touches_only l (draw_call l op).
Proof.
  intros w r w' E l' Hl'. rewrite draw_call_run in E.
  destruct (refused_at l w op); injection E as <- <-; [reflexivity|].
  cbn. now apply lookup_alter_ne.
Qed.

Lemma touches_color l : touches_only l generate_random_color.
Proof.
  intros w r w' E l' _. rewrite generate_random_color_run in E. now injection E as <- <-.
Qed.

Lemma touches_size l : touches_only l (image_size l).
Proof. intros w r w' [= <- <-] l' _. reflexivity. Qed.

Ltac touches :=
  repeat first
    [ apply touches_lift | apply touches_ret | apply touches_draw_call
    | apply touches_color | apply touches_size
    | apply touches_bind; [|intros ?] ].

Lemma touches_text l text position f tc oc :
  touches_only l (draw_text_with_outline l text position f tc oc).
Proof. unfold draw_text_with_outline. destruct position as [x y]. touches. Qed.

Lemma touches_label l f label color xmin ymin lw lh :
  touches_only l (draw_label l f label color xmin ymin lw lh).
Proof. unfold draw_label. touches. Qed.

Lemma touches_box l width height f label bbox :
  touches_only l (draw_box l width height f label bbox).
Proof.
  unfold draw_box. touches.
  destruct a0 as [|? [|? [|? [|? [|]]]]]; touches.
  destruct (label_size f label). touches; try apply touches_label.
Qed.

Lemma touches_items l (body : str -> value -> M unit) d :
  (forall k v, touches_only l (body k v)) -> touches_only l (for_items body d).
Proof.
  intros Hb. induction d as [|[k v] d IH]; cbn [for_items]; touches; [apply Hb|exact IH].
Qed.

Lemma touches_draw_bounding_boxes l bboxes : touches_only l (draw_bounding_boxes l bboxes).
Proof.
  unfold draw_bounding_boxes. touches. destruct a as [width height]. touches.
  apply touches_items. intros. apply touches_box.
Qed.

(** [draw_bounding_boxes] returns the object it was given. *)
Lemma draw_bounding_boxes_returns image bboxes w r w' :
  draw_bounding_boxes image bboxes w = (Ok r, w') -> r = image.
Proof.
  unfold draw_bounding_boxes, mbind, M_bind. cbn [image_size].
  destruct (from_option im_size (0, 0) (images w !! image)) as [width height].
  destruct (lift (items bboxes) w) as [[its|e] w1]; [|discriminate].
  destruct (for_items _ its w1) as [[[]|e] w2]; [|discriminate].
  now intros [= <- _].
Qed.

End Frames.

(** ** The decoder: statements *)

Lemma extract_strict text v : Json.loads text = Ok v -> extract_bounding_boxes text = Ok v.
Proof. intros E. unfold extract_bounding_boxes. now rewrite E. Qed.

(** In the embedding the decoder returns a value for every text. *)
Lemma extract_total text : exists v, extract_bounding_boxes text = Ok v.
Proof.
  destruct (Json.loads text) as [v|e] eqn:E.
  - exists v. now apply extract_strict.
  - apply JsonFacts.loads_raises in E as E'. subst e.
    rewrite (extract_fallback _ E). eauto.
Qed.

(** A text that is no JSON and holds no match gives the empty dict. *)
Lemma extract_nothing text :
  Json.loads text = Raise JSONDecodeError -> Re.findall pattern text = [] ->
  extract_bounding_boxes text = Ok (VDict []).
Proof. intros E Hm. now rewrite (extract_fallback _ E), Hm. Qed.

Lemma labelled_boxes_set k e d :
  labelled_boxes (VDict d) = true ->
  labelled_boxes (VDict (dict_set k (box_of (entry_groups e)) d)) = true.
Proof.
  cbn [labelled_boxes]. induction d as [|[k' v'] d IH]; intros Hd.
  - reflexivity.
  - cbn [dict_set]. destruct (str_eqb k k'); cbn [forallb] in *.
    + apply andb_prop in Hd as [_ Hd]. now rewrite Hd.
    + apply andb_prop in Hd as [Hv Hd]. now rewrite Hv, (IH Hd).
Qed.

(** What the fallback returns is always a mapping from labels to boxes of
    four integers. *)
Lemma extract_fallback_labelled text :
  Json.loads text = Raise JSONDecodeError ->
  exists d, extract_bounding_boxes text = Ok (VDict d) /\ labelled_boxes (VDict d) = true.
Proof.
  intros E. rewrite (extract_fallback _ E). eexists. split; [reflexivity|].
  unfold dict_of_pairs. pose proof (findall_entries text) as Hm.
  assert (G : forall ms d0, Forall (fun m => exists e, entry_ok e = true /\ m = entry_groups e) ms ->
            labelled_boxes (VDict d0) = true ->
            labelled_boxes (VDict (fold_left (fun d kv => dict_set (fst kv) (snd kv) d)
                                     (pair_of <$> ms) d0)) = true).
  { clear. intros ms d0 Hms. revert d0. induction Hms as [|m ms Hm _ IH]; intros d0 Hd0.
    - exact Hd0.
    - destruct Hm as (e & _ & ->).
      cbn [fmap list_fmap fold_left pair_of fst snd]. apply IH.
      now apply labelled_boxes_set. }
  now apply G.
Qed.

(** An object without [items] is refused before anything is drawn. *)
Lemma draw_bounding_boxes_not_dict {platform : Platform} image bboxes w e :
  items bboxes = Raise e -> draw_bounding_boxes image bboxes w = (Raise e, w).
Proof.
  intros E. unfold draw_bounding_boxes, mbind, M_bind. cbn [image_size].
  destruct (from_option im_size (0, 0) (images w !! image)) as [width height].
  now rewrite E.
Qed.

(** C1. The decoder is meant to return, for every text, a mapping from
    labels to boxes of four numbers.  It does not when the text is JSON of
    another shape: the text [[1, 2, 3]] is returned as the list it
    denotes, which is no mapping, and [draw_bounding_boxes] then raises
    [AttributeError] on it. *)
Theorem extract_returns_any_json_value :
  extract_bounding_boxes (py "[1, 2, 3]") = Ok (VList [VInt 1; VInt 2; VInt 3]) /\
  labelled_boxes (VList [VInt 1; VInt 2; VInt 3]) = false /\
  forall (P : Platform) image w,
    draw_bounding_boxes image (VList [VInt 1; VInt 2; VInt 3]) w = (Raise AttributeError, w).
Proof.
  split; [vm_compute; reflexivity|]. split; [reflexivity|].
  intros P image w. now apply draw_bounding_boxes_not_dict.
Qed.






(** ** The renderer: statements *)

Lemma scale_box_four ymin xmin ymax xmax width height :
  scale_box (VList [ymin; xmin; ymax; xmax]) width height =
  (y0 ← pixel ymin height; x0 ← pixel xmin width;
   y1 ← pixel ymax height; x1 ← pixel xmax width;
   Ok [y0; x0; y1; x1]).
Proof.
  unfold scale_box. cbn [iterate mbind result_bind zip zip_with mapM fst snd].
  destruct (pixel ymin height); [|reflexivity].
  destruct (pixel xmin width); [|reflexivity].
  destruct (pixel ymax height); [|reflexivity].
  destruct (pixel xmax width); reflexivity.
Qed.

Lemma pixel_of_float x dim :
  Z.abs dim < dbl_overflow ->
  pixel (VFloat x) dim =
  Ok (VFloat (SFmul prec emax (SFdiv prec emax x (float_of_Z 1000)) (float_of_Z dim))).
Proof.
  intros Hd. unfold pixel, py_truediv, py_mul, binop. cbn [as_num].
  unfold num_truediv. rewrite int_to_float_small by reflexivity.
  cbn [mbind result_bind]. unfold float_div.
  replace (float_is_zero (float_of_Z 1000)) with false by (vm_compute; reflexivity).
  cbn [fmap result_fmap mbind result_bind of_num as_num num_arith].
  rewrite (int_to_float_small _ Hd). reflexivity.
Qed.

Lemma pixel_of_int n dim :
  Z.abs n < 1000 * dbl_overflow -> Z.abs dim < dbl_overflow ->
  pixel (VInt n) dim =
  Ok (VFloat (SFmul prec emax (SFdiv prec emax (big n) (big 1000)) (float_of_Z dim))).
Proof.
  intros Hb Hd. unfold pixel, py_truediv, py_mul, binop. cbn [as_num].
  unfold num_truediv, int_true_divide. cbn [Z.eqb].
  destruct (Z.eqb_spec n 0) as [->|Hn].
  - cbn [fmap result_fmap mbind result_bind of_num as_num num_arith].
    rewrite (int_to_float_small _ Hd). reflexivity.
  - rewrite (proj2 (Z.leb_gt _ _)) by (change (Z.abs 1000) with 1000; lia).
    cbn [fmap result_fmap mbind result_bind of_num as_num num_arith].
    rewrite (int_to_float_small _ Hd). reflexivity.
Qed.

Lemma draw_bounding_boxes_single {platform : Platform} image w label ymin xmin ymax xmax
    y0 x0 y1 x1 :
  pixel ymin (snd (size_of image w)) = Ok (VFloat y0) ->
  pixel xmin (fst (size_of image w)) = Ok (VFloat x0) ->
  pixel ymax (snd (size_of image w)) = Ok (VFloat y1) ->
  pixel xmax (fst (size_of image w)) = Ok (VFloat x1) ->
  draw_bounding_boxes image (VDict [(label, VList [ymin; xmin; ymax; xmax])]) w =
  returning image
    (perform image
       (box_ops (get_font 20) label (color_at (rng_calls w)) y0 x0 y1 x1
          (fst (label_size (get_font 20) label)) (snd (label_size (get_font 20) label)))
       (advance 1 w)).
Proof.
  intros E0 E1 E2 E3.
  assert (E : scale_box (VList [ymin; xmin; ymax; xmax]) (fst (size_of image w))
                (snd (size_of image w)) = Ok [VFloat y0; VFloat x0; VFloat y1; VFloat x1]).
  { rewrite scale_box_four, E0, E1, E2, E3. reflexivity. }
  unfold draw_bounding_boxes.
  assert (Es : image_size image w = (Ok (size_of image w), w)) by reflexivity.
  erewrite bind_ok by exact Es.
  destruct (size_of image w) as [width height]. cbn [fst snd items] in *.
  rewrite bind_lift_ok. cbn [for_items]. unfold mbind, M_bind.
  rewrite (draw_box_run _ _ _ _ _ _ _ _ _ _ _ E).
  now destruct (perform image _ (advance 1 w)) as [[[]|e] w1].
Qed.

(** C4. Each coordinate of a box is scaled as [coord / 1000 * dim]: the
    quotient by 1000 in binary64, correctly rounded, times the float of
    [dim], where [dim] is the height of the image for the first and third
    coordinate (ymin, ymax) and its width for the second and fourth (xmin,
    xmax).  The renderer makes its calls with these values: first the
    outline from (xmin, ymin) to (xmax, ymax) as scaled, then the plate and
    the texts of the label, up to the first call that Pillow refuses.  The
    box [500, 250, 750, 500] on an image 400 wide and 800 high gives
    ymin = 400, xmin = 100, ymax = 600, xmax = 200, exactly. *)
Theorem scaling_by_image_dimension :
  (forall x dim,
     Z.abs dim < dbl_overflow ->
     pixel (VFloat x) dim =
     Ok (VFloat (SFmul prec emax (SFdiv prec emax x (float_of_Z 1000)) (float_of_Z dim)))) /\
  (forall n dim,
     Z.abs n < 1000 * dbl_overflow -> Z.abs dim < dbl_overflow ->
     pixel (VInt n) dim =
     Ok (VFloat (SFmul prec emax (SFdiv prec emax (big n) (big 1000)) (float_of_Z dim)))) /\
  (forall ymin xmin ymax xmax width height,
     scale_box (VList [ymin; xmin; ymax; xmax]) width height =
     (y0 ← pixel ymin height; x0 ← pixel xmin width;
      y1 ← pixel ymax height; x1 ← pixel xmax width;
      Ok [y0; x0; y1; x1])) /\
  (forall (P : Platform) image w label ymin xmin ymax xmax y0 x0 y1 x1,
     pixel ymin (snd (size_of image w)) = Ok (VFloat y0) ->
     pixel xmin (fst (size_of image w)) = Ok (VFloat x0) ->
     pixel ymax (snd (size_of image w)) = Ok (VFloat y1) ->
     pixel xmax (fst (size_of image w)) = Ok (VFloat x1) ->
     draw_bounding_boxes image (VDict [(label, VList [ymin; xmin; ymax; xmax])]) w =
     returning image
       (perform image
          (Rectangle [VFloat x0; VFloat y0; VFloat x1; VFloat y1] None
             (Some (color_at (rng_calls w))) 3
           :: label_ops (get_font 20) label (color_at (rng_calls w)) x0 y0
                (fst (label_size (get_font 20) label))
                (snd (label_size (get_font 20) label)))
          (advance 1 w))) /\
  scale_box (VList [VInt 500; VInt 250; VInt 750; VInt 500]) 400 800 =
    Ok [VFloat (S754_finite false 7036874417766400 (-44));
        VFloat (S754_finite false 7036874417766400 (-46));
        VFloat (S754_finite false 5277655813324800 (-43));
        VFloat (S754_finite false 7036874417766400 (-45))] /\
  float_integer (S754_finite false 7036874417766400 (-44)) = Some 400 /\
  float_integer (S754_finite false 7036874417766400 (-46)) = Some 100 /\
  float_integer (S754_finite false 5277655813324800 (-43)) = Some 600 /\
  float_integer (S754_finite false 7036874417766400 (-45)) = Some 200.
Proof.
  split; [exact pixel_of_float|]. split; [exact pixel_of_int|].
  split; [exact scale_box_four|]. split.
  - intros P image w label ymin xmin ymax xmax y0 x0 y1 x1. apply draw_bounding_boxes_single.
  - repeat split; vm_compute; reflexivity.
Qed.

Lemma scaling_by_image_dimension_witness :
  draw_bounding_boxes (platform := sample_platform) 0%nat
    (VDict [(lit "cat", VList [VInt 500; VInt 250; VInt 750; VInt 500])]) sample_world =
  (Ok 0%nat,
   paint 0%nat
     (Rectangle
        [VFloat (S754_finite false 7036874417766400 (-46));
         VFloat (S754_finite false 7036874417766400 (-44));
         VFloat (S754_finite false 7036874417766400 (-45));
         VFloat (S754_finite false 5277655813324800 (-43))]
        None (Some (lit "#0000ff")) 3
      :: label_ops DefaultFont (lit "cat") (lit "#0000ff")
           (S754_finite false 7036874417766400 (-46))
           (S754_finite false 7036874417766400 (-44)) 28 21)
     (advance 1 sample_world)).
Proof.
  refine (eq_trans
    (proj1 (proj2 (proj2 (proj2 scaling_by_image_dimension))) sample_platform 0%nat
       sample_world (lit "cat") (VInt 500) (VInt 250) (VInt 750) (VInt 500)
       (S754_finite false 7036874417766400 (-44))
       (S754_finite false 7036874417766400 (-46))
       (S754_finite false 5277655813324800 (-43))
       (S754_finite false 7036874417766400 (-45)) _ _ _ _) _);
    vm_compute; reflexivity.
Defined.

Lemma boxes_ops_outline {platform : Platform} width height f n d i label bbox :
  d !! i = Some (label, bbox) ->
  forall ymin xmin ymax xmax,
    scale_box bbox width height = Ok [VFloat ymin; VFloat xmin; VFloat ymax; VFloat xmax] ->
    Rectangle [VFloat xmin; VFloat ymin; VFloat xmax; VFloat ymax] None
      (Some (color_at (n + i))) 3 ∈ boxes_ops width height f n d.
Proof.
  revert n i. induction d as [|[l b] d IH]; intros n i Hi ymin xmin ymax xmax E; [discriminate|].
  cbn [boxes_ops]. destruct i as [|i].
  - injection Hi as -> ->. rewrite E, Nat.add_0_r. apply elem_of_app. left. left.
  - apply elem_of_app. right. replace (n + S i)%nat with (S n + i)%nat by lia.
    now apply (IH (S n) i Hi).
Qed.

(** C5 as amended.  [draw_bounding_boxes] checks nothing itself.  On an
    image whose sides are below 2 ^ 31 and a mapping from labels to boxes
    of four numbers, each a float or an integer below
    1000 * (2 ^ 1024 - 2 ^ 970) in magnitude, the scaling raises nothing
    and the calls of all boxes are made in order, up to the first one that
    Pillow refuses: the boxes before it are drawn and its exception is
    raised.  The call returns exactly when Pillow takes every call, and then
    every box is drawn.  The outline that belongs to a box is at its scaled
    coordinates as they result, whether the box is in the range 0 to 1000 or
    not and whether it is inverted or not: nothing is clamped, reordered or
    left out. *)
Theorem render_issues_every_box {platform : Platform} image (d : dict) w :
  Z.abs (fst (size_of image w)) < 2 ^ 31 -> Z.abs (snd (size_of image w)) < 2 ^ 31 ->
  forallb (fun kv => box_ok (snd kv)) d = true ->
  let ops :=
    boxes_ops (fst (size_of image w)) (snd (size_of image w)) (get_font 20) (rng_calls w) d in
  (exists k, (k <= length d)%nat /\
     draw_bounding_boxes image (VDict d) w =
     returning image (perform image ops (advance k w))) /\
  (accepted_at image w ops = true ->
   draw_bounding_boxes image (VDict d) w =
   (Ok image, paint image ops (advance (length d) w))) /\
  (forall r w', draw_bounding_boxes image (VDict d) w = (Ok r, w') ->
     accepted_at image w ops = true) /\
  forall i label bbox, d !! i = Some (label, bbox) ->
    exists ymin xmin ymax xmax,
      scale_box bbox (fst (size_of image w)) (snd (size_of image w)) =
        Ok [VFloat ymin; VFloat xmin; VFloat ymax; VFloat xmax] /\
      Rectangle [VFloat xmin; VFloat ymin; VFloat xmax; VFloat ymax] None
        (Some (color_at (rng_calls w + i))) 3 ∈ ops.
Proof.
  intros Hw Hh Hd ops. pose proof dbl_overflow_big as Hbig.
  assert (Hall : Forall (fun kv => exists ymin xmin ymax xmax,
            scale_box (snd kv) (fst (size_of image w)) (snd (size_of image w)) =
            Ok [VFloat ymin; VFloat xmin; VFloat ymax; VFloat xmax]) d).
  { rewrite Forall_forall. intros kv Hkv. rewrite forallb_forall in Hd.
    apply scale_box_ok; [|lia|lia]. apply Hd. now apply list_elem_of_In. }
  destruct (draw_bounding_boxes_perform image d w Hall) as (k & Hk & Hlen & E).
  fold ops in Hlen, E.
  split; [exists k; split; [exact Hk|exact E]|].
  split; [intros Ha; now apply draw_bounding_boxes_run|].
  split.
  - intros r w' Er. rewrite E in Er.
    destruct (perform image ops (advance k w)) as [[[]|e] w1] eqn:Ep; [|discriminate].
    apply perform_ok in Ep. exact Ep.
  - intros i label bbox Hi. rewrite Forall_forall in Hall.
    destruct (Hall (label, bbox)) as (ymin & xmin & ymax & xmax & E').
    { eapply list_elem_of_lookup_2, Hi. }
    exists ymin, xmin, ymax, xmax. split; [exact E'|].
    now apply (boxes_ops_outline _ _ _ _ _ _ _ _ Hi).
Qed.

Lemma render_issues_every_box_witness :
  Z.abs (fst (size_of 0%nat sample_world)) < 2 ^ 31 /\
  Z.abs (snd (size_of 0%nat sample_world)) < 2 ^ 31 /\
  forallb (fun kv => box_ok (snd kv)) outside_boxes = true /\
  accepted_at (platform := sample_platform) 0%nat sample_world
    (boxes_ops (platform := sample_platform) 400 800 DefaultFont 0 outside_boxes) = true /\
  draw_bounding_boxes (platform := sample_platform) 0%nat (VDict outside_boxes) sample_world =
  (Ok 0%nat,
   paint 0%nat (boxes_ops (platform := sample_platform) 400 800 DefaultFont 0 outside_boxes)
     (advance 1 sample_world)).
Proof.
  split; [reflexivity|]. split; [reflexivity|]. split; [reflexivity|].
  split; [vm_compute; reflexivity|].
  apply (proj1 (proj2 (render_issues_every_box (platform := sample_platform) 0%nat
                         outside_boxes sample_world eq_refl eq_refl eq_refl))).
  vm_compute. reflexivity.
Defined.

(** Two mappings from labels to boxes of four numbers on which
    [draw_bounding_boxes] raises.  An integer coordinate too large for a
    float: the scaling raises [OverflowError].  The decoder returns such a
    box for a text that holds the integer.  An inverted box: the scaling
    gives its coordinates as they are and Pillow refuses the outline with
    [ValueError]; nothing is drawn. *)
Lemma render_can_raise :
  extract_bounding_boxes huge_reply =
    Ok (VDict [(lit "a", VList [VInt (10 ^ 400); VInt 0; VInt 0; VInt 0])]) /\
  labelled_boxes (VDict [(lit "a", VList [VInt (10 ^ 400); VInt 0; VInt 0; VInt 0])]) = true /\
  draw_bounding_boxes (platform := sample_platform) 0%nat
    (VDict [(lit "a", VList [VInt (10 ^ 400); VInt 0; VInt 0; VInt 0])]) sample_world =
  (Raise OverflowError, advance 1 sample_world) /\
  labelled_boxes (VDict inverted_boxes) = true /\
  draw_bounding_boxes (platform := sample_platform) 0%nat (VDict inverted_boxes) sample_world =
  (Raise ValueError, advance 1 sample_world).
Proof. repeat split; vm_compute; reflexivity. Qed.

(** C6. On the empty mapping [draw_bounding_boxes] returns the image it was
    given and leaves the world as it was: nothing is drawn. *)
Theorem render_empty_mapping {platform : Platform} image w :
  draw_bounding_boxes image (VDict []) w = (Ok image, w).
Proof.
  unfold draw_bounding_boxes, mbind, M_bind. cbn [image_size].
  destruct (from_option im_size (0, 0) (images w !! image)) as [width height].
  reflexivity.
Qed.

(** [draw_bounding_boxes] draws on the image object that it is given and
    returns that same object. *)
Lemma render_draws_in_place :
  exists w',
    draw_bounding_boxes (platform := sample_platform) 0%nat
      (VDict [(lit "cat", VList [VInt 500; VInt 250; VInt 750; VInt 500])]) sample_world =
    (Ok 0%nat, w') /\
    images w' !! 0%nat <> images sample_world !! 0%nat.
Proof.
  eexists. split; [vm_compute; reflexivity|]. vm_compute. discriminate.
Qed.

(** C7 as amended.  [draw_bounding_boxes] allocates nothing: it changes no
    image but the one it is given and returns that one.  The copy is made
    by the caller: in [main] the boxes are drawn on a new object, the
    resized image is left as it was, whatever happens, and the annotated
    image is another object than the resized one. *)
Theorem copy_is_made_by_caller {platform : Platform} :
  (forall image bboxes w r w',
     draw_bounding_boxes image bboxes w = (r, w') ->
     (forall l, r = Ok l -> l = image) /\
     (forall l, l <> image -> images w' !! l = images w !! l)) /\
  (forall resized_image text w r w',
     is_Some (images w !! resized_image) ->
     main_annotate resized_image text w = (r, w') ->
     images w' !! resized_image = images w !! resized_image /\
     (forall l, r = Ok (Some l) -> l <> resized_image /\ images w !! l = None)).
Proof.
  split.
  - intros image bboxes w r w' E. split.
    + intros l ->. eapply draw_bounding_boxes_returns, E.
    + intros l Hl. eapply touches_draw_bounding_boxes; eauto.
  - intros resized text w r w' Hsome E. unfold main_annotate in E.
    destruct (extract_bounding_boxes text) as [bboxes|e].
    2:{ rewrite bind_lift_raise in E. injection E as <- <-. split; [reflexivity|discriminate]. }
    rewrite bind_lift_ok in E. destruct (truthy bboxes).
    2:{ injection E as <- <-. split; [reflexivity|discriminate]. }
    set (l := fresh (dom (images w))) in *.
    assert (Hfresh : images w !! l = None).
    { apply not_elem_of_dom. apply is_fresh. }
    assert (Hne : l <> resized).
    { intros ->. rewrite Hfresh in Hsome. now destruct Hsome. }
    unfold mbind, M_bind in E. cbn [image_copy] in E. fold l in E.
    destruct Hsome as [im Him]. rewrite Him in E.
    destruct (draw_bounding_boxes l bboxes _) as [[r1|e] w1] eqn:Ed.
    + injection E as <- <-.
      pose proof (touches_draw_bounding_boxes l bboxes _ _ _ Ed resized) as Hframe.
      apply draw_bounding_boxes_returns in Ed as ->.
      split.
      * rewrite Hframe by congruence. cbn [images]. rewrite lookup_insert_ne by congruence.
        reflexivity.
      * intros l' [= <-]. split; [congruence|exact Hfresh].
    + injection E as <- <-.
      pose proof (touches_draw_bounding_boxes l bboxes _ _ _ Ed resized) as Hframe.
      split; [|discriminate].
      rewrite Hframe by congruence. cbn [images]. rewrite lookup_insert_ne by congruence.
      reflexivity.
Qed.

Lemma copy_is_made_by_caller_witness :
  is_Some (images sample_world !! 0%nat) /\
  exists w',
    main_annotate (platform := sample_platform) 0%nat (py "{'cat': [100, 200, 300, 400]}")
      sample_world = (Ok (Some 1%nat), w') /\
    images w' !! 0%nat = images sample_world !! 0%nat /\
    1%nat <> 0%nat.
Proof.
  split; [eexists; vm_compute; reflexivity|].
  eexists. split; [vm_compute; reflexivity|].
  split.
  - eapply (proj2 (copy_is_made_by_caller (platform := sample_platform)) 0%nat
              (py "{'cat': [100, 200, 300, 400]}") sample_world).
    + eexists. vm_compute. reflexivity.
    + vm_compute. reflexivity.
  - discriminate.
Defined.




(** An inverted box: its scaled coordinates are floats, Pillow refuses the
    outline, and neither the plate nor the label is drawn. *)
Lemma inverted_box_draws_no_plate :
  (exists ymin xmin ymax xmax,
     scale_box (VList [VInt 900; VInt 1200; VInt 100; VInt (-5)]) 400 800 =
       Ok [VFloat ymin; VFloat xmin; VFloat ymax; VFloat xmax] /\
     float_integer <$> [ymin; xmin; ymax; xmax] = [Some 720; Some 480; Some 80; Some (-2)]) /\
  draw_box (platform := sample_platform) 0%nat 400 800 DefaultFont (lit "a")
    (VList [VInt 900; VInt 1200; VInt 100; VInt (-5)]) sample_world =
  (Raise ValueError, advance 1 sample_world).
Proof.
  split; [|vm_compute; reflexivity].
  eexists _, _, _, _. split; vm_compute; reflexivity.
Qed.

(** C9 as amended.  For a box whose scaled coordinates are
    [ymin, xmin, ymax, xmax], the body of the loop makes these calls, in
    this order, up to the first one that Pillow refuses: the outline; the
    plate, filled with the colour of the box, from [(xmin, ymin)] to
    [(xmin + label_width, ymin + label_height)]; the label in black at
    the four diagonal neighbours of [(xmin + 5, ymin + 5)]; the label in
    white at [(xmin + 5, ymin + 5)].  When Pillow takes them all, all seven
    are drawn; when it refuses the outline, nothing is drawn and its
    exception is raised. *)
Theorem label_plate_and_outlined_text {platform : Platform}
    draw width height f label bbox w ymin xmin ymax xmax :
  scale_box bbox width height = Ok [VFloat ymin; VFloat xmin; VFloat ymax; VFloat xmax] ->
  let color := color_at (rng_calls w) in
  let label_width := fst (label_size f label) in
  let label_height := snd (label_size f label) in
  let x := fadd xmin 5 in
  let y := fadd ymin 5 in
  let outline :=
    Rectangle [VFloat xmin; VFloat ymin; VFloat xmax; VFloat ymax] None (Some color) 3 in
  let calls :=
    [outline;
     Rectangle [VFloat xmin; VFloat ymin;
                VFloat (fadd xmin label_width); VFloat (fadd ymin label_height)]
       (Some color) None 1;
     Text (VFloat (fsub x 1), VFloat (fsub y 1)) label f (lit "black");
     Text (VFloat (fadd x 1), VFloat (fsub y 1)) label f (lit "black");
     Text (VFloat (fsub x 1), VFloat (fadd y 1)) label f (lit "black");
     Text (VFloat (fadd x 1), VFloat (fadd y 1)) label f (lit "black");
     Text (VFloat x, VFloat y) label f (lit "white")] in
  draw_box draw width height f label bbox w = perform draw calls (advance 1 w) /\
  (accepted_at draw w calls = true ->
   draw_box draw width height f label bbox w = (Ok tt, paint draw calls (advance 1 w))) /\
  (forall e, refused_at draw w outline = Some e ->
   draw_box draw width height f label bbox w = (Raise e, advance 1 w)).
Proof.
  intros E. cbv zeta. rewrite (draw_box_run _ _ _ _ _ _ _ _ _ _ _ E).
  split; [reflexivity|]. split.
  - intros Ha. now apply perform_accepted.
  - intros e He. unfold box_ops. rewrite perform_cons.
    change (refused_at draw (advance 1 w) ?o) with (refused_at draw w o). now rewrite He.
Qed.

Lemma label_plate_and_outlined_text_witness :
  scale_box (VList [VInt 500; VInt 250; VInt 750; VInt 500]) 400 800 =
    Ok [VFloat (S754_finite false 7036874417766400 (-44));
        VFloat (S754_finite false 7036874417766400 (-46));
        VFloat (S754_finite false 5277655813324800 (-43));
        VFloat (S754_finite false 7036874417766400 (-45))] /\
  draw_box (platform := sample_platform) 0%nat 400 800 DefaultFont (lit "cat")
    (VList [VInt 500; VInt 250; VInt 750; VInt 500]) sample_world =
  (Ok tt,
   paint 0%nat
     [Rectangle [VFloat (S754_finite false 7036874417766400 (-46));
                 VFloat (S754_finite false 7036874417766400 (-44));
                 VFloat (S754_finite false 7036874417766400 (-45));
                 VFloat (S754_finite false 5277655813324800 (-43))]
        None (Some (lit "#0000ff")) 3;
      Rectangle [VFloat (S754_finite false 7036874417766400 (-46));
                 VFloat (S754_finite false 7036874417766400 (-44));
                 VFloat (S754_finite false 4503599627370496 (-45));
                 VFloat (S754_finite false 7406310324699136 (-44))]
        (Some (lit "#0000ff")) None 1;
      Text (VFloat (S754_finite false 7318349394477056 (-46)),
            VFloat (S754_finite false 7107243161944064 (-44)))
        (lit "cat") DefaultFont (lit "black");
      Text (VFloat (S754_finite false 7459086882832384 (-46)),
            VFloat (S754_finite false 7107243161944064 (-44)))
        (lit "cat") DefaultFont (lit "black");
      Text (VFloat (S754_finite false 7318349394477056 (-46)),
            VFloat (S754_finite false 7142427534032896 (-44)))
        (lit "cat") DefaultFont (lit "black");
      Text (VFloat (S754_finite false 7459086882832384 (-46)),
            VFloat (S754_finite false 7142427534032896 (-44)))
        (lit "cat") DefaultFont (lit "black");
      Text (VFloat (S754_finite false 7388718138654720 (-46)),
            VFloat (S754_finite false 7124835347988480 (-44)))
        (lit "cat") DefaultFont (lit "white")]
     (advance 1 sample_world)) /\
  float_integer <$>
    [S754_finite false 7036874417766400 (-46); S754_finite false 7036874417766400 (-44);
     S754_finite false 7036874417766400 (-45); S754_finite false 5277655813324800 (-43);
     S754_finite false 4503599627370496 (-45); S754_finite false 7406310324699136 (-44);
     S754_finite false 7318349394477056 (-46); S754_finite false 7388718138654720 (-46);
     S754_finite false 7459086882832384 (-46); S754_finite false 7107243161944064 (-44);
     S754_finite false 7124835347988480 (-44); S754_finite false 7142427534032896 (-44)] =
    [Some 100; Some 400; Some 200; Some 600; Some 128; Some 421;
     Some 104; Some 105; Some 106; Some 404; Some 405; Some 406].
Proof.
  split; [vm_compute; reflexivity|]. split; [|vm_compute; reflexivity].
  refine (eq_trans
    (proj1 (proj2 (label_plate_and_outlined_text (platform := sample_platform) 0%nat 400 800
       DefaultFont (lit "cat") (VList [VInt 500; VInt 250; VInt 750; VInt 500]) sample_world
       (S754_finite false 7036874417766400 (-44)) (S754_finite false 7036874417766400 (-46))
       (S754_finite false 5277655813324800 (-43)) (S754_finite false 7036874417766400 (-45))
       _)) _) _);
    vm_compute; reflexivity.
Defined.

(** C10. [draw_bounding_boxes] and its variant without the step that
    widens [xmax] and [ymax] do the same on every image, every object
    passed as boxes and every world: the same result or exception, the
    same commands drawn on the same image, the same numbers taken from the
    generator. *)
Theorem expansion_step_has_no_effect {platform : Platform} image bboxes w :
  draw_bounding_boxes image bboxes w = draw_bounding_boxes_no_expand image bboxes w.
Proof.
  unfold draw_bounding_boxes, draw_bounding_boxes_no_expand, mbind, M_bind.
  destruct (image_size image w) as [[[width height]|e] w1]; [|reflexivity].
  destruct (lift (items bboxes) w1) as [[its|e] w2]; [|reflexivity].
  rewrite (for_items_ext (draw_box image width height (get_font 20))
             (draw_box_no_expand image width height (get_font 20))); [reflexivity|].
  intros. apply draw_box_no_expand_eq.
Qed.

(** * The remaining code: resizing, colours and the run of [main] *)

(** ** Division of integers and the integer part of the quotient *)

Lemma digits2_pos_bounds p :
  2 ^ (Zpos (digits2_pos p) - 1) <= Zpos p < 2 ^ Zpos (digits2_pos p).
Proof.
  induction p as [p IH|p IH|]; cbn [digits2_pos].
  - rewrite Pos2Z.inj_succ, Z.pow_succ_r by lia.
    replace (Z.succ (Zpos (digits2_pos p)) - 1) with (Z.succ (Zpos (digits2_pos p) - 1)) by lia.
    rewrite Z.pow_succ_r by lia. lia.
  - rewrite Pos2Z.inj_succ, Z.pow_succ_r by lia.
    replace (Z.succ (Zpos (digits2_pos p)) - 1) with (Z.succ (Zpos (digits2_pos p) - 1)) by lia.
    rewrite Z.pow_succ_r by lia. lia.
  - cbn. lia.
Qed.

Lemma Zdigits2_bounds x :
  0 < x -> 2 ^ (Zdigits2 x - 1) <= x < 2 ^ Zdigits2 x /\ 0 < Zdigits2 x.
Proof.
  destruct x as [|p|p]; try lia. intros _. cbn [Zdigits2].
  split; [apply digits2_pos_bounds|lia].
Qed.

(** The number of binary digits of a number between two powers of two. *)
Lemma Zdigits2_between x lo hi :
  0 <= lo -> 2 ^ lo <= x < 2 ^ hi -> lo < Zdigits2 x <= hi.
Proof.
  intros Hlo [H1 H2].
  assert (0 < x) by (pose proof (Z.pow_pos_nonneg 2 lo); lia).
  destruct (Zdigits2_bounds x) as [[H3 H4] H5]; [lia|].
  split.
  - apply (Z.pow_lt_mono_r_iff 2); lia.
  - destruct (Z_le_gt_dec (Zdigits2 x) hi) as [|Hgt]; [lia|].
    assert (2 ^ hi <= 2 ^ (Zdigits2 x - 1)) by (apply Z.pow_le_mono_r; lia). lia.
Qed.

Lemma fexp_normal d e :
  -1074 <= d + e - 53 -> fexp prec emax (d + e) - e = d - 53.
Proof. unfold fexp, SpecFloat.emin, prec, emax. lia. Qed.

(** The second shift of [binary_round_aux]: a mantissa that the rounding
    carried to [2 ^ 53] loses its last digit, another one stays. *)
Lemma shr_fexp_carry m e :
  2 ^ 52 <= m <= 2 ^ 53 -> -1074 <= e ->
  exists (m' : positive) e',
    shr_fexp prec emax m e loc_Exact = (Build_shr_record (Zpos m') false false, e') /\
    e <= e' <= e + 1 /\ Zpos m' * 2 ^ (e' - e) = m.
Proof.
  intros Hm He. unfold shr_fexp.
  destruct (Z.eq_dec m (2 ^ 53)) as [->|Hne].
  - rewrite fexp_normal by (change (Zdigits2 (2 ^ 53)) with 54; lia).
    change (Zdigits2 (2 ^ 53) - 53) with 1.
    exists (2 ^ 52)%positive, (e + 1). split; [reflexivity|]. split; [lia|].
    replace (e + 1 - e) with 1 by lia. reflexivity.
  - assert (Hd : Zdigits2 m = 53).
    { pose proof (Zdigits2_between m 52 53). lia. }
    rewrite fexp_normal by lia. rewrite Hd. cbn [Z.sub Z.add Z.opp Z.pos_sub shr].
    destruct m as [|p|p]; try lia.
    exists p, e. split; [reflexivity|]. split; [lia|].
    rewrite Z.sub_diag. lia.
Qed.

(** The first shift of [binary_round_aux] and the rounding to nearest, ties
    to even, of a quotient of 53 or 54 digits: [k] digits are dropped, and
    a mantissa that drops a digit is rounded up only when that digit is
    one. *)
Lemma shr_fexp_round q e loc :
  2 ^ 52 <= q < 2 ^ 54 -> -1074 <= e ->
  exists mrs k,
    shr_fexp prec emax q e loc = (mrs, e + k) /\
    let m1 := round_nearest_even (shr_m mrs) (loc_of_shr_record mrs) in
    2 ^ 52 <= m1 <= 2 ^ 53 /\
    ((k = 0 /\ (m1 = q \/ m1 = q + 1)) \/
     (k = 1 /\ (m1 = q / 2 \/ m1 = q / 2 + 1 /\ Z.odd q = true))).
Proof.
  intros Hq He. unfold shr_fexp.
  assert (Hd : Zdigits2 q = 53 \/ Zdigits2 q = 54).
  { pose proof (Zdigits2_between q 52 54). lia. }
  rewrite fexp_normal by lia.
  destruct Hd as [Hd|Hd]; rewrite Hd.
  - assert (q < 2 ^ 53).
    { destruct (Zdigits2_bounds q) as [[_ H] _]; [lia|]. now rewrite Hd in H. }
    exists (shr_record_of_loc q loc), 0. cbn [Z.sub Z.add Z.opp Z.pos_sub shr].
    split; [now rewrite Z.add_0_r|]. cbn zeta.
    destruct loc as [|[| |]];
      cbn [shr_record_of_loc shr_m loc_of_shr_record round_nearest_even];
      try destruct (Z.even q); (split; [lia|]); left; auto.
  - assert (2 ^ 53 <= q).
    { destruct (Zdigits2_bounds q) as [[H _] _]; [lia|]. now rewrite Hd in H. }
    exists (shr_1 (shr_record_of_loc q loc)), 1.
    split; [reflexivity|]. cbn zeta.
    destruct q as [|p|p]; try lia.
    destruct p as [p|p|].
    + assert (Zpos p~1 / 2 = Zpos p) as ->
        by (symmetry; apply (Z.div_unique _ _ _ 1); lia).
      assert (2 ^ 52 <= Zpos p < 2 ^ 53) by lia.
      destruct loc as [|[| |]];
        cbn [shr_record_of_loc shr_1 orb shr_m loc_of_shr_record round_nearest_even];
        try destruct (Z.even (Zpos p)); (split; [lia|]); right; (split; [reflexivity|]);
        auto.
    + assert (Zpos p~0 / 2 = Zpos p) as ->
        by (symmetry; apply (Z.div_unique _ _ _ 0); lia).
      assert (2 ^ 52 <= Zpos p < 2 ^ 53) by lia.
      destruct loc as [|[| |]];
        cbn [shr_record_of_loc shr_1 orb shr_m loc_of_shr_record round_nearest_even];
        (split; [lia|]); right; (split; [reflexivity|]); auto.
    + lia.
Qed.

Lemma integer_part_between (m e n : Z) :
  e <= 0 -> n * 2 ^ (- e) <= m < (n + 1) * 2 ^ (- e) ->
  (if 0 <=? e then m * 2 ^ e else m / 2 ^ (- e)) = n.
Proof.
  intros He Hm. destruct (Z.leb_spec 0 e).
  - assert (e = 0) as -> by lia. cbn in *. lia.
  - symmetry. apply (Z.div_unique _ _ _ (m - n * 2 ^ (- e))); lia.
Qed.

Lemma shiftl_or_zero (m s : Z) :
  0 <= s ->
  match s with
  | Zpos _ => Z.shiftl m s
  | Z0 => m
  | Zneg _ => 0
  end = m * 2 ^ s.
Proof.
  intros Hs. destruct s as [|p|p]; try lia.
  now rewrite Z.shiftl_mul_pow2.
Qed.
(** Arithmetic of a quotient that is scaled by [X], for the proof below. *)
Lemma quotient_between b n t q r X :
  0 < b -> 0 <= t < b -> 0 <= r < b -> 0 < X ->
  (b * n + t) * X = b * q + r -> n * X <= q < (n + 1) * X.
Proof.
  intros Hb Ht Hr HX H.
  assert (H1 : b * (n * X) + t * X = b * q + r) by (rewrite <- H; ring).
  assert (H2 : 0 <= t * X) by (apply Z.mul_nonneg_nonneg; lia).
  assert (H3 : t * X <= (b - 1) * X) by (apply Z.mul_le_mono_nonneg_r; lia).
  assert (H4 : (b - 1) * X = b * X - X) by ring.
  split.
  - assert (b * (n * X) < b * (q + 1)) by (rewrite Z.mul_add_distr_l; lia).
    apply Z.mul_lt_mono_pos_l in H0; lia.
  - assert (b * q < b * ((n + 1) * X)).
    { replace (b * ((n + 1) * X)) with (b * (n * X) + b * X) by ring. lia. }
    apply Z.mul_lt_mono_pos_l in H0; lia.
Qed.

Lemma round_up_below b n t q r X :
  0 < b -> 0 <= t < b -> 0 <= r < b -> b < X ->
  (b * n + t) * X = b * q + r -> q + 1 <> (n + 1) * X.
Proof.
  intros Hb Ht Hr HX H Hq.
  assert (H1 : b * (n * X) + t * X = b * q + r) by (rewrite <- H; ring).
  assert (H3 : t * X <= (b - 1) * X) by (apply Z.mul_le_mono_nonneg_r; lia).
  assert (H4 : (b - 1) * X = b * X - X) by ring.
  assert (H5 : b * (q + 1) = b * (n * X) + b * X) by (rewrite Hq; ring).
  rewrite Z.mul_add_distr_l in H5. lia.
Qed.

Lemma cancel_between n Y J m :
  0 < J -> n * (Y * J) <= m * J < (n + 1) * (Y * J) -> n * Y <= m < (n + 1) * Y.
Proof.
  intros HJ [H1 H2].
  replace (n * (Y * J)) with (n * Y * J) in H1 by ring.
  replace ((n + 1) * (Y * J)) with ((n + 1) * Y * J) in H2 by ring.
  split.
  - now apply Z.mul_le_mono_pos_r in H1.
  - now apply Z.mul_lt_mono_pos_r in H2.
Qed.

Lemma half_between n U q :
  n * (2 * U) <= q < (n + 1) * (2 * U) -> n * U <= q / 2 < (n + 1) * U.
Proof. intros H. pose proof (Z_div_mod_eq_full q 2). pose proof (Z.mod_pos_bound q 2). lia. Qed.

Lemma half_up_between n U q :
  n * (2 * U) <= q < (n + 1) * (2 * U) -> q + 1 <> (n + 1) * (2 * U) -> Z.odd q = true ->
  n * U <= q / 2 + 1 < (n + 1) * U.
Proof.
  intros H Hne Hodd. pose proof (Zmod_odd q) as Hmo. rewrite Hodd in Hmo.
  pose proof (Z_div_mod_eq_full q 2). lia.
Qed.

(** The quotient of two integers below [2 ^ 52], rounded to a float and cut
    to its integer part, is the quotient of the integer division: the
    rounding never reaches the next integer. *)
Lemma SFdiv_integer_part a b :
  0 < a < 2 ^ 52 -> 0 < b < 2 ^ 52 ->
  float_to_int (SFdiv prec emax (big a) (big b)) = Ok (a / b).
Proof.
  intros Ha Hb.
  destruct a as [|pa|pa]; try lia. destruct b as [|pb|pb]; try lia.
  cbn [big SFdiv xorb]. unfold SFdiv_core_binary. cbv zeta.
  set (a := Zpos pa) in *. set (b := Zpos pb) in *.
  destruct (Zdigits2_bounds a) as [[Ha1 Ha2] Ha3]; [lia|].
  destruct (Zdigits2_bounds b) as [[Hb1 Hb2] Hb3]; [lia|].
  assert (Hda : Zdigits2 a <= 52) by (pose proof (Zdigits2_between a 0 52); lia).
  assert (Hdb : Zdigits2 b <= 52) by (pose proof (Zdigits2_between b 0 52); lia).
  set (d1 := Zdigits2 a) in *. set (d2 := Zdigits2 b) in *.
  assert (HE : Z.min (fexp prec emax (d1 + 0 - (d2 + 0))) (0 - 0) = d1 - d2 - 53)
    by (unfold fexp, SpecFloat.emin, prec, emax; lia).
  rewrite HE.
  replace (0 - 0 - (d1 - d2 - 53)) with (53 + d2 - d1) by lia.
  set (s := 53 + d2 - d1).
  rewrite shiftl_or_zero by lia.
  set (X := 2 ^ s).
  destruct (Z.div_eucl (a * X) b) as [q r] eqn:Hdiv.
  pose proof (Z_div_mod (a * X) b ltac:(lia)) as Hqr. rewrite Hdiv in Hqr.
  destruct Hqr as [Hqr Hr].
  assert (HX : 0 < X) by (apply Z.pow_pos_nonneg; lia).
  assert (HX1 : X * 2 ^ (d1 - 1) = 2 ^ 52 * 2 ^ d2).
  { unfold X. rewrite <- !Z.pow_add_r by lia. f_equal. lia. }
  assert (HX2 : X * 2 ^ d1 = 2 ^ 54 * 2 ^ (d2 - 1)).
  { unfold X. rewrite <- !Z.pow_add_r by lia. f_equal. lia. }
  assert (HXb : 2 * b < X).
  { assert (X = 2 ^ (52 - d1) * (2 * 2 ^ d2)) as ->.
    { unfold X. rewrite <- Z.pow_succ_r, <- Z.pow_add_r by lia. f_equal. lia. }
    assert (1 <= 2 ^ (52 - d1)) by (pose proof (Z.pow_pos_nonneg 2 (52 - d1)); lia).
    nia. }
  assert (Hq : 2 ^ 52 <= q < 2 ^ 54).
  { split.
    - assert (2 ^ 52 * b < b * (q + 1)) by nia.
      assert (2 ^ 52 < q + 1) by nia. lia.
    - assert (b * q < 2 ^ 54 * b) by nia. nia. }
  set (E := d1 - d2 - 53) in *.
  unfold binary_round_aux.
  destruct (shr_fexp_round q E (new_location b r) Hq ltac:(lia)) as (mrs & k & Hs1 & Hrest).
  cbv zeta in Hrest. destruct Hrest as [Hm1 Hcase].
  rewrite Hs1.
  set (m1 := round_nearest_even (shr_m mrs) (loc_of_shr_record mrs)) in *.
  assert (Hk : k = 0 \/ k = 1) by (destruct Hcase as [[-> _]|[-> _]]; auto).
  destruct (shr_fexp_carry m1 (E + k) Hm1 ltac:(lia)) as (m' & e' & Hs2 & He' & Hm').
  rewrite Hs2. cbn [shr_m].
  assert ((e' <=? emax - prec) = true) as -> by (apply Z.leb_le; unfold emax, prec; lia).
  cbn [float_to_int cond_Zopp]. f_equal. apply integer_part_between; [lia|].
  set (n := a / b).
  assert (Hn : a = b * n + (a mod b)) by (apply Z_div_mod_eq_full).
  pose proof (Z.mod_pos_bound a b ltac:(lia)) as Ht.
  set (t := a mod b) in *.
  set (Y := 2 ^ (- e')).
  set (J := 2 ^ (e' - (E + k))) in *.
  assert (HJ : 0 < J) by (apply Z.pow_pos_nonneg; lia).
  assert (HXY : X = Y * J * 2 ^ k).
  { unfold X, Y, J. rewrite <- !Z.pow_add_r by lia. f_equal. lia. }
  rewrite Hn in Hqr.
  pose proof (quotient_between b n t q r X ltac:(lia) Ht Hr HX Hqr) as Hbetween.
  pose proof (round_up_below b n t q r X ltac:(lia) Ht Hr ltac:(lia) Hqr) as Hbelow.
  apply (cancel_between n Y J (Zpos m') HJ). rewrite Hm'.
  clearbody X Y J n t m1 E a b d1 d2 s. clear - Hcase HXY Hbetween Hbelow.
  destruct Hcase as [[-> Hc]|[-> Hc]].
  - rewrite Z.pow_0_r, Z.mul_1_r in HXY. subst X.
    destruct Hc as [->| ->]; lia.
  - rewrite Z.pow_1_r in HXY.
    replace (Y * J * 2) with (2 * (Y * J)) in HXY by ring. subst X.
    destruct Hc as [->|[-> Hodd]].
    + now apply half_between.
    + now apply half_up_between.
Qed.

(** ** [resize_image] *)

Lemma int_true_divide_integer_part a b :
  0 <= a < 2 ^ 52 -> 0 < b < 2 ^ 52 ->
  exists q, int_true_divide a b = Ok q /\ float_to_int q = Ok (a / b).
Proof.
  intros Ha Hb. unfold int_true_divide.
  destruct (Z.eqb_spec b 0) as [|_]; [lia|].
  destruct (Z.eqb_spec a 0) as [->|Hne]; [eexists; split; reflexivity|].
  assert (2 ^ 52 < dbl_overflow) by reflexivity.
  destruct (Z.leb_spec (dbl_overflow * Z.abs b) (Z.abs a)) as [Hle|_]; [nia|].
  eexists. split; [reflexivity|]. apply SFdiv_integer_part; lia.
Qed.

(** The three ways through [resize_image], with the integer quotient in the
    place of the float division. *)
Lemma resize_image_cases width height max_size :
  0 <= width < 2 ^ 32 -> 0 <= height < 2 ^ 32 -> 0 <= max_size <= 2 ^ 20 ->
  (height < width /\ max_size < width /\
   resize_image (width, height) max_size = Ok (max_size, height * max_size / width)) \/
  (width <= height /\ max_size < height /\
   resize_image (width, height) max_size = Ok (width * max_size / height, max_size)) \/
  (width <= max_size /\ height <= max_size /\
   resize_image (width, height) max_size = Ok (width, height)).
Proof.
  intros Hw Hh Hm. unfold resize_image.
  destruct (Z.ltb_spec height width).
  - destruct (Z.ltb_spec max_size width); [left|right; right; split; [lia|split; [lia|auto]]].
    destruct (int_true_divide_integer_part (height * max_size) width) as (q & -> & E);
      [nia|lia|].
    cbn [mbind result_bind]. now rewrite E.
  - destruct (Z.ltb_spec max_size height);
      [right; left|right; right; split; [lia|split; [lia|auto]]].
    destruct (int_true_divide_integer_part (width * max_size) height) as (q & -> & E);
      [nia|lia|].
    cbn [mbind result_bind]. now rewrite E.
Qed.

Lemma quotient_within a b c : 0 <= a -> 0 <= c < b -> a <= b -> 0 <= a * c / b <= Z.min a c.
Proof.
  intros Ha Hc Hab. split; [apply Z.div_pos; nia|].
  apply Z.min_glb; apply Z.div_le_upper_bound; nia.
Qed.

Lemma resize_image_within width height max_size :
  0 <= width < 2 ^ 32 -> 0 <= height < 2 ^ 32 -> 0 <= max_size <= 2 ^ 20 ->
  exists width' height',
    resize_image (width, height) max_size = Ok (width', height') /\
    0 <= width' <= Z.min width max_size /\ 0 <= height' <= Z.min height max_size.
Proof.
  intros Hw Hh Hm.
  destruct (resize_image_cases width height max_size Hw Hh Hm)
    as [(H1 & H2 & ->)|[(H1 & H2 & ->)|(H1 & H2 & ->)]]; eexists _, _; (split; [reflexivity|]).
  - pose proof (quotient_within height width max_size). lia.
  - pose proof (quotient_within width height max_size). lia.
  - lia.
Qed.

(** X1. For an image with sides below [2 ^ 32] and a bound of at most
    [2 ^ 20], the size that [resize_image] computes and passes to
    [image.resize] is exact: the float division with [int] raises nothing
    and gives the integer quotient, so the longer side, when it exceeds
    [max_size], becomes [max_size], and the other one becomes
    [side * max_size // longer]; the size of an image within the bound is
    passed as it is.  What [image.resize] does with the size, which can
    have a side of 0, is not part of the statement. *)
Theorem resize_image_exact width height max_size :
  0 <= width < 2 ^ 32 -> 0 <= height < 2 ^ 32 -> 0 <= max_size <= 2 ^ 20 ->
  resize_image (width, height) max_size =
  Ok (if height <? width then
        if max_size <? width then (max_size, height * max_size / width) else (width, height)
      else
        if max_size <? height then (width * max_size / height, max_size) else (width, height)).
Proof.
  intros Hw Hh Hm.
  destruct (resize_image_cases width height max_size Hw Hh Hm)
    as [(H1 & H2 & ->)|[(H1 & H2 & ->)|(H1 & H2 & ->)]].
  - now rewrite (proj2 (Z.ltb_lt _ _) H1), (proj2 (Z.ltb_lt _ _) H2).
  - now rewrite (proj2 (Z.ltb_ge _ _) H1), (proj2 (Z.ltb_lt _ _) H2).
  - destruct (Z.ltb_spec height width).
    + now rewrite (proj2 (Z.ltb_ge _ _) H1).
    + now rewrite (proj2 (Z.ltb_ge _ _) H2).
Qed.

Lemma resize_image_exact_witness :
  resize_image (1920, 1080) 800 = Ok (800, 450).
Proof.
  refine (eq_trans (resize_image_exact 1920 1080 800 _ _ _) _); [lia..|reflexivity].
Defined.

(** X2. Under the same bounds the new size lies within [max_size] on both
    sides, is larger than the old one on neither side, and its longer side
    is the old longer side or [max_size], whichever is smaller. *)
Theorem resize_image_fits width height max_size :
  0 <= width < 2 ^ 32 -> 0 <= height < 2 ^ 32 -> 0 <= max_size <= 2 ^ 20 ->
  exists width' height',
    resize_image (width, height) max_size = Ok (width', height') /\
    0 <= width' <= Z.min width max_size /\
    0 <= height' <= Z.min height max_size /\
    Z.max width' height' = Z.min (Z.max width height) max_size.
Proof.
  intros Hw Hh Hm.
  destruct (resize_image_cases width height max_size Hw Hh Hm)
    as [(H1 & H2 & ->)|[(H1 & H2 & ->)|(H1 & H2 & ->)]]; eexists _, _; (split; [reflexivity|]).
  - pose proof (quotient_within height width max_size). lia.
  - pose proof (quotient_within width height max_size). lia.
  - lia.
Qed.

Lemma resize_image_fits_witness :
  exists width' height',
    resize_image (600, 4000) 800 = Ok (width', height') /\
    0 <= width' <= Z.min 600 800 /\
    0 <= height' <= Z.min 4000 800 /\
    Z.max width' height' = Z.min (Z.max 600 4000) 800.
Proof. apply (resize_image_fits 600 4000 800); lia. Defined.

(** X3. Resizing twice is resizing once: the size that [resize_image]
    asks for is left as it is by a second call with the same bound. *)
Theorem resize_image_idempotent width height max_size size :
  0 <= width < 2 ^ 32 -> 0 <= height < 2 ^ 32 -> 0 <= max_size <= 2 ^ 20 ->
  resize_image (width, height) max_size = Ok size ->
  resize_image size max_size = Ok size.
Proof.
  intros Hw Hh Hm E.
  destruct (resize_image_within width height max_size Hw Hh Hm)
    as (width' & height' & E' & Hw' & Hh').
  rewrite E' in E. injection E as <-. unfold resize_image.
  destruct (Z.ltb_spec height' width').
  - destruct (Z.ltb_spec max_size width'); [lia|reflexivity].
  - destruct (Z.ltb_spec max_size height'); [lia|reflexivity].
Qed.

Lemma resize_image_idempotent_witness :
  resize_image (1920, 1080) 800 = Ok (800, 450) /\ resize_image (800, 450) 800 = Ok (800, 450).
Proof.
  split; [vm_compute; reflexivity|].
  apply (resize_image_idempotent 1920 1080 800); [lia..|vm_compute; reflexivity].
Defined.

(** X4. The shorter side is lost when the image is more than [max_size]
    times as long as it is wide: for a wide image that exceeds the bound
    the height asked for is 0 exactly when [height * max_size < width],
    and likewise for the width of a high image. *)
Theorem resize_image_degenerate width height max_size :
  0 <= width < 2 ^ 32 -> 0 <= height < 2 ^ 32 -> 0 <= max_size <= 2 ^ 20 ->
  (height < width -> max_size < width ->
   exists height',
     resize_image (width, height) max_size = Ok (max_size, height') /\
     (height' = 0 <-> height * max_size < width)) /\
  (width <= height -> max_size < height ->
   exists width',
     resize_image (width, height) max_size = Ok (width', max_size) /\
     (width' = 0 <-> width * max_size < height)).
Proof.
  intros Hw Hh Hm.
  destruct (resize_image_cases width height max_size Hw Hh Hm)
    as [(H1 & H2 & ->)|[(H1 & H2 & ->)|(H1 & H2 & ->)]]; (split; [intros G1 G2|intros G1 G2]);
    try lia.
  - eexists. split; [reflexivity|]. rewrite Z.div_small_iff by lia. nia.
  - eexists. split; [reflexivity|]. rewrite Z.div_small_iff by lia. nia.
Qed.

Lemma resize_image_degenerate_witness :
  exists height',
    resize_image (2000, 2) 800 = Ok (800, height') /\ (height' = 0 <-> 2 * 800 < 2000).
Proof.
  apply (proj1 (resize_image_degenerate 2000 2 800 ltac:(lia) ltac:(lia) ltac:(lia))); lia.
Defined.

(** ** [generate_random_color] *)

Lemma code_chr n : 0 <= n < 256 -> code (chr n) = n.
Proof.
  intros Hn. unfold code, chr. rewrite N_ascii_embedding by lia. lia.
Qed.

Lemma code_hex_digit d :
  0 <= d < 16 -> code (hex_digit d) = if d <? 10 then 48 + d else 87 + d.
Proof.
  intros Hd. unfold hex_digit. destruct (Z.ltb_spec d 10); apply code_chr; lia.
Qed.

Lemma hex_digit_lower d : 0 <= d < 16 -> is_lower_hex (hex_digit d) = true.
Proof.
  intros Hd. unfold is_lower_hex, is_digit. rewrite code_hex_digit by assumption.
  destruct (Z.ltb_spec d 10); lia.
Qed.

Lemma hex_digit_inj a b : 0 <= a < 16 -> 0 <= b < 16 -> hex_digit a = hex_digit b -> a = b.
Proof.
  intros Ha Hb E. apply (f_equal code) in E. rewrite !code_hex_digit in E by assumption.
  destruct (Z.ltb_spec a 10), (Z.ltb_spec b 10); lia.
Qed.

(** The six digits of a number below [2 ^ 24]. *)
Lemma format_color_six v :
  0 <= v < 2 ^ 24 ->
  format_color v =
  "#"%char ::
    (hex_digit <$> [v / 16 / 16 / 16 / 16 / 16 mod 16; v / 16 / 16 / 16 / 16 mod 16;
                    v / 16 / 16 / 16 mod 16; v / 16 / 16 mod 16; v / 16 mod 16; v mod 16]).
Proof.
  intros Hv. unfold format_color.
  assert (Z.log2 v < 24).
  { destruct (Z.eq_dec v 0) as [->|]; [reflexivity|]. apply Z.log2_lt_pow2; lia. }
  pose proof (Z.log2_nonneg v).
  assert (Z.max 6 (Z.log2 v / 4 + 1) = 6) as -> by (Z.div_mod_to_equations; lia).
  reflexivity.
Qed.

Lemma randint_color_range (x : Z) : 0 <= 0 + x mod (16777215 - 0 + 1) < 2 ^ 24.
Proof.
  change (16777215 - 0 + 1) with 16777216. change (2 ^ 24) with 16777216.
  pose proof (Z.mod_pos_bound x 16777216 ltac:(lia)). lia.
Qed.

(** X5. [generate_random_color] always returns a hash sign followed by
    exactly six hexadecimal digits in small letters; it takes one number
    from the generator and changes no image. *)
Theorem generate_random_color_format {platform : Platform} (w : world) :
  exists ds,
    generate_random_color w = (Ok ("#"%char :: ds), World (images w) (S (rng_calls w))) /\
    length ds = 6%nat /\ forallb is_lower_hex ds = true.
Proof.
  unfold generate_random_color, randint, mbind, M_bind, mret, M_ret.
  rewrite format_color_six by apply randint_color_range.
  eexists. split; [reflexivity|]. split; [reflexivity|].
  cbn [fmap list_fmap forallb].
  rewrite !hex_digit_lower by (apply Z.mod_pos_bound; lia). reflexivity.
Qed.

(** X6. Two numbers of the range that [generate_random_color] draws from
    are written as the same colour only if they are the same number. *)
Theorem format_color_injective (v1 v2 : Z) :
  0 <= v1 <= 16777215 -> 0 <= v2 <= 16777215 -> v1 <> v2 ->
  format_color v1 <> format_color v2.
Proof.
  intros H1 H2 Hne E. apply Hne.
  rewrite !format_color_six in E by (change (2 ^ 24) with 16777216; lia).
  cbn [fmap list_fmap] in E.
  injection E as E5 E4 E3 E2 E1 E0.
  apply hex_digit_inj in E0, E1, E2, E3, E4, E5; try (apply Z.mod_pos_bound; lia).
  Z.div_mod_to_equations. lia.
Qed.

Lemma format_color_injective_witness : format_color 255 <> format_color 256.
Proof. apply (format_color_injective 255 256); lia. Defined.

(** ** The corners of the grid *)

Lemma digits2_pos_iter p k :
  Zpos (digits2_pos (Pos.iter xO p k)) = Zpos (digits2_pos p) + Zpos k.
Proof.
  induction k as [|k IH] using Pos.peano_ind.
  - cbn [Pos.iter digits2_pos]. lia.
  - rewrite Pos.iter_succ. cbn [digits2_pos]. lia.
Qed.

Lemma shr_fexp_canonical m e :
  Zpos (digits2_pos m) = 53 -> -1074 <= e ->
  shr_fexp prec emax (Zpos m) e loc_Exact = (Build_shr_record (Zpos m) false false, e).
Proof.
  intros Hm He. unfold shr_fexp. rewrite fexp_normal by (cbn [Zdigits2]; lia).
  cbn [Zdigits2]. rewrite Hm. reflexivity.
Qed.

(** A mantissa of 53 digits with an exponent in the range is kept by the
    rounding. *)
Lemma binary_round_aux_canonical s m e :
  Zpos (digits2_pos m) = 53 -> -1074 <= e <= 971 ->
  binary_round_aux prec emax s (Zpos m) e loc_Exact = S754_finite s m e.
Proof.
  intros Hm He. unfold binary_round_aux.
  rewrite shr_fexp_canonical by (assumption || lia).
  cbn [shr_m loc_of_shr_record round_nearest_even].
  rewrite shr_fexp_canonical by (assumption || lia). cbn [shr_m].
  now rewrite (proj2 (Z.leb_le e (emax - prec))) by (unfold emax, prec; lia).
Qed.

(** The float of a positive integer below [2 ^ 53]: its digits, shifted to
    a mantissa of 53 digits. *)
Lemma float_of_Z_canonical n :
  0 < n < 2 ^ 53 ->
  exists m e, float_of_Z n = S754_finite false m e /\
              Zpos (digits2_pos m) = 53 /\ -52 <= e <= 0.
Proof.
  intros Hn. destruct n as [|p|p]; try lia.
  unfold float_of_Z, binary_normalize, binary_round.
  pose proof (Zdigits2_between (Zpos p) 0 53 ltac:(lia) ltac:(lia)) as Hd.
  cbn [Zdigits2] in Hd.
  assert (Hf : fexp prec emax (Zpos (digits2_pos p) + 0) = Zpos (digits2_pos p) - 53).
  { unfold fexp, SpecFloat.emin, prec, emax. lia. }
  rewrite Hf. unfold shl_align.
  destruct (Zpos (digits2_pos p) - 53 - 0) as [|k|k] eqn:Ek; try lia.
  - exists p, 0. split; [|lia].
    replace (Zpos (digits2_pos p) - 53) with 0 by lia.
    apply binary_round_aux_canonical; lia.
  - exists (Pos.iter xO p k), (Zpos (digits2_pos p) - 53).
    assert (Hk : Zpos (digits2_pos (Pos.iter xO p k)) = 53) by (rewrite digits2_pos_iter; lia).
    split; [|lia]. apply binary_round_aux_canonical; lia.
Qed.

Lemma shr_fifty_two m :
  SpecFloat.iter_pos shr_1 52 (Build_shr_record (Zpos (2 ^ 52 * m)) false false) =
  Build_shr_record (Zpos m) false false.
Proof. reflexivity. Qed.

(** One times a float is that float. *)
Lemma SFmul_one s m e :
  Zpos (digits2_pos m) = 53 -> -52 <= e <= 0 ->
  SFmul prec emax (S754_finite false (2 ^ 52) (-52)) (S754_finite s m e) = S754_finite s m e.
Proof.
  intros Hm He. cbn [SFmul xorb]. unfold binary_round_aux.
  assert (Hd : Zdigits2 (Zpos (2 ^ 52 * m)) = 105).
  { change (2 ^ 52 * m)%positive with (Pos.iter xO m 52).
    cbn [Zdigits2]. rewrite digits2_pos_iter. lia. }
  assert (Hs : shr_fexp prec emax (Zpos (2 ^ 52 * m)) (-52 + e) loc_Exact =
               (Build_shr_record (Zpos m) false false, -52 + e + 52)).
  { unfold shr_fexp. rewrite fexp_normal by lia. rewrite Hd.
    change (105 - 53) with 52. cbn [shr_record_of_loc shr]. now rewrite shr_fifty_two. }
  rewrite Hs. cbn [shr_m loc_of_shr_record round_nearest_even].
  replace (-52 + e + 52) with e by lia.
  rewrite shr_fexp_canonical by (assumption || lia). cbn [shr_m].
  now rewrite (proj2 (Z.leb_le e (emax - prec))) by (unfold emax, prec; lia).
Qed.

Lemma pixel_zero dim :
  0 <= dim < 2 ^ 53 -> pixel (VInt 0) dim = Ok (VFloat (S754_zero false)).
Proof.
  intros Hd.
  assert (2 ^ 53 < dbl_overflow) by reflexivity.
  unfold pixel. change (py_truediv (VInt 0) (VInt 1000)) with (Ok (VFloat (S754_zero false))).
  cbn [mbind result_bind]. unfold py_mul, binop. cbn [as_num num_arith].
  rewrite int_to_float_small by lia. cbn [mbind result_bind fmap result_fmap of_num].
  destruct (Z.eq_dec dim 0) as [->|Hne]; [reflexivity|].
  destruct (float_of_Z_canonical dim ltac:(lia)) as (m & e & -> & _). reflexivity.
Qed.

Lemma pixel_thousand dim :
  0 <= dim < 2 ^ 53 -> pixel (VInt 1000) dim = Ok (VFloat (float_of_Z dim)).
Proof.
  intros Hd.
  assert (2 ^ 53 < dbl_overflow) by reflexivity.
  unfold pixel.
  assert (py_truediv (VInt 1000) (VInt 1000) = Ok (VFloat (S754_finite false (2 ^ 52) (-52))))
    as -> by (vm_compute; reflexivity).
  cbn [mbind result_bind]. unfold py_mul, binop. cbn [as_num num_arith].
  rewrite int_to_float_small by lia. cbn [mbind result_bind fmap result_fmap of_num].
  destruct (Z.eq_dec dim 0) as [->|Hne]; [reflexivity|].
  destruct (float_of_Z_canonical dim ltac:(lia)) as (m & e & -> & Hm & He).
  now rewrite SFmul_one.
Qed.

(** X7. The corners of the grid are the corners of the image, exactly: on
    an image with sides below [2 ^ 31] the box [0, 0, 1000, 1000] is
    scaled to 0.0, 0.0, the height and the width, with no rounding
    error. *)
Theorem grid_corners_are_exact (width height : Z) :
  0 <= width < 2 ^ 31 -> 0 <= height < 2 ^ 31 ->
  scale_box (VList [VInt 0; VInt 0; VInt 1000; VInt 1000]) width height =
  Ok [VFloat (S754_zero false); VFloat (S754_zero false);
      VFloat (float_of_Z height); VFloat (float_of_Z width)].
Proof.
  intros Hw Hh. rewrite scale_box_four.
  rewrite !pixel_zero, !pixel_thousand by lia. reflexivity.
Qed.

Lemma grid_corners_are_exact_witness :
  scale_box (VList [VInt 0; VInt 0; VInt 1000; VInt 1000]) 400 800 =
  Ok [VFloat (S754_zero false); VFloat (S754_zero false);
      VFloat (float_of_Z 800); VFloat (float_of_Z 400)].
Proof. apply (grid_corners_are_exact 400 800); lia. Defined.

(** ** [draw_text_with_outline] *)

Lemma plus_minus_one v n :
  as_num v = Some n ->
  exists a b, py_sub v (VInt 1) = Ok a /\ py_add v (VInt 1) = Ok b.
Proof.
  intros E. unfold py_sub, py_add, binop. rewrite E. cbn [as_num].
  destruct n as [n|x]; cbn [num_arith].
  - eexists _, _. split; reflexivity.
  - rewrite int_to_float_small by reflexivity. eexists _, _. split; reflexivity.
Qed.

Lemma minus_one_not_number v : as_num v = None -> py_sub v (VInt 1) = Raise TypeError.
Proof. intros E. unfold py_sub, binop. now rewrite E. Qed.

(** X8. [draw_text_with_outline] makes five calls, in order and up to the
    first one that Pillow refuses.  When both coordinates of the position
    are numbers the calls are the text four times in the outline colour, at
    the positions one less and one more in each coordinate, and then once
    in the text colour at the position itself; when Pillow takes all five,
    all five are drawn.  When a coordinate is not a number
    [draw_text_with_outline] raises [TypeError] before any call is made. *)
Theorem draw_text_with_outline_five_calls {platform : Platform}
    draw text x y f text_color outline_color w :
  match as_num x, as_num y with
  | Some _, Some _ =>
      exists xm xp ym yp,
        py_sub x (VInt 1) = Ok xm /\ py_add x (VInt 1) = Ok xp /\
        py_sub y (VInt 1) = Ok ym /\ py_add y (VInt 1) = Ok yp /\
        draw_text_with_outline draw text (x, y) f text_color outline_color w =
        perform draw (outlined_text text f text_color outline_color x y xm xp ym yp) w /\
        (accepted_at draw w
           (outlined_text text f text_color outline_color x y xm xp ym yp) = true ->
         draw_text_with_outline draw text (x, y) f text_color outline_color w =
         (Ok tt,
          paint draw (outlined_text text f text_color outline_color x y xm xp ym yp) w))
  | _, _ =>
      draw_text_with_outline draw text (x, y) f text_color outline_color w =
      (Raise TypeError, w)
  end.
Proof.
  destruct (as_num x) as [nx|] eqn:Ex.
  - destruct (as_num y) as [ny|] eqn:Ey.
    + destruct (plus_minus_one x nx Ex) as (xm & xp & Exm & Exp).
      destruct (plus_minus_one y ny Ey) as (ym & yp & Eym & Eyp).
      exists xm, xp, ym, yp. repeat (split; [assumption|]).
      assert (E : draw_text_with_outline draw text (x, y) f text_color outline_color w =
                  perform draw
                    (outlined_text text f text_color outline_color x y xm xp ym yp) w).
      { unfold draw_text_with_outline, outlined_text. rewrite Exm, Exp, Eym, Eyp.
        rewrite !bind_lift_ok.
        do 4 (rewrite draw_call_bind, perform_cons;
              match goal with |- context [refused_at ?d ?v ?o] => destruct (refused_at d v o) end;
              [reflexivity|]; rewrite ?bind_lift_ok).
        rewrite perform_cons, draw_call_run.
        now match goal with |- context [refused_at ?d ?v ?o] => destruct (refused_at d v o) end. }
      split; [exact E|]. intros Ha. rewrite E. now apply perform_accepted.
    + destruct (plus_minus_one x nx Ex) as (xm & xp & Exm & Exp).
      unfold draw_text_with_outline.
      rewrite Exm, (minus_one_not_number y Ey). reflexivity.
  - unfold draw_text_with_outline. rewrite (minus_one_not_number x Ex). reflexivity.
Qed.

Lemma draw_text_with_outline_five_calls_witness :
  draw_text_with_outline (platform := sample_platform) 0%nat (lit "cat") (VInt 10, VInt 20)
    DefaultFont (lit "white") (lit "black") sample_world =
  (Ok tt,
   paint 0%nat
     [Text (VInt 9, VInt 19) (lit "cat") DefaultFont (lit "black");
      Text (VInt 11, VInt 19) (lit "cat") DefaultFont (lit "black");
      Text (VInt 9, VInt 21) (lit "cat") DefaultFont (lit "black");
      Text (VInt 11, VInt 21) (lit "cat") DefaultFont (lit "black");
      Text (VInt 10, VInt 20) (lit "cat") DefaultFont (lit "white")]
     sample_world).
Proof.
  pose proof (draw_text_with_outline_five_calls (platform := sample_platform) 0%nat
                (lit "cat") (VInt 10) (VInt 20) DefaultFont (lit "white") (lit "black")
                sample_world) as H.
  cbn [as_num] in H.
  destruct H as (xm & xp & ym & yp & Exm & Exp & Eym & Eyp & _ & H).
  injection Exm as <-. injection Exp as <-. injection Eym as <-. injection Eyp as <-.
  apply H. vm_compute. reflexivity.
Defined.

(** ** Which boxes are drawn *)

Section Scaling.
Context {platform : Platform}.

Lemma pixel_scalable c dim :
  scalable c = true -> Z.abs dim < dbl_overflow -> exists x, pixel c dim = Ok (VFloat x).
Proof.
  intros Hc Hd. destruct c as [|b|n|x|s|l|d]; try discriminate.
  - change (pixel (VBool b) dim) with (pixel (VInt (if b then 1 else 0)) dim).
    apply pixel_ok; [|exact Hd]. now destruct b.
  - now apply pixel_ok.
  - now apply pixel_ok.
Qed.

Lemma pixel_unscalable c dim :
  scalable c = false -> exists e, pixel c dim = Raise e /\ (e = TypeError \/ e = OverflowError).
Proof.
  intros Hc.
  assert (Hint : forall n, (Z.abs n <? 1000 * dbl_overflow) = false ->
            pixel (VInt n) dim = Raise OverflowError).
  { intros n Hn. apply Z.ltb_ge in Hn.
    unfold pixel, py_truediv, binop, num_truediv, int_true_divide. cbn [as_num Z.eqb].
    assert (0 < dbl_overflow) by reflexivity.
    destruct (Z.eqb_spec n 0) as [->|_]; [cbn in Hn; lia|].
    rewrite (proj2 (Z.leb_le _ _)) by (change (Z.abs 1000) with 1000; lia).
    reflexivity. }
  destruct c as [|b|n|x|s|l|d]; try discriminate;
    try (exists TypeError; split; [reflexivity|auto]).
  - destruct b; discriminate.
  - exists OverflowError. split; [now apply Hint|auto].
Qed.

(** The list comprehension on the pairs that [zip] yields. *)
Lemma mapM_scale (l : list (value * Z)) :
  Forall (fun cd => Z.abs (snd cd) < dbl_overflow) l ->
  if forallb (fun cd => scalable (fst cd)) l
  then exists xs,
         mapM (fun cd : value * Z => pixel (fst cd) (snd cd)) l = Ok (VFloat <$> xs) /\
         length xs = length l
  else exists e,
         mapM (fun cd : value * Z => pixel (fst cd) (snd cd)) l = Raise e /\
         (e = TypeError \/ e = OverflowError).
Proof.
  induction 1 as [|[c dim] l Hd _ IH]; cbn [forallb fst snd].
  - exists []. split; reflexivity.
  - cbn [snd] in Hd. cbn [mapM fst snd].
    destruct (scalable c) eqn:Hc; cbn [andb].
    + destruct (pixel_scalable c dim Hc Hd) as [x ->]. cbn [mbind result_bind].
      destruct (forallb _ l).
      * destruct IH as (xs & -> & Hlen). exists (x :: xs). split; [reflexivity|].
        cbn. now rewrite Hlen.
      * destruct IH as (e & -> & He). exists e. split; [reflexivity|exact He].
    + destruct (pixel_unscalable c dim Hc) as (e & -> & He).
      exists e. split; [reflexivity|exact He].
Qed.

Lemma scale_box_list l width height :
  scale_box (VList l) width height =
  mapM (fun cd : value * Z => pixel (fst cd) (snd cd))
    (zip l [height; width; height; width]).
Proof. reflexivity. Qed.

(** [zip] stops after the fourth element. *)
Lemma scale_box_take l width height :
  scale_box (VList (take 4 l)) width height = scale_box (VList l) width height.
Proof.
  rewrite !scale_box_list. f_equal.
  destruct l as [|c0 [|c1 [|c2 [|c3 l]]]]; try reflexivity.
  cbn [take zip zip_with]. now destruct l.
Qed.

Lemma scale_box_drawable bbox width height :
  drawable bbox = true -> Z.abs width < dbl_overflow -> Z.abs height < dbl_overflow ->
  exists ymin xmin ymax xmax,
    scale_box bbox width height = Ok [VFloat ymin; VFloat xmin; VFloat ymax; VFloat xmax].
Proof.
  intros Hb Hw Hh. destruct bbox as [| | | | |l|]; try discriminate.
  destruct l as [|c0 [|c1 [|c2 [|c3 l]]]]; try discriminate.
  cbn [drawable] in Hb. rewrite scale_box_list.
  pose proof (mapM_scale [(c0, height); (c1, width); (c2, height); (c3, width)]) as Hm.
  cbn [forallb fst] in Hm. rewrite andb_true_r, !andb_assoc, Hb in Hm.
  destruct Hm as (xs & E & Hlen); [repeat constructor; assumption|].
  cbn [zip zip_with]. replace (zip_with pair l []) with (@nil (value * Z)) by now destruct l.
  rewrite E. destruct xs as [|y0 [|x0 [|y1 [|x1 [|]]]]]; try discriminate. eauto 6.
Qed.

(** What the scaling does with a box that is not [drawable]: it raises, or
    it yields fewer than four values. *)
Lemma scale_box_undrawable bbox width height :
  drawable bbox = false -> Z.abs width < dbl_overflow -> Z.abs height < dbl_overflow ->
  match scale_box bbox width height with
  | Ok vs => (length vs < 4)%nat
  | Raise e => e = TypeError \/ e = OverflowError
  end.
Proof.
  intros Hb Hw Hh.
  assert (Hstr : forall (A : Type) (f : A -> str) (l : list A),
            match mapM (fun cd : value * Z => pixel (fst cd) (snd cd))
                    (zip ((fun a => VStr (f a)) <$> l) [height; width; height; width])
            with
            | Ok vs => (length vs < 4)%nat
            | Raise e => e = TypeError \/ e = OverflowError
            end).
  { intros A f [|a l]; cbn; [lia|auto]. }
  destruct bbox as [|b|n|x|s|l|d]; cbn [scale_box iterate mbind result_bind]; auto.
  - apply (Hstr ascii (fun c => [c])).
  - destruct l as [|c0 [|c1 [|c2 [|c3 l]]]].
    + cbn. lia.
    + pose proof (mapM_scale [(c0, height)]) as Hm. cbn [zip zip_with].
      destruct (forallb _ _); destruct Hm as (r & -> & Hr);
        [repeat constructor; assumption|cbn in Hr; rewrite length_fmap; lia
        |repeat constructor; assumption|exact Hr].
    + pose proof (mapM_scale [(c0, height); (c1, width)]) as Hm. cbn [zip zip_with].
      destruct (forallb _ _); destruct Hm as (r & -> & Hr);
        [repeat constructor; assumption|cbn in Hr; rewrite length_fmap; lia
        |repeat constructor; assumption|exact Hr].
    + pose proof (mapM_scale [(c0, height); (c1, width); (c2, height)]) as Hm.
      cbn [zip zip_with].
      destruct (forallb _ _); destruct Hm as (r & -> & Hr);
        [repeat constructor; assumption|cbn in Hr; rewrite length_fmap; lia
        |repeat constructor; assumption|exact Hr].
    + pose proof (mapM_scale [(c0, height); (c1, width); (c2, height); (c3, width)]) as Hm.
      cbn [drawable] in Hb. cbn [forallb fst] in Hm.
      rewrite andb_true_r, !andb_assoc, Hb in Hm.
      destruct Hm as (e & E & He); [repeat constructor; assumption|].
      cbn [zip zip_with]. replace (zip_with pair l []) with (@nil (value * Z)) by now destruct l.
      now rewrite E.
  - apply (Hstr (str * value)%type fst).
Qed.

Lemma box_exception_kind bbox width height :
  drawable bbox = false -> Z.abs width < dbl_overflow -> Z.abs height < dbl_overflow ->
  box_exception bbox width height = TypeError \/
  box_exception bbox width height = ValueError \/
  box_exception bbox width height = OverflowError.
Proof.
  intros Hb Hw Hh. pose proof (scale_box_undrawable bbox width height Hb Hw Hh) as H.
  unfold box_exception. destruct (scale_box bbox width height); intuition.
Qed.

(** A box that is not [drawable]: its colour is taken from the generator,
    then the scaling or the unpacking raises, and no call is made. *)
Lemma draw_box_undrawable draw width height f label bbox w :
  drawable bbox = false -> Z.abs width < dbl_overflow -> Z.abs height < dbl_overflow ->
  draw_box draw width height f label bbox w =
  (Raise (box_exception bbox width height), advance 1 w).
Proof.
  intros Hb Hw Hh. pose proof (scale_box_undrawable bbox width height Hb Hw Hh) as H.
  unfold draw_box, box_exception. rewrite generate_random_color_bind.
  destruct (scale_box bbox width height) as [vs|e]; [|reflexivity].
  destruct vs as [|? [|? [|? [|? [|]]]]]; try reflexivity. cbn in H. lia.
Qed.

Lemma draw_box_scale_ext draw width height f label bbox bbox' w :
  scale_box bbox width height = scale_box bbox' width height ->
  draw_box draw width height f label bbox w = draw_box draw width height f label bbox' w.
Proof. intros E. unfold draw_box. now rewrite E. Qed.

Lemma for_items_app (body : str -> value -> M unit) l1 l2 w :
  for_items body (l1 ++ l2) w = (for_items body l1 ≫= fun _ => for_items body l2) w.
Proof.
  revert w. induction l1 as [|[k v] l1 IH]; intros w; [reflexivity|].
  cbn [app for_items]. unfold mbind, M_bind in *.
  destruct (body k v w) as [[[]|e] w1]; [apply IH|reflexivity].
Qed.

Lemma forallb_first_false {A} (p : A -> bool) (l : list A) :
  forallb p l = false ->
  exists l1 x l2, l = l1 ++ x :: l2 /\ forallb p l1 = true /\ p x = false.
Proof.
  induction l as [|a l IH]; [discriminate|]. cbn [forallb].
  destruct (p a) eqn:Ha; cbn [andb].
  - intros H. destruct (IH H) as (l1 & x & l2 & -> & H1 & Hx).
    exists (a :: l1), x, l2. cbn [forallb]. now rewrite Ha, H1.
  - intros _. exists [], a, l. auto.
Qed.

Lemma drawable_scales image (d : dict) w :
  Z.abs (fst (size_of image w)) < 2 ^ 31 -> Z.abs (snd (size_of image w)) < 2 ^ 31 ->
  forallb (fun kv => drawable (snd kv)) d = true ->
  Forall (fun kv => exists ymin xmin ymax xmax,
            scale_box (snd kv) (fst (size_of image w)) (snd (size_of image w)) =
            Ok [VFloat ymin; VFloat xmin; VFloat ymax; VFloat xmax]) d.
Proof.
  intros Hw Hh Hd. pose proof dbl_overflow_big.
  rewrite Forall_forall. intros kv Hkv. rewrite forallb_forall in Hd.
  apply scale_box_drawable; [|lia|lia]. apply Hd. now apply list_elem_of_In.
Qed.

(** The run of [draw_bounding_boxes] up to the first box that cannot be
    scaled, when Pillow takes the calls of the boxes before it. *)
Lemma draw_bounding_boxes_stops image (d1 d2 : dict) label bbox w :
  Z.abs (fst (size_of image w)) < 2 ^ 31 -> Z.abs (snd (size_of image w)) < 2 ^ 31 ->
  forallb (fun kv => drawable (snd kv)) d1 = true -> drawable bbox = false ->
  accepted_at image w
    (boxes_ops (fst (size_of image w)) (snd (size_of image w)) (get_font 20) (rng_calls w) d1)
    = true ->
  draw_bounding_boxes image (VDict (d1 ++ (label, bbox) :: d2)) w =
  (Raise (box_exception bbox (fst (size_of image w)) (snd (size_of image w))),
   paint image
     (boxes_ops (fst (size_of image w)) (snd (size_of image w)) (get_font 20) (rng_calls w) d1)
     (advance (S (length d1)) w)).
Proof.
  intros Hw Hh H1 Hb Ha. pose proof dbl_overflow_big.
  pose proof (drawable_scales image d1 w Hw Hh H1) as Hall.
  unfold draw_bounding_boxes.
  assert (Es : image_size image w = (Ok (size_of image w), w)) by reflexivity.
  erewrite bind_ok by exact Es.
  destruct (size_of image w) as [width height]. cbn [fst snd items] in *.
  rewrite bind_lift_ok.
  assert (Ef : for_items (draw_box image width height (get_font 20))
                 (d1 ++ (label, bbox) :: d2) w =
               (Raise (box_exception bbox width height),
                paint image (boxes_ops width height (get_font 20) (rng_calls w) d1)
                  (advance (S (length d1)) w))).
  { rewrite for_items_app. erewrite bind_ok by (apply for_items_run; [exact Hall|exact Ha]).
    cbn [for_items]. erewrite bind_raise; [reflexivity|].
    rewrite draw_box_undrawable by (assumption || lia).
    rewrite paint_advance, advance_advance, <- paint_advance.
    now rewrite Nat.add_1_r. }
  now erewrite bind_raise by exact Ef.
Qed.

(** A box that is not [drawable] makes the call raise, whatever comes
    before it. *)
Lemma draw_bounding_boxes_undrawable image (d1 d2 : dict) label bbox w :
  Z.abs (fst (size_of image w)) < 2 ^ 31 -> Z.abs (snd (size_of image w)) < 2 ^ 31 ->
  drawable bbox = false ->
  exists e w', draw_bounding_boxes image (VDict (d1 ++ (label, bbox) :: d2)) w = (Raise e, w').
Proof.
  intros Hw Hh Hb. pose proof dbl_overflow_big.
  unfold draw_bounding_boxes.
  assert (Es : image_size image w = (Ok (size_of image w), w)) by reflexivity.
  erewrite bind_ok by exact Es.
  destruct (size_of image w) as [width height]. cbn [fst snd items] in *.
  rewrite bind_lift_ok. unfold mbind at 1, M_bind at 1. rewrite for_items_app.
  unfold mbind at 1, M_bind at 1.
  destruct (for_items _ d1 w) as [[[]|e] w1]; [|eauto].
  cbn [for_items]. unfold mbind at 1, M_bind at 1.
  rewrite draw_box_undrawable by (assumption || lia). eauto.
Qed.

End Scaling.

(** ** What a drawing adds to the world *)

Section Appends.
Context {platform : Platform}.

Lemma paint_then_paint draw ops1 n1 ops2 n2 w :
  paint draw ops2 (advance n2 (paint draw ops1 (advance n1 w))) =
  paint draw (ops1 ++ ops2) (advance (n1 + n2) w).
Proof. now rewrite <- paint_advance, paint_paint, advance_advance. Qed.

Lemma size_of_paint image draw ops n w :
  size_of image (paint draw ops (advance n w)) = size_of image w.
Proof.
  unfold size_of, paint, advance. cbn [images].
  destruct (decide (draw = image)) as [->|Hne].
  - rewrite lookup_alter_eq. now destruct (images w !! image).
  - now rewrite lookup_alter_ne.
Qed.

Lemma appends_ret {A} draw P (a : A) : appends_to draw P (mret a : M A).
Proof.
  intros w. exists [], 0%nat. split; [|constructor].
  cbn. now rewrite paint_nil, advance_zero.
Qed.

Lemma appends_lift {A} draw P (r : result A) : appends_to draw P (lift r).
Proof.
  intros w. exists [], 0%nat. split; [|constructor].
  cbn. now rewrite paint_nil, advance_zero.
Qed.

Lemma appends_size draw P l : appends_to draw P (image_size l).
Proof.
  intros w. exists [], 0%nat. split; [|constructor].
  cbn. now rewrite paint_nil, advance_zero.
Qed.

Lemma appends_draw_call draw (P : draw_op -> Prop) op :
  P op -> appends_to draw P (draw_call draw op).
Proof.
  intros Hop w. rewrite draw_call_run. destruct (refused_at draw w op) as [e|].
  - exists [], 0%nat. split; [|constructor].
    cbn [snd]. now rewrite paint_nil, advance_zero.
  - exists [op], 0%nat. split; [|now constructor].
    cbn [snd]. now rewrite advance_zero.
Qed.

Lemma appends_color draw P : appends_to draw P generate_random_color.
Proof.
  intros w. exists [], 1%nat. split; [|constructor].
  rewrite generate_random_color_run. cbn [snd]. now rewrite paint_nil.
Qed.

Lemma appends_bind {A B} draw P (m : M A) (k : A -> M B) :
  appends_to draw P m -> (forall a, appends_to draw P (k a)) -> appends_to draw P (m ≫= k).
Proof.
  intros Hm Hk w. unfold mbind, M_bind.
  destruct (Hm w) as (ops1 & n1 & E1 & F1).
  destruct (m w) as [[a|e] w1]; cbn [snd] in E1; subst w1.
  - destruct (Hk a (paint draw ops1 (advance n1 w))) as (ops2 & n2 & E2 & F2).
    exists (ops1 ++ ops2), (n1 + n2)%nat. split; [|now apply Forall_app].
    rewrite E2. rewrite paint_advance. apply paint_then_paint.
  - exists ops1, n1. auto.
Qed.

Ltac appends :=
  repeat first
    [ apply appends_lift | apply appends_ret | apply appends_color | apply appends_size
    | apply appends_draw_call; cbn; eauto 8
    | apply appends_bind; [|intros ?] ].

Lemma appends_label draw f label color xmin ymin lw lh :
  appends_to draw (styled f) (draw_label draw f label color xmin ymin lw lh).
Proof.
  unfold draw_label. appends.
Qed.

Lemma appends_box draw width height f label bbox :
  appends_to draw (styled f) (draw_box draw width height f label bbox).
Proof.
  unfold draw_box. appends.
  destruct a0 as [|? [|? [|? [|? [|]]]]]; appends.
  destruct (label_size f label). appends.
Qed.

Lemma appends_items draw P (body : str -> value -> M unit) d :
  (forall k v, appends_to draw P (body k v)) -> appends_to draw P (for_items body d).
Proof.
  intros Hb. induction d as [|[k v] d IH]; cbn [for_items]; appends; [apply Hb|exact IH].
Qed.

Lemma appends_draw_bounding_boxes image bboxes :
  appends_to image (styled (get_font 20)) (draw_bounding_boxes image bboxes).
Proof.
  unfold draw_bounding_boxes. appends. destruct a as [width height]. appends.
  apply appends_items. intros. apply appends_box.
Qed.

End Appends.

(** ** The renderer: further statements *)

(** [draw_bounding_boxes] on a mapping, in one step. *)
Lemma draw_bounding_boxes_items {platform : Platform} image (d : dict) w :
  draw_bounding_boxes image (VDict d) w =
  match for_items (draw_box image (fst (size_of image w)) (snd (size_of image w))
                     (get_font 20)) d w with
  | (Ok _, w') => (Ok image, w')
  | (Raise e, w') => (Raise e, w')
  end.
Proof.
  unfold draw_bounding_boxes, size_of, mbind, M_bind. cbn [image_size lift items].
  destruct (from_option im_size (0, 0) (images w !! image)) as [width height].
  cbn [fst snd]. now destruct (for_items _ d w) as [[[]|e] w'].
Qed.

(** The size of the image is the same after the loop, however it ends. *)
Lemma for_items_size {platform : Platform} image width height f (d : dict) w :
  size_of image (snd (for_items (draw_box image width height f) d w)) = size_of image w.
Proof.
  destruct (appends_items image (styled f) (draw_box image width height f) d
              (fun k v => appends_box image width height f k v) w) as (ops & n & -> & _).
  apply size_of_paint.
Qed.

Lemma boxes_ops_length {platform : Platform} width height f (d : dict) : forall n,
  Forall (fun kv => exists ymin xmin ymax xmax,
            scale_box (snd kv) width height =
            Ok [VFloat ymin; VFloat xmin; VFloat ymax; VFloat xmax]) d ->
  length (boxes_ops width height f n d) = (7 * length d)%nat.
Proof.
  induction d as [|[label bbox] d IH]; intros n Hd; [reflexivity|].
  apply Forall_cons in Hd as [(ymin & xmin & ymax & xmax & E) Hd]. cbn [snd] in E.
  cbn [boxes_ops]. rewrite E, length_app, (IH _ Hd). cbn [length box_ops label_ops]. lia.
Qed.

(** X9. On an image with sides below [2 ^ 31], [draw_bounding_boxes]
    returns exactly when every box of the mapping is a list whose first
    four elements are numbers that can be scaled (a float, or an [int] or
    [bool] below 1000 * (2 ^ 1024 - 2 ^ 970) in magnitude) and Pillow takes
    every call made for them: then it draws every box; otherwise it
    raises. *)
Theorem render_succeeds_iff_drawable_and_accepted {platform : Platform} image (d : dict) w :
  Z.abs (fst (size_of image w)) < 2 ^ 31 -> Z.abs (snd (size_of image w)) < 2 ^ 31 ->
  if forallb (fun kv => drawable (snd kv)) d &&
     accepted_at image w
       (boxes_ops (fst (size_of image w)) (snd (size_of image w)) (get_font 20)
          (rng_calls w) d)
  then draw_bounding_boxes image (VDict d) w =
       (Ok image,
        paint image
          (boxes_ops (fst (size_of image w)) (snd (size_of image w)) (get_font 20)
             (rng_calls w) d)
          (advance (length d) w))
  else exists e w', draw_bounding_boxes image (VDict d) w = (Raise e, w').
Proof.
  intros Hw Hh. destruct (forallb _ d) eqn:Hd; cbn [andb].
  - pose proof (drawable_scales image d w Hw Hh Hd) as Hall.
    destruct (accepted_at _ _ _) eqn:Ha.
    + now apply draw_bounding_boxes_run.
    + destruct (draw_bounding_boxes_perform image d w Hall) as (k & _ & _ & ->).
      destruct (perform image _ (advance k w)) as [[[]|e] w1] eqn:Ep.
      * apply perform_ok in Ep.
        change (accepted_at image (advance k w) ?o) with (accepted_at image w o) in Ep.
        congruence.
      * cbn. eauto.
  - apply forallb_first_false in Hd as (d1 & [label bbox] & d2 & -> & H1 & Hb).
    cbn [snd] in Hb. now apply draw_bounding_boxes_undrawable.
Qed.

Lemma render_succeeds_iff_drawable_and_accepted_witness :
  draw_bounding_boxes (platform := sample_platform) 0%nat
    (VDict [(lit "a", VList [VBool true; VInt 250; VFloat (float_of_Z 750); VInt 500; VNone])])
    sample_world =
  (Ok 0%nat,
   paint 0%nat
     (boxes_ops (platform := sample_platform) 400 800 DefaultFont 0
        [(lit "a", VList [VBool true; VInt 250; VFloat (float_of_Z 750); VInt 500; VNone])])
     (advance 1 sample_world)) /\
  (exists e w',
     draw_bounding_boxes (platform := sample_platform) 0%nat
       (VDict [(lit "a", VList [VInt 1; VInt 2; VInt 3])]) sample_world = (Raise e, w')) /\
  exists e w',
    draw_bounding_boxes (platform := sample_platform) 0%nat (VDict inverted_boxes)
      sample_world = (Raise e, w').
Proof.
  split; [|split].
  - apply (render_succeeds_iff_drawable_and_accepted (platform := sample_platform) 0%nat
             [(lit "a", VList [VBool true; VInt 250; VFloat (float_of_Z 750); VInt 500; VNone])]
             sample_world); reflexivity.
  - apply (render_succeeds_iff_drawable_and_accepted (platform := sample_platform) 0%nat
             [(lit "a", VList [VInt 1; VInt 2; VInt 3])] sample_world); reflexivity.
  - apply (render_succeeds_iff_drawable_and_accepted (platform := sample_platform) 0%nat
             inverted_boxes sample_world); reflexivity.
Defined.

(** X10. When a box cannot be scaled and Pillow has taken every call of
    the boxes before it, these stay drawn on the image:
    [draw_bounding_boxes] raises at that box, after it has drawn all the
    boxes before it and has taken the colour of the failing box from the
    generator; the boxes after it are not looked at. *)
Theorem render_failure_keeps_earlier_boxes {platform : Platform}
    image (d1 d2 : dict) label bbox w :
  Z.abs (fst (size_of image w)) < 2 ^ 31 -> Z.abs (snd (size_of image w)) < 2 ^ 31 ->
  forallb (fun kv => drawable (snd kv)) d1 = true -> drawable bbox = false ->
  accepted_at image w
    (boxes_ops (fst (size_of image w)) (snd (size_of image w)) (get_font 20) (rng_calls w) d1)
    = true ->
  draw_bounding_boxes image (VDict (d1 ++ (label, bbox) :: d2)) w =
  (Raise (box_exception bbox (fst (size_of image w)) (snd (size_of image w))),
   paint image
     (boxes_ops (fst (size_of image w)) (snd (size_of image w)) (get_font 20) (rng_calls w) d1)
     (advance (S (length d1)) w)).
Proof. apply draw_bounding_boxes_stops. Qed.

Lemma render_failure_keeps_earlier_boxes_witness :
  draw_bounding_boxes (platform := sample_platform) 0%nat
    (VDict ([(lit "cat", VList [VInt 500; VInt 250; VInt 750; VInt 500])] ++
            (lit "dog", VList [VInt 1; VInt 2; VInt 3]) ::
            [(lit "owl", VList [VInt 0; VInt 0; VInt 10; VInt 10])]))
    sample_world =
  (Raise ValueError,
   paint 0%nat
     (boxes_ops (platform := sample_platform) 400 800 DefaultFont 0
        [(lit "cat", VList [VInt 500; VInt 250; VInt 750; VInt 500])])
     (advance 2 sample_world)).
Proof.
  apply (render_failure_keeps_earlier_boxes (platform := sample_platform) 0%nat
           [(lit "cat", VList [VInt 500; VInt 250; VInt 750; VInt 500])]
           [(lit "owl", VList [VInt 0; VInt 0; VInt 10; VInt 10])]
           (lit "dog") (VList [VInt 1; VInt 2; VInt 3]) sample_world); reflexivity.
Defined.

(** X11. Drawing a mapping is drawing its first items and then, on the
    image that this returns, the remaining ones: the result, the exception
    if one is raised, the commands and the numbers taken from the
    generator are the same. *)
Theorem render_in_two_steps {platform : Platform} image (d1 d2 : dict) w :
  draw_bounding_boxes image (VDict (d1 ++ d2)) w =
  (draw_bounding_boxes image (VDict d1) ≫=
   fun image' => draw_bounding_boxes image' (VDict d2)) w.
Proof.
  unfold mbind at 1, M_bind at 1.
  rewrite (draw_bounding_boxes_items image (d1 ++ d2)), (draw_bounding_boxes_items image d1).
  rewrite for_items_app. unfold mbind at 1, M_bind at 1.
  pose proof (for_items_size image (fst (size_of image w)) (snd (size_of image w))
                (get_font 20) d1 w) as Hsize.
  destruct (for_items _ d1 w) as [[[]|e] w1]; [|reflexivity].
  cbn [snd] in Hsize. now rewrite draw_bounding_boxes_items, Hsize.
Qed.

(** X12. Whatever object is passed as boxes and whether the call returns
    or raises, [draw_bounding_boxes] does nothing to the world but add
    commands to the image it is given and take numbers from the generator:
    the size of the image and the commands drawn before stay, and every
    command added is an outline of width 3, a filled plate, or a text in
    black or white in the font [get_font 20]. *)
Theorem render_only_adds_styled_commands {platform : Platform} image bboxes w :
  exists ops n,
    snd (draw_bounding_boxes image bboxes w) = paint image ops (advance n w) /\
    Forall (styled (get_font 20)) ops /\
    size_of image (snd (draw_bounding_boxes image bboxes w)) = size_of image w.
Proof.
  destruct (appends_draw_bounding_boxes image bboxes w) as (ops & n & E & Hops).
  exists ops, n. split; [exact E|]. split; [exact Hops|].
  rewrite E. apply size_of_paint.
Qed.

(** X13. The elements of a box after the fourth are never read:
    [draw_bounding_boxes] does the same on a mapping and on the mapping
    with every list cut to its first four elements. *)
Theorem render_ignores_elements_after_fourth {platform : Platform} image (d : dict) w :
  draw_bounding_boxes image (VDict (first_four <$> d)) w =
  draw_bounding_boxes image (VDict d) w.
Proof.
  rewrite !draw_bounding_boxes_items.
  set (body := draw_box image (fst (size_of image w)) (snd (size_of image w)) (get_font 20)).
  assert (E : forall w, for_items body (first_four <$> d) w = for_items body d w).
  { induction d as [|[label bbox] d IH]; intros w0; [reflexivity|].
    cbn [fmap list_fmap]. fold (fmap (M := list) first_four d).
    assert (Eb : forall w1, body (fst (first_four (label, bbox)))
                   (snd (first_four (label, bbox))) w1 = body label bbox w1).
    { intros w1. unfold first_four. cbn [fst snd].
      destruct bbox; try reflexivity. cbn [fst snd].
      apply draw_box_scale_ext, scale_box_take. }
    destruct (first_four (label, bbox)) as [label' bbox'] eqn:Ef. cbn [fst snd] in Eb.
    cbn [for_items]. unfold mbind, M_bind. rewrite Eb.
    destruct (body label bbox w0) as [[[]|e] w1]; [apply IH|reflexivity]. }
  now rewrite E.
Qed.

(** X14. When every box of a mapping can be scaled and Pillow takes every
    call, exactly seven commands are added to the image for each box (the
    outline, the plate and five texts) and exactly one number is taken from
    the generator for each; the size of the image, its pixels as they were
    and the commands drawn before are kept. *)
Theorem render_adds_seven_commands_per_box {platform : Platform} image (d : dict) w im :
  images w !! image = Some im ->
  Z.abs (fst (im_size im)) < 2 ^ 31 -> Z.abs (snd (im_size im)) < 2 ^ 31 ->
  forallb (fun kv => drawable (snd kv)) d = true ->
  accepted im
    (boxes_ops (fst (im_size im)) (snd (im_size im)) (get_font 20) (rng_calls w) d) = true ->
  exists w' ops,
    draw_bounding_boxes image (VDict d) w = (Ok image, w') /\
    images w' !! image = Some (Image (im_size im) (im_pixels im) (im_drawn im ++ ops)) /\
    length ops = (7 * length d)%nat /\
    rng_calls w' = (rng_calls w + length d)%nat.
Proof.
  intros Him Hw Hh Hd Ha.
  assert (Esize : size_of image w = im_size im) by (unfold size_of; now rewrite Him).
  pose proof (drawable_scales image d w) as Hall. rewrite Esize in Hall.
  specialize (Hall Hw Hh Hd).
  eexists _, _. split; [|split; [|split]].
  - apply draw_bounding_boxes_run; rewrite Esize; [assumption|].
    now rewrite (accepted_at_lookup _ _ _ _ Him).
  - unfold paint, advance. cbn [images]. rewrite lookup_alter_eq, Him. reflexivity.
  - rewrite Esize. now apply boxes_ops_length.
  - reflexivity.
Qed.

Lemma render_adds_seven_commands_per_box_witness :
  exists w' ops,
    draw_bounding_boxes (platform := sample_platform) 0%nat (VDict outside_boxes)
      sample_world = (Ok 0%nat, w') /\
    images w' !! 0%nat = Some (Image (400, 800) [1; 2; 3] ([] ++ ops)) /\
    length ops = (7 * 1)%nat /\
    rng_calls w' = (0 + 1)%nat.
Proof.
  apply (render_adds_seven_commands_per_box (platform := sample_platform) 0%nat
           outside_boxes sample_world (Image (400, 800) [1; 2; 3] [])); reflexivity.
Defined.

(** ** The decoder: further statements *)

Lemma digit_value_range c : is_digit c = true -> 0 <= digit_value c <= 9.
Proof. unfold is_digit, digit_value. lia. Qed.

Lemma digits_value_range d : forall acc,
  forallb is_digit d = true -> 0 <= acc ->
  0 <= digits_value acc d < (acc + 1) * 10 ^ Z.of_nat (length d).
Proof.
  induction d as [|c d IH]; intros acc Hd Hacc; cbn [digits_value length].
  - cbn. lia.
  - cbn [forallb] in Hd. apply andb_prop in Hd as [Hc Hd].
    pose proof (digit_value_range c Hc).
    destruct (IH (10 * acc + digit_value c) Hd ltac:(lia)) as [H1 H2].
    split; [exact H1|].
    rewrite Nat2Z.inj_succ, Z.pow_succ_r by lia.
    assert (0 < 10 ^ Z.of_nat (length d)) by (apply Z.pow_pos_nonneg; lia).
    nia.
Qed.

Lemma NoDup_first_occurrences (l : list str) : NoDup (first_occurrences l).
Proof.
  induction l as [|x l IH]; cbn [first_occurrences]; constructor.
  - rewrite list_elem_of_filter. tauto.
  - now apply NoDup_filter.
Qed.

Lemma dict_of_pairs_nil (l : list (str * value)) : dict_of_pairs l = [] -> l = [].
Proof.
  intros E. apply (f_equal keys) in E. rewrite keys_dict_of_pairs in E.
  destruct l; [reflexivity|discriminate].
Qed.

Lemma entry_is_fallback_item e : entry_ok e = true -> fallback_item (pair_of (entry_groups e)).
Proof.
  intros He. unfold entry_ok in He. split_ok He.
  unfold fallback_item, pair_of, label_of, box_of, entry_groups. cbn [hd tail fst snd].
  split; [assumption|]. split; [assumption|].
  eexists _, _, _, _. split; [reflexivity|].
  repeat split; apply digits_value_range; (assumption || lia).
Qed.

(** X15. When the text, of ASCII characters, is not JSON, what
    [extract_bounding_boxes] returns is a mapping without repeated labels in which every label has at least
    one character and no double quote, and every box is a list of exactly
    four integers, none of them negative; it holds no more items than the
    scan found matches. *)
Theorem fallback_items_are_boxes (text : str) :
  ascii_text text = true ->
  Json.loads text = Raise JSONDecodeError ->
  exists d,
    extract_bounding_boxes text = Ok (VDict d) /\
    NoDup (keys d) /\ Forall fallback_item d /\
    (length d <= length (Re.findall pattern text))%nat.
Proof.
  intros _ E. rewrite (extract_fallback _ E). eexists. split; [reflexivity|].
  split; [|split].
  - rewrite keys_dict_of_pairs. apply NoDup_first_occurrences.
  - rewrite Forall_forall. intros kv Hkv. apply dict_of_pairs_elem in Hkv.
    apply list_elem_of_fmap in Hkv as (m & -> & Hm).
    pose proof (findall_entries text) as Hall. rewrite Forall_forall in Hall.
    destruct (Hall m Hm) as (e & He & ->). now apply entry_is_fallback_item.
  - rewrite <- (length_fmap fst (dict_of_pairs _)). fold (keys (dict_of_pairs
      (pair_of <$> Re.findall pattern text))).
    rewrite keys_dict_of_pairs.
    assert (G : forall l : list str, (length (first_occurrences l) <= length l)%nat).
    { induction l as [|x l IH]; cbn [first_occurrences length]; [lia|].
      pose proof (length_filter (fun y => y <> x) (first_occurrences l)). lia. }
    etransitivity; [apply G|]. now rewrite !length_fmap.
Qed.

Lemma fallback_items_are_boxes_witness :
  exists d,
    extract_bounding_boxes sample_reply = Ok (VDict d) /\
    NoDup (keys d) /\ Forall fallback_item d /\
    (length d <= length (Re.findall pattern sample_reply))%nat.
Proof. apply (fallback_items_are_boxes sample_reply); vm_compute; reflexivity. Defined.

(** X16. On the text of a JSON object that is written in the layout of the
    pattern, the pattern scan alone gives the mapping that
    [extract_bounding_boxes] returns from [json.loads]: there the two ways
    of decoding agree.  The layout: every member is a quoted label of
    characters that need no escape, a colon and a list of four integers
    without sign and without leading zero, with white space only after the
    colon, after the commas of the list, after the opening brace, after
    the comma between two members and before the closing brace.  Other
    JSON objects (a space before the colon, a negative number, a space
    inside the brackets) are read by [json.loads] only. *)
Theorem strict_and_fallback_agree lead sep trail es :
  forallb Json.is_ws lead = true -> forallb Json.is_ws sep = true ->
  forallb Json.is_ws trail = true -> forallb json_entry_ok es = true ->
  fallback (object_text lead sep trail es) =
  extract_bounding_boxes (object_text lead sep trail es).
Proof.
  intros Hlead Hsep Htrail Hes. unfold fallback.
  rewrite comprehension_entries by apply findall_entries.
  rewrite (extract_strict _ _ (loads_agrees_with_fallback _ _ _ _ Hlead Hsep Htrail Hes)).
  reflexivity.
Qed.

Lemma strict_and_fallback_agree_witness :
  fallback sample_object = extract_bounding_boxes sample_object /\
  extract_bounding_boxes sample_object =
    Ok (VDict [(lit "cat", VList [VInt 100; VInt 200; VInt 300; VInt 400]);
               (lit "dog", VList [VInt 0; VInt 0; VInt 500; VInt 500])]).
Proof.
  split; [|vm_compute; reflexivity].
  apply (strict_and_fallback_agree (lit " ") (lit " ") (lit " ") [cat_entry; dog_entry]);
    reflexivity.
Defined.

(** X17. A reply that is not JSON and holds no double quote, the empty
    reply among them, is decoded to the empty mapping: the pattern cannot
    match without a quoted label. *)
Theorem reply_without_quote_is_empty (text : str) :
  forallb not_quote text = true -> Json.loads text = Raise JSONDecodeError ->
  extract_bounding_boxes text = Ok (VDict []).
Proof.
  intros Hq E. apply extract_nothing; [exact E|].
  rewrite <- (app_nil_r text). now rewrite findall_skip.
Qed.

Lemma reply_without_quote_is_empty_witness :
  extract_bounding_boxes [] = Ok (VDict []) /\
  extract_bounding_boxes (lit "cat: [1, 2, 3, 4]") = Ok (VDict []).
Proof.
  split.
  - apply (reply_without_quote_is_empty []); vm_compute; reflexivity.
  - apply (reply_without_quote_is_empty (lit "cat: [1, 2, 3, 4]")); vm_compute; reflexivity.
Defined.

Lemma findall_prose (parts : list (str * entry)) post :
  Forall (fun pe => forallb not_quote (fst pe) = true /\ entry_ok (snd pe) = true) parts ->
  forallb not_quote post = true ->
  Re.findall pattern (prose_text parts post) = (fun pe => entry_groups (snd pe)) <$> parts.
Proof.
  intros Hparts Hpost. induction Hparts as [|[pre e] parts [Hpre He] _ IH].
  - cbn [prose_text fmap list_fmap]. rewrite <- (app_nil_r post). now rewrite findall_skip.
  - cbn [prose_text fmap list_fmap fst snd] in *. now rewrite findall_entry, IH.
Qed.

(** X18. Entries in prose are recovered exactly.  When the reply is not
    JSON and consists of entries of the shape of the pattern, each after a
    stretch of text without a double quote, with such a stretch after the
    last one, [extract_bounding_boxes] returns the mapping of exactly these
    entries: their labels in the order of first appearance, each with the
    box of its last entry. *)
Theorem fallback_recovers_entries_in_prose (parts : list (str * entry)) post :
  Forall (fun pe => forallb not_quote (fst pe) = true /\ entry_ok (snd pe) = true) parts ->
  forallb not_quote post = true ->
  Json.loads (prose_text parts post) = Raise JSONDecodeError ->
  extract_bounding_boxes (prose_text parts post) = Ok (VDict (entries_dict (snd <$> parts))).
Proof.
  intros Hparts Hpost E. rewrite (extract_fallback _ E), findall_prose by assumption.
  unfold entries_dict. now rewrite <- !list_fmap_compose.
Qed.

Lemma fallback_recovers_entries_in_prose_witness :
  sample_reply =
    prose_text
      [(lit "Here are the results: ", dog_entry);
       (lit " and ",
        Entry (lit "cat") (lit " ") (lit "500") (lit " ") (lit "500") (lit " ") (lit "1000")
          (lit " ") (lit "1000"))] [] /\
  extract_bounding_boxes sample_reply =
    Ok (VDict [(lit "dog", VList [VInt 0; VInt 0; VInt 500; VInt 500]);
               (lit "cat", VList [VInt 500; VInt 500; VInt 1000; VInt 1000])]).
Proof.
  split; [vm_compute; reflexivity|].
  refine (eq_trans
    (fallback_recovers_entries_in_prose
       [(lit "Here are the results: ", dog_entry);
        (lit " and ",
         Entry (lit "cat") (lit " ") (lit "500") (lit " ") (lit "500") (lit " ") (lit "1000")
           (lit " ") (lit "1000"))] [] _ _ _) _).
  - repeat constructor.
  - reflexivity.
  - vm_compute. reflexivity.
  - vm_compute. reflexivity.
Defined.

(** ** Decoding and drawing in [main] *)

Section Main.
Context {platform : Platform}.

Lemma truthy_dict (d : dict) : truthy (VDict d) = negb (bool_decide (d = [])).
Proof. now destruct d. Qed.

Lemma main_annotate_truthy resized_image text bboxes w :
  extract_bounding_boxes text = Ok bboxes -> truthy bboxes = true ->
  main_annotate resized_image text w =
  match draw_bounding_boxes (fresh (dom (images w))) bboxes (snd (image_copy resized_image w))
  with
  | (Ok image_with_boxes, w') => (Ok (Some image_with_boxes), w')
  | (Raise e, w') => (Raise e, w')
  end.
Proof.
  intros E Ht. unfold main_annotate. rewrite E, bind_lift_ok, Ht.
  unfold mbind, M_bind. cbn [image_copy snd].
  now destruct (draw_bounding_boxes _ _ _) as [[l|e] w'].
Qed.

Lemma main_annotate_falsy resized_image text bboxes w :
  extract_bounding_boxes text = Ok bboxes -> truthy bboxes = false ->
  main_annotate resized_image text w = (Ok None, w).
Proof. intros E Ht. unfold main_annotate. now rewrite E, bind_lift_ok, Ht. Qed.

Lemma image_copy_keeps resized_image w :
  images (snd (image_copy resized_image w)) !! resized_image = images w !! resized_image.
Proof.
  cbn [image_copy snd images].
  destruct (images w !! resized_image) as [im|] eqn:E; [|exact E].
  rewrite lookup_insert_ne; [exact E|].
  intros Heq. pose proof (is_fresh (dom (images w))) as Hf.
  rewrite Heq in Hf. apply Hf, elem_of_dom. eauto.
Qed.

End Main.

(** X19. When the reply, of ASCII characters, is not JSON, [main] takes
    the branch of the warning, with nothing copied and nothing drawn,
    exactly when the scan of the pattern finds no match in the reply. *)
Theorem main_warns_iff_no_match {platform : Platform} resized_image text w :
  ascii_text text = true ->
  Json.loads text = Raise JSONDecodeError ->
  main_annotate resized_image text w = (Ok None, w) <-> Re.findall pattern text = [].
Proof.
  intros _ E. pose proof (extract_fallback _ E) as Ex.
  set (d := dict_of_pairs (pair_of <$> Re.findall pattern text)) in *.
  split.
  - intros Hm. destruct (Re.findall pattern text) as [|m ms] eqn:Ef; [reflexivity|].
    exfalso.
    assert (Ht : truthy (VDict d) = true).
    { rewrite truthy_dict. apply negb_true_iff, bool_decide_eq_false.
      intros Hd. now apply dict_of_pairs_nil in Hd. }
    rewrite (main_annotate_truthy _ _ _ _ Ex Ht) in Hm.
    now destruct (draw_bounding_boxes _ _ _) as [[l|e] w'].
  - intros Ef. apply (main_annotate_falsy _ _ _ _ Ex).
    unfold d. now rewrite Ef.
Qed.

Lemma main_warns_iff_no_match_witness :
  main_annotate (platform := sample_platform) 0%nat (py "I see a 'cat' at [1, 2, 3, 4].")
    sample_world = (Ok None, sample_world).
Proof.
  apply (main_warns_iff_no_match (platform := sample_platform) 0%nat
           (py "I see a 'cat' at [1, 2, 3, 4].") sample_world); vm_compute; reflexivity.
Defined.

(** X20. When the reply is JSON, [main] draws only if the value is true
    for [if]: on [null], [false], a zero, an empty string, list or object
    it takes the branch of the warning and leaves the world as it is.  On
    a value that is true and is not an object (a number, a string, a
    list) it copies the image and then [draw_bounding_boxes] raises
    [AttributeError], with the resized image unchanged. *)
Theorem main_on_json_reply {platform : Platform} resized_image text v w :
  Json.loads text = Ok v ->
  (truthy v = false -> main_annotate resized_image text w = (Ok None, w)) /\
  (truthy v = true -> (forall d, v <> VDict d) ->
   main_annotate resized_image text w =
     (Raise AttributeError, snd (image_copy resized_image w)) /\
   images (snd (image_copy resized_image w)) !! resized_image =
     images w !! resized_image).
Proof.
  intros E. apply extract_strict in E. split.
  - now apply main_annotate_falsy.
  - intros Ht Hv. split; [|apply image_copy_keeps].
    rewrite (main_annotate_truthy _ _ _ _ E Ht).
    rewrite draw_bounding_boxes_not_dict with (e := AttributeError); [reflexivity|].
    destruct v; try reflexivity. now destruct (Hv d).
Qed.

Lemma main_on_json_reply_witness :
  main_annotate (platform := sample_platform) 0%nat (py "{}") sample_world =
    (Ok None, sample_world) /\
  main_annotate (platform := sample_platform) 0%nat (py "['cat', 1, 2, 3, 4]") sample_world =
    (Raise AttributeError, snd (image_copy 0%nat sample_world)).
Proof.
  split.
  - apply (proj1 (main_on_json_reply (platform := sample_platform) 0%nat (py "{}")
                    (VDict []) sample_world ltac:(vm_compute; reflexivity))).
    reflexivity.
  - apply (proj2 (main_on_json_reply (platform := sample_platform) 0%nat
                    (py "['cat', 1, 2, 3, 4]")
                    (VList [VStr (lit "cat"); VInt 1; VInt 2; VInt 3; VInt 4]) sample_world
                    ltac:(vm_compute; reflexivity))).
    + reflexivity.
    + discriminate.
Defined.

Lemma short_run_scalable d :
  forallb is_digit d = true -> short_run d = true -> scalable (VInt (digits_value 0 d)) = true.
Proof.
  intros Hd Hs. unfold short_run in Hs. apply bool_decide_eq_true in Hs.
  destruct (digits_value_range d 0 Hd ltac:(lia)) as [H0 H1].
  unfold scalable. cbn [as_num]. apply Z.ltb_lt.
  assert (10 ^ Z.of_nat (length d) <= 10 ^ 311) by (apply Z.pow_le_mono_r; lia).
  assert (10 ^ 311 < 1000 * dbl_overflow) by reflexivity.
  lia.
Qed.

Lemma short_matches_drawable (ms : list (list str)) :
  Forall (fun m => exists e, entry_ok e = true /\ m = entry_groups e) ms ->
  Forall (fun m => forallb short_run (tail m) = true) ms ->
  forallb (fun kv => drawable (snd kv)) (dict_of_pairs (pair_of <$> ms)) = true.
Proof.
  intros Hms Hshort. apply forallb_forall. intros kv Hkv.
  apply list_elem_of_In, dict_of_pairs_elem, list_elem_of_fmap in Hkv as (m & -> & Hm).
  rewrite Forall_forall in Hms, Hshort.
  destruct (Hms m Hm) as (e & He & ->). specialize (Hshort _ Hm).
  unfold entry_ok in He. split_ok He.
  cbn [entry_groups tail forallb] in Hshort.
  apply andb_prop in Hshort as [S1 Hshort]. apply andb_prop in Hshort as [S2 Hshort].
  apply andb_prop in Hshort as [S3 Hshort]. apply andb_prop in Hshort as [S4 _].
  unfold pair_of, box_of, entry_groups. cbn [snd tail fmap list_fmap drawable].
  now rewrite !short_run_scalable by assumption.
Qed.

(** The run of [main] on a reply that decodes to a mapping, not empty, of
    boxes that can be scaled and whose calls Pillow takes. *)
Lemma main_annotate_draws {platform : Platform} resized_image text w im (d : dict) :
  extract_bounding_boxes text = Ok (VDict d) -> d <> [] ->
  forallb (fun kv => drawable (snd kv)) d = true ->
  images w !! resized_image = Some im ->
  Z.abs (fst (im_size im)) < 2 ^ 31 -> Z.abs (snd (im_size im)) < 2 ^ 31 ->
  accepted im
    (boxes_ops (fst (im_size im)) (snd (im_size im)) (get_font 20) (rng_calls w) d) = true ->
  exists copy w',
    main_annotate resized_image text w = (Ok (Some copy), w') /\
    copy <> resized_image /\
    images w' !! resized_image = Some im /\
    images w' !! copy =
      Some (burn_all
              (boxes_ops (fst (im_size im)) (snd (im_size im)) (get_font 20) (rng_calls w) d)
              im) /\
    rng_calls w' = (rng_calls w + length d)%nat.
Proof.
  intros Ex Hne Hd Him Hw Hh Ha.
  assert (Ht : truthy (VDict d) = true).
  { rewrite truthy_dict. now apply negb_true_iff, bool_decide_eq_false. }
  set (copy := fresh (dom (images w))).
  assert (Hfresh : images w !! copy = None) by (apply not_elem_of_dom, is_fresh).
  assert (Hcopy : copy <> resized_image) by congruence.
  set (w1 := snd (image_copy resized_image w)).
  assert (Ew1 : w1 = World (<[copy := im]> (images w)) (rng_calls w)).
  { unfold w1. cbn [image_copy snd]. now rewrite Him. }
  assert (Esize : size_of copy w1 = im_size im).
  { rewrite Ew1. unfold size_of. cbn [images]. now rewrite lookup_insert_eq. }
  exists copy. eexists.
  rewrite (main_annotate_truthy _ _ _ _ Ex Ht). fold copy w1.
  assert (Ew : rng_calls w1 = rng_calls w) by now rewrite Ew1.
  assert (Elook : images w1 !! copy = Some im).
  { rewrite Ew1. cbn [images]. now rewrite lookup_insert_eq. }
  rewrite draw_bounding_boxes_run
    by (try apply drawable_scales;
        rewrite ?Esize, ?Ew, ?(accepted_at_lookup _ _ _ _ Elook); assumption).
  rewrite Esize, Ew. split; [reflexivity|]. split; [exact Hcopy|].
  rewrite Ew1. unfold paint, advance. cbn [images rng_calls].
  split; [|split; [|reflexivity]].
  - rewrite lookup_alter_ne, lookup_insert_ne by congruence. exact Him.
  - now rewrite lookup_alter_eq, lookup_insert_eq.
Qed.

(** X21. Decoding and drawing together.  When the reply, of ASCII
    characters, is not JSON, the scan finds at least one match, every
    integer of a match has at most 311 digits, the sides of the resized
    image are below [2 ^ 31] and Pillow takes every call made for the
    decoded boxes, [main] raises nothing: the annotated image is a new
    object that holds the resized image with every decoded box drawn on it,
    in the order of the mapping, and the resized image is as it was. *)
Theorem main_draws_fallback_matches {platform : Platform} resized_image text w im (d : dict) :
  ascii_text text = true ->
  Json.loads text = Raise JSONDecodeError ->
  Re.findall pattern text <> [] ->
  Forall (fun m => forallb short_run (tail m) = true) (Re.findall pattern text) ->
  extract_bounding_boxes text = Ok (VDict d) ->
  images w !! resized_image = Some im ->
  Z.abs (fst (im_size im)) < 2 ^ 31 -> Z.abs (snd (im_size im)) < 2 ^ 31 ->
  accepted im
    (boxes_ops (fst (im_size im)) (snd (im_size im)) (get_font 20) (rng_calls w) d) = true ->
  exists copy w',
    main_annotate resized_image text w = (Ok (Some copy), w') /\
    copy <> resized_image /\
    images w' !! resized_image = Some im /\
    images w' !! copy =
      Some (burn_all
              (boxes_ops (fst (im_size im)) (snd (im_size im)) (get_font 20) (rng_calls w) d)
              im) /\
    rng_calls w' = (rng_calls w + length d)%nat.
Proof.
  intros _ E Hne Hshort Ed Him Hw Hh Ha. pose proof (extract_fallback _ E) as Ex.
  rewrite Ed in Ex. injection Ex as ->.
  set (d := dict_of_pairs (pair_of <$> Re.findall pattern text)) in *.
  assert (Hd : forallb (fun kv => drawable (snd kv)) d = true).
  { apply short_matches_drawable; [apply findall_entries|exact Hshort]. }
  assert (Hnil : d <> []).
  { intros Hnil. now apply dict_of_pairs_nil, fmap_nil_inv in Hnil. }
  exact (main_annotate_draws resized_image text w im d Ed Hnil Hd Him Hw Hh Ha).
Qed.

Lemma main_draws_fallback_matches_witness :
  extract_bounding_boxes sample_reply =
    Ok (VDict [(lit "dog", VList [VInt 0; VInt 0; VInt 500; VInt 500]);
               (lit "cat", VList [VInt 500; VInt 500; VInt 1000; VInt 1000])]) /\
  exists copy w',
    main_annotate (platform := sample_platform) 0%nat sample_reply sample_world =
      (Ok (Some copy), w') /\
    copy <> 0%nat /\
    images w' !! 0%nat = Some (Image (400, 800) [1; 2; 3] []) /\
    images w' !! copy =
      Some (burn_all
              (boxes_ops (platform := sample_platform) 400 800 DefaultFont 0
                 [(lit "dog", VList [VInt 0; VInt 0; VInt 500; VInt 500]);
                  (lit "cat", VList [VInt 500; VInt 500; VInt 1000; VInt 1000])])
              (Image (400, 800) [1; 2; 3] [])) /\
    rng_calls w' = (0 + 2)%nat.
Proof.
  split; [vm_compute; reflexivity|].
  apply (main_draws_fallback_matches (platform := sample_platform) 0%nat sample_reply
           sample_world (Image (400, 800) [1; 2; 3] [])
           [(lit "dog", VList [VInt 0; VInt 0; VInt 500; VInt 500]);
            (lit "cat", VList [VInt 500; VInt 500; VInt 1000; VInt 1000])]).
  - vm_compute. reflexivity.
  - vm_compute. reflexivity.
  - vm_compute. discriminate.
  - vm_compute. repeat constructor.
  - vm_compute. reflexivity.
  - reflexivity.
  - reflexivity.
  - reflexivity.
  - vm_compute. reflexivity.
Defined.

(** X22. When the reply is JSON for an object, not empty, in which every
    value is a list whose first four elements are numbers that can be
    scaled, the sides of the resized image are below [2 ^ 31] and Pillow
    takes every call made for the boxes, [main] raises nothing: the
    annotated image is a new object that holds the resized image with every
    box of the object drawn on it, and the resized image is as it was. *)
Theorem main_draws_json_object {platform : Platform} resized_image text w im (d : dict) :
  Json.loads text = Ok (VDict d) -> d <> [] ->
  forallb (fun kv => drawable (snd kv)) d = true ->
  images w !! resized_image = Some im ->
  Z.abs (fst (im_size im)) < 2 ^ 31 -> Z.abs (snd (im_size im)) < 2 ^ 31 ->
  accepted im
    (boxes_ops (fst (im_size im)) (snd (im_size im)) (get_font 20) (rng_calls w) d) = true ->
  exists copy w',
    main_annotate resized_image text w = (Ok (Some copy), w') /\
    copy <> resized_image /\
    images w' !! resized_image = Some im /\
    images w' !! copy =
      Some (burn_all
              (boxes_ops (fst (im_size im)) (snd (im_size im)) (get_font 20) (rng_calls w) d)
              im) /\
    rng_calls w' = (rng_calls w + length d)%nat.
Proof. intros E. apply main_annotate_draws. now apply extract_strict. Qed.

Lemma main_draws_json_object_witness :
  exists copy w',
    main_annotate (platform := sample_platform) 0%nat
      (py "{'cat': [100.5, 200, 300, 400, 0.9], 'dog': [true, 0, 500, 500]}") sample_world =
      (Ok (Some copy), w') /\
    copy <> 0%nat /\
    images w' !! 0%nat = Some (Image (400, 800) [1; 2; 3] []) /\
    images w' !! copy =
      Some (burn_all
              (boxes_ops (platform := sample_platform) 400 800 DefaultFont 0
                 [(lit "cat", VList [VFloat (float_of_decimal false 1005 (-1)); VInt 200;
                                     VInt 300; VInt 400;
                                     VFloat (float_of_decimal false 9 (-1))]);
                  (lit "dog", VList [VBool true; VInt 0; VInt 500; VInt 500])])
              (Image (400, 800) [1; 2; 3] [])) /\
    rng_calls w' = (0 + 2)%nat.
Proof.
  apply (main_draws_json_object (platform := sample_platform) 0%nat
           (py "{'cat': [100.5, 200, 300, 400, 0.9], 'dog': [true, 0, 500, 500]}")
           sample_world (Image (400, 800) [1; 2; 3] [])).
  - vm_compute. reflexivity.
  - discriminate.
  - reflexivity.
  - reflexivity.
  - reflexivity.
  - reflexivity.
  - vm_compute. reflexivity.
Defined.
